(** * user_storage: sandbox enforcement and safe editing

    A shallow embedding of [user_storage.py] (the [Tools] class of the
    "User Storage" tool) and the properties of its path resolver, command
    and argument validator, and lock / edit-zone state machine.

    Conventions of the embedding.
    - A Python [str] is a [string]; one [ascii] stands for one code point
      below 256 (so a code point of 128 or more takes two bytes in UTF-8).
    - A [pathlib.Path] is the list of its components, from the file-system
      root; [[]] is [/].
    - The file system is a finite map from paths to nodes.  It has no
      symbolic links, and paths handed to it have no [..] component.
    - Without symbolic links, [Path.resolve] is the normalisation of the
      components.  [resolve] asks the operating system about every
      component: when a string of the caller that holds the character NUL
      is part of the path, it raises [ValueError].  The base path of the
      configuration and the identifiers of the user and of the
      conversation, which the platform provides, hold no NUL.
    - [pathlib] is that of CPython 3.11: [rglob] is a generator that reads
      a directory when the scan reaches it, and only a [PermissionError]
      is caught while it scans.
    - Library calls whose result the source does not determine
      ([json.loads], [json.dumps], [datetime.isoformat],
      [datetime.fromisoformat], [subprocess.run]) are the methods of a
      class [Host]; [RefHost] is an instance that computes.
    - The clock is an argument: an operation that reads the time takes
      [now], in microseconds since the epoch. *)

From Stdlib Require Import ZArith Ascii String List Bool Lia.
From stdpp Require Import base option list strings sorting gmap fin_maps.

Open Scope Z_scope.

(** ** Strings *)

Module Str.

Definition eqb (a b : string) : bool := bool_decide (a = b).

(** [s.lstrip(c)] *)
Fixpoint lstrip (c : ascii) (s : string) : string :=
  match s with
  | String a s' => if Ascii.eqb a c then lstrip c s' else s
  | EmptyString => EmptyString
  end.

(** [s.startswith(p)] *)
Fixpoint startswith (p s : string) : bool :=
  match p, s with
  | EmptyString, _ => true
  | String a p', String b s' => Ascii.eqb a b && startswith p' s'
  | String _ _, EmptyString => false
  end.

(** [p in s] *)
Fixpoint contains (p s : string) : bool :=
  startswith p s ||
  match s with
  | String _ s' => contains p s'
  | EmptyString => false
  end.

(** [s.split(sep)] for a one-character separator: never the empty list *)
Fixpoint split (sep : ascii) (s : string) : list string :=
  match s with
  | EmptyString => [EmptyString]
  | String a s' =>
      if Ascii.eqb a sep then EmptyString :: split sep s'
      else match split sep s' with
           | w :: ws => String a w :: ws
           | [] => [String a EmptyString]
           end
  end.

(** [sep.join(parts)] *)
Fixpoint join (sep : string) (parts : list string) : string :=
  match parts with
  | [] => EmptyString
  | [w] => w
  | w :: ws => w +:+ sep +:+ join sep ws
  end.

(** [s.endswith(p)] *)
Definition endswith (p s : string) : bool :=
  startswith (String.rev p) (String.rev s).

(** [s[:-n]] *)
Definition drop_last (n : nat) (s : string) : string :=
  String.substring 0 (String.length s - n) s.

(** [s.replace(c, by)] for a one-character [c] *)
Fixpoint replace (c : ascii) (by_ : string) (s : string) : string :=
  match s with
  | EmptyString => EmptyString
  | String a s' =>
      if Ascii.eqb a c then by_ +:+ replace c by_ s' else String a (replace c by_ s')
  end.

End Str.

(** ** JSON values, errors, results *)

#[local] Unset Elimination Schemes.
Inductive json :=
| JNull
| JBool (b : bool)
| JNum (n : Z)
| JStr (s : string)
| JArr (items : list json)
| JObj (fields : list (string * json)).
#[local] Set Elimination Schemes.

(** [d.get(key)] on a parsed object; [None] is Python's [None] *)
Fixpoint dict_get (fields : list (string * json)) (key : string) : option json :=
  match fields with
  | [] => None
  | (k, v) :: rest => if Str.eqb k key then Some v else dict_get rest key
  end.

Inductive error_code :=
| PATH_ESCAPE | COMMAND_FORBIDDEN | ARGUMENT_FORBIDDEN | FILE_NOT_FOUND
| FILE_LOCKED | ZONE_FORBIDDEN | TIMEOUT | COMMAND_NOT_FOUND | EXEC_ERROR
| QUOTA_EXCEEDED.

(** [StorageError]: the code and the [details] dictionary (a [None] in
    it is [JNull]); the message and the hint are texts for the reader and
    are left out. *)
Record StorageError := mkError {
  code : error_code;
  details : list (string * json)
}.

(** What a helper raises: a [StorageError], or any other exception
    ([OSError], [AttributeError], ...). *)
Inductive exn :=
| Storage (e : StorageError)
| Other.

Inductive result (A : Type) :=
| Ok (a : A)
| Raise (e : exn).
Arguments Ok {A} a.
Arguments Raise {A} e.

#[global] Instance result_bind : MBind result := fun A B k r =>
  match r with
  | Ok a => k a
  | Raise e => Raise e
  end.

#[global] Instance result_ret : MRet result := fun A a => Ok a.

Definition raise {A} (c : error_code) (d : list (string * json)) : result A :=
  Raise (Storage (mkError c d)).

(** ** Paths *)

Abbreviation path := (list string).

Module Path.

(** The components [pathlib] keeps of a string: empty components and
    [.] are dropped, [..] is kept. *)
Definition keep (part : string) : bool :=
  negb (Str.eqb part "") && negb (Str.eqb part ".").

Definition segments (s : string) : path :=
  List.filter keep (Str.split "/"%char s).

(** [p / s]: an absolute [s] replaces [p] *)
Definition join (p : path) (s : string) : path :=
  if Str.startswith "/" s then segments s else p ++ segments s.

(** [p.parent]; the parent of the root is the root *)
Definition parent (p : path) : path := removelast p.

(** [str(p)] of a relative path *)
Definition to_string (p : path) : string := Str.join "/" p.

(** [p.relative_to(base)] succeeds *)
Fixpoint is_under (base p : path) : bool :=
  match base, p with
  | [], _ => true
  | b :: base', x :: p' => Str.eqb b x && is_under base' p'
  | _ :: _, [] => false
  end.

(** [Path.resolve()] on a file system without symbolic links: [..]
    steps to the parent, and the parent of [/] is [/]. *)
Fixpoint normalize (stack todo : path) : path :=
  match todo with
  | [] => stack
  | part :: rest =>
      if Str.eqb part ".." then normalize (removelast stack) rest
      else normalize (stack ++ [part]) rest
  end.

Definition resolve (p : path) : path := normalize [] p.

(** The character NUL. *)
Definition NUL : string := String "000" EmptyString.

(** [(p / s).resolve()] for a string [s] of the caller: a NUL in [s]
    raises [ValueError] (embedded null byte). *)
Definition resolve_joined (p : path) (s : string) : result path :=
  if Str.contains NUL s then Raise Other else Ok (resolve (join p s)).

(** [str(p)] of an absolute path *)
Definition to_string_abs (p : path) : string := "/" +:+ Str.join "/" p.

End Path.


(** ** The file system *)

Inductive node :=
| Dir
| File (content : string).

Abbreviation fs := (gmap path node).

Module FS.

(** The root directory always exists. *)
Definition node_at (s : fs) (p : path) : option node :=
  match p with
  | [] => Some Dir
  | _ => s !! p
  end.

(** [p.exists()], [p.is_dir()], [p.is_file()] *)
Definition exists_ (s : fs) (p : path) : bool :=
  match node_at s p with Some _ => true | None => false end.
Definition is_dir (s : fs) (p : path) : bool :=
  match node_at s p with Some Dir => true | _ => false end.
Definition is_file (s : fs) (p : path) : bool :=
  match node_at s p with Some (File _) => true | _ => false end.

(** Every entry lies in a directory. *)
Definition wf (s : fs) : Prop :=
  forall p n, s !! p = Some n -> p <> [] /\ is_dir s (Path.parent p) = true.

(** [p.mkdir(parents=True, exist_ok=True)]: [None] when a component is
    a regular file (an [OSError], nothing is created). *)
Fixpoint mkdir_from (s : fs) (above todo : path) : option fs :=
  match todo with
  | [] => Some s
  | x :: rest =>
      let d := above ++ [x] in
      match s !! d with
      | Some Dir => mkdir_from s d rest
      | Some (File _) => None
      | None => mkdir_from (<[d := Dir]> s) d rest
      end
  end.

Definition mkdir_p (s : fs) (p : path) : result fs :=
  match mkdir_from s [] p with
  | Some s' => Ok s'
  | None => Raise Other
  end.

(** [p.read_text()] *)
Definition read_text (s : fs) (p : path) : result string :=
  match node_at s p with
  | Some (File c) => Ok c
  | _ => Raise Other
  end.

(** [p.write_text(content)] *)
Definition write_text (s : fs) (p : path) (content : string) : result fs :=
  if is_dir s (Path.parent p) then
    match node_at s p with
    | Some Dir => Raise Other
    | _ => Ok (<[p := File content]> s)
    end
  else Raise Other.

(** [with p.open("a") as f: f.write(content)] *)
Definition append_text (s : fs) (p : path) (content : string) : result fs :=
  if is_dir s (Path.parent p) then
    match node_at s p with
    | Some Dir => Raise Other
    | Some (File old) => Ok (<[p := File (old +:+ content)]> s)
    | None => Ok (<[p := File content]> s)
    end
  else Raise Other.

(** [p.unlink()] *)
Definition unlink (s : fs) (p : path) : result fs :=
  match node_at s p with
  | Some (File _) => Ok (delete p s)
  | _ => Raise Other
  end.

(** [shutil.rmtree(p)] of a directory: [p] and all below it go. *)
Definition rmtree (s : fs) (p : path) : fs :=
  filter (fun kv => Path.is_under p kv.1 = false) s.

Definition strictly_under (p q : path) : bool :=
  Path.is_under p q && negb (bool_decide (q = p)).

(** The entries below [p], at any depth. *)
Definition below (s : fs) (p : path) : fs :=
  filter (fun kv => strictly_under p kv.1 = true) s.

(** [p.rmdir()]: [None] (an [OSError]) unless [p] is an empty
    directory other than the root. *)
Definition rmdir (s : fs) (p : path) : option fs :=
  match s !! p with
  | Some Dir => if bool_decide (below s p = ∅) then Some (delete p s) else None
  | _ => None
  end.

(** [shutil.copy2(src, dst)]: into [dst] when it is a directory. *)
Definition copy2 (s : fs) (src dst : path) : result fs :=
  let dst' := if is_dir s dst then dst ++ [List.last src ""] else dst in
  match node_at s src with
  | Some (File c) =>
      if bool_decide (src = dst') then Raise Other else write_text s dst' c
  | _ => Raise Other
  end.

(** [shutil.copytree(src, dst)]: [dst] must not exist; it is made with
    its parents and receives a copy of all that is below [src]. *)
Definition copytree (s : fs) (src dst : path) : result fs :=
  if exists_ s dst then Raise Other
  else
    s1 ← mkdir_p s dst;
    Ok (map_fold
          (fun q n acc =>
             if strictly_under src q
             then <[dst ++ drop (length src) q := n]> acc else acc)
          s1 s).

(** [p.iterdir()] *)
Definition iterdir (s : fs) (p : path) : list path :=
  List.filter (fun q => bool_decide (Path.parent q = p)) (map_to_list (below s p)).*1.

(** [list(os.scandir(p))]: the entries of the directory [p], each with
    what [entry.is_dir()] answers, which is what the entry was when the
    directory was read; an [OSError] when [p] is no directory. *)
Definition scandir (s : fs) (p : path) : result (list (path * bool)) :=
  if is_dir s p then Ok ((fun q => (q, is_dir s q)) <$> iterdir s p) else Raise Other.

End FS.

(** ** Configuration and host *)

Record Valves := {
  storage_base_path : string;
  quota_per_user_mb : Z;
  max_file_size_mb : Z;
  lock_max_age_hours : Z;
  exec_timeout_default : Z;
  exec_timeout_max : Z
}.

Definition default_valves : Valves := {|
  storage_base_path := "/app/backend/data/user_files/users";
  quota_per_user_mb := 1000;
  max_file_size_mb := 300;
  lock_max_age_hours := 24;
  exec_timeout_default := 30;
  exec_timeout_max := 300
|}.

(** What [datetime.fromisoformat] makes of a string: an instant (in
    microseconds since the epoch) when the string carries an offset, a
    naive date-time, or a [ValueError]. *)
Inductive isotime :=
| Aware (t : Z)
| Naive
| NotIso.

(** How [subprocess.run] ends. *)
Inductive run_result :=
| Completed (returncode : Z) (stdout stderr : string)
| TimeoutExpired
| FileNotFoundError
| OtherError.

Class Host := {
  (** [json.loads(text)]; [None] is [JSONDecodeError] *)
  json_loads : string -> option json;
  (** [json.dumps(value, indent=2)] *)
  json_dumps : json -> string;
  (** [instant.isoformat()] of an instant in UTC *)
  isoformat : Z -> string;
  fromisoformat : string -> isotime;
  (** [subprocess.run(argv, cwd=cwd, timeout=timeout)] and what it does
      to the file system *)
  subprocess_run : list string -> path -> option Z -> fs -> run_result * fs
}.

(** ** Command tables *)

Definition WHITELIST_READONLY : gset string := list_to_set [
  "cat"; "head"; "tail"; "less"; "more"; "nl"; "wc"; "stat"; "file"; "du"; "tac";
  "ls"; "tree"; "find";
  "grep"; "egrep"; "fgrep"; "rg"; "awk"; "sed";
  "sort"; "uniq"; "cut"; "paste"; "tr"; "fold"; "fmt"; "column"; "rev"; "shuf";
  "expand"; "unexpand"; "pr";
  "join";
  "diff"; "diff3"; "cmp"; "comm";
  "tar"; "unzip"; "zipinfo"; "7z";
  "zcat"; "bzcat"; "xzcat";
  "md5sum"; "sha1sum"; "sha256sum"; "sha512sum"; "b2sum"; "cksum";
  "base32"; "base64"; "basenc";
  "strings"; "od"; "hexdump"; "xxd";
  "jq"; "xmllint"; "yq";
  "iconv";
  "bc"; "dc"; "expr"; "factor"; "numfmt";
  "basename"; "dirname"; "realpath";
  "echo"; "printf";
  "ffprobe"; "identify"; "exiftool";
  "sqlite3" ].

Definition WHITELIST_READWRITE : gset string := WHITELIST_READONLY ∪ list_to_set [
  "df"; "locate"; "which"; "whereis";
  "split"; "csplit";
  "sdiff"; "patch"; "colordiff";
  "zip"; "7za";
  "gzip"; "gunzip"; "bzip2"; "bunzip2"; "xz"; "unxz"; "lz4"; "zstd";
  "sum";
  "uuencode"; "uudecode";
  "touch"; "mkdir"; "rm"; "rmdir"; "mv"; "cp"; "ln"; "truncate"; "mktemp";
  "install"; "shred"; "rename";
  "chmod";
  "pandoc";
  "dos2unix"; "unix2dos"; "recode";
  "seq";
  "date"; "cal";
  "readlink"; "pathchk"; "pwd";
  "uname"; "nproc"; "printenv"; "env";
  "timeout"; "sleep";
  "yes"; "tee"; "xargs"; "envsubst"; "gettext"; "tsort"; "true"; "false";
  "ffmpeg"; "magick"; "convert";
  "git" ].

Definition GIT_WHITELIST_READ : gset string := list_to_set [
  "status"; "log"; "show"; "diff"; "branch"; "tag"; "blame"; "ls-files";
  "ls-tree"; "shortlog"; "reflog"; "describe"; "rev-parse"; "rev-list"; "cat-file" ].

Definition GIT_WHITELIST_WRITE : gset string := list_to_set [
  "add"; "commit"; "reset"; "restore"; "checkout"; "rm"; "mv"; "revert";
  "cherry-pick"; "stash"; "clean" ].

Definition GIT_BLACKLIST : gset string := list_to_set [
  "push"; "pull"; "fetch"; "clone"; "remote"; "gc"; "prune"; "filter-branch" ].

Definition BLACKLIST_COMMANDS : gset string := list_to_set [
  "bash"; "sh"; "zsh"; "fish"; "dash"; "csh"; "tcsh"; "ksh";
  "python"; "python3"; "perl"; "ruby"; "node"; "php"; "lua";
  "exec"; "eval"; "source";
  "nohup"; "disown"; "setsid"; "screen"; "tmux"; "at"; "batch"; "crontab";
  "sudo"; "su"; "doas"; "chown"; "chgrp";
  "wget"; "curl"; "fetch"; "ssh"; "scp"; "sftp"; "rsync";
  "nc"; "netcat"; "ncat"; "telnet"; "ftp"; "ping"; "traceroute";
  "dd"; "mount"; "umount"; "kill"; "killall"; "pkill";
  "reboot"; "shutdown"; "halt"; "poweroff";
  "systemctl"; "service"; "mkfs"; "fdisk"; "parted";
  "iptables"; "firewall-cmd" ].

(** ** The pattern of dangerous arguments *)

Module Re.

(** One character of a pattern: a literal, a class [[...]], or [\s]. *)
Inductive atom :=
| Lit (c : ascii)
| Class (cs : list ascii)
| Space.

(** [\s] on a [str] pattern, for code points below 256 *)
Definition is_space (c : ascii) : bool :=
  let n := N_of_ascii c in
  ((9 <=? n) && (n <=? 13) || (28 <=? n) && (n <=? 32)
   || (n =? 133) || (n =? 160))%N.

Definition atom_match (a : atom) (c : ascii) : bool :=
  match a with
  | Lit x => Ascii.eqb x c
  | Class cs => existsb (Ascii.eqb c) cs
  | Space => is_space c
  end.

(** A sequence of atoms matches at the start of [s]. *)
Fixpoint seq_match (r : list atom) (s : string) : bool :=
  match r, s with
  | [], _ => true
  | a :: r', String c s' => atom_match a c && seq_match r' s'
  | _ :: _, EmptyString => false
  end.

(** An alternation of sequences. *)
Definition regex := list (list atom).

Definition match_here (r : regex) (s : string) : bool :=
  existsb (fun alt => seq_match alt s) r.

(** [r.search(s)] is not [None] *)
Fixpoint search (r : regex) (s : string) : bool :=
  match_here r s ||
  match s with
  | String _ s' => search r s'
  | EmptyString => false
  end.

End Re.

(** [[;&|`$\n\r]|&&|\|\||>>|<<|>\s|<\s|\$\(|\$\{] *)
Definition DANGEROUS_ARGS_PATTERN : Re.regex :=
  [ [Re.Class [";"; "&"; "|"; "`"; "$"; "010"; "013"]%char];
    [Re.Lit "&"; Re.Lit "&"];
    [Re.Lit "|"; Re.Lit "|"];
    [Re.Lit ">"; Re.Lit ">"];
    [Re.Lit "<"; Re.Lit "<"];
    [Re.Lit ">"; Re.Space];
    [Re.Lit "<"; Re.Space];
    [Re.Lit "$"; Re.Lit "("];
    [Re.Lit "$"; Re.Lit "{"] ].

(** ** Operations on the file system, with exceptions

    A computation takes the file system and gives a value or an exception
    together with the file system it leaves: what was written before an
    exception stays written. *)

Definition M (A : Type) : Type := fs -> result A * fs.

#[global] Instance M_ret : MRet M := fun A a s => (Ok a, s).

#[global] Instance M_bind : MBind M := fun A B k m s =>
  match m s with
  | (Ok a, s') => k a s'
  | (Raise e, s') => (Raise e, s')
  end.

(** A check that reads the file system. *)
Definition reading {A : Type} (f : fs -> result A) : M A := fun s => (f s, s).

(** A step that changes it, or fails and leaves it. *)
Definition updating (f : fs -> result fs) : M unit := fun s =>
  match f s with
  | Ok s' => (Ok tt, s')
  | Raise e => (Raise e, s)
  end.

Definition throw {A : Type} (c : error_code) (d : list (string * json)) : M A :=
  fun s => (Raise (Storage (mkError c d)), s).

(** A step that cannot fail. *)
Definition modifying (f : fs -> fs) : M unit := fun s => (Ok tt, f s).

(** Any exception other than a [StorageError]. *)
Definition fail_other {A : Type} : M A := fun s => (Raise Other, s).

(** [if test: ... else: ...] on the state of the file system *)
Definition branch {A : Type} (test : fs -> bool) (m1 m2 : M A) : M A := fun s =>
  if test s then m1 s else m2 s.

(** A check that does not look at the file system. *)
Definition check {A : Type} (r : result A) : M A := fun s => (r, s).

(** [for x in xs: ...] with the value the loop builds *)
Fixpoint for_each {A B : Type} (xs : list A) (body : A -> B -> M B) (acc : B) : M B :=
  match xs with
  | [] => mret acc
  | x :: rest => acc' ← body x acc; for_each rest body acc'
  end.

(** [if p.exists(): ...] *)
Definition when_exists (p : path) (m : M unit) : M unit :=
  branch (fun s => FS.exists_ s p) m (mret tt).

(** The scan of [for p in root.rglob(pattern): ...] from the directory
    [parent_path] on.  It is lazy: the entries of [parent_path] are read
    and the body of the loop runs on each one whose name matches; then
    [parent_path] is read again, and the scan goes into each directory
    found there, in turn.  A directory that the body has removed by the
    time the scan reads it ends the loop with [FileNotFoundError].  No
    path is met twice, the file system having no symbolic links.  [fuel]
    bounds the depth of the scan: [None] is a scan that was cut short. *)
Fixpoint scan {B : Type} (fuel : nat) (matches : string -> bool) (body : path -> B -> M B)
    (parent_path : path) (acc : B) : M (option B) :=
  match fuel with
  | O => mret None
  | S fuel =>
      entries ← reading (fun s => FS.scandir s parent_path);
      acc ← for_each (List.filter (fun entry => matches (List.last entry.1 "")) entries)
              (fun entry => body entry.1) acc;
      entries ← reading (fun s => FS.scandir s parent_path);
      for_each (List.filter snd entries)
        (fun entry acc =>
           match acc with
           | Some acc => scan fuel matches body entry.1 acc
           | None => mret None
           end)
        (Some acc)
  end.

(** [for p in root.rglob(pattern): ...] with the value the loop builds:
    no turn when [root] is no directory.  The scan goes one level down
    for each directory on its way; with a body that adds no entry, as
    those of [store_maintenance], it goes no deeper than the file system
    has entries and is not cut short. *)
Definition rglob_each {B : Type} (root : path) (matches : string -> bool)
    (body : path -> B -> M B) (acc : B) : M B :=
  branch (fun s => FS.is_dir s root)
    (found ← (fun s => scan (S (size s)) matches body root acc s);
     match found with
     | Some acc => mret acc
     | None => fail_other
     end)
    (mret acc).

(** The data of a successful response. *)
Inductive payload :=
| NoData
| Bytes (n : nat)
| Ran (success : bool) (stdout stderr : string) (returncode : Z)
| Cleaned (expired_locks corrupted_locks orphan_editzones : list string).

(** What a public operation returns: [_format_response(True, ...)], the
    dictionary of a [StorageError], or [_format_response(False, message)]. *)
Inductive response :=
| Success (data : payload)
| Error (e : StorageError)
| Failure.

(** The [try ... except StorageError ... except Exception] of every
    public operation. *)
Definition respond (m : M payload) (s : fs) : response * fs :=
  match m s with
  | (Ok d, s') => (Success d, s')
  | (Raise (Storage e), s') => (Error e, s')
  | (Raise Other, s') => (Failure, s')
  end.

(** ** The helpers of [Tools] *)

(** [len(content.encode('utf-8'))] *)
Fixpoint utf8_length (s : string) : Z :=
  match s with
  | EmptyString => 0
  | String c s' => (if (N_of_ascii c <? 128)%N then 1 else 2) + utf8_length s'
  end.

(** [sorted(names)] *)
Definition sorted (names : gset string) : list string :=
  merge_sort String.le (elements names).

(** [a == s] for a value [a] out of a parsed dictionary and a [str] *)
Definition is_str (a : option json) (s : string) : bool :=
  match a with
  | Some (JStr t) => Str.eqb t s
  | _ => false
  end.

(** [bool(a)] *)
Definition truthy (a : json) : bool :=
  match a with
  | JNull => false
  | JBool b => b
  | JNum n => negb (n =? 0)
  | JStr s => negb (Str.eqb s "")
  | JArr items => match items with [] => false | _ => true end
  | JObj fields => match fields with [] => false | _ => true end
  end.

(** The prefixes of a path, shortest first. *)
Fixpoint inits (p : path) : list path :=
  match p with
  | [] => [[]]
  | x :: p' => [] :: List.map (cons x) (inits p')
  end.

(** [p.parent], [p.parent.parent], ... up to the root *)
Definition ancestors (p : path) : list path := tail (rev (inits p)).

Section Tools.

Context {host : Host} (valves : Valves).

(** [__user__.get("id", "anonymous")] and
    [__metadata__.get("chat_id", "unknown")]: the arguments [user] and
    [meta] of the operations are the two entries, when present. *)
Definition user_id_of (user : option string) : string := default "anonymous" user.

Definition _get_user_root (user : option string) : path :=
  Path.join (Path.segments (storage_base_path valves)) (user_id_of user).

Definition _get_conv_id (meta : option string) : string := default "unknown" meta.

(** The two calls of [resolve] come before the [try]: what they raise
    is not turned into a [StorageError]. *)
Definition _resolve_chroot_path (base : path) (relative_path : string) : result path :=
  let relative_path := Str.lstrip "/" relative_path in
  target ← Path.resolve_joined base relative_path;
  let base_resolved := Path.resolve base in
  if Path.is_under base_resolved target then Ok target
  else raise PATH_ESCAPE
         [("path", JStr relative_path); ("chroot", JStr (Path.to_string_abs base))].

(** The loop of [_validate_relative_path]: [parts] is the list being
    built, [parts.pop()] drops its last element. *)
Fixpoint resolve_parts (path : string) (parts todo : list string) : result (list string) :=
  match todo with
  | [] => Ok parts
  | part :: rest =>
      if Str.eqb part ".." then
        match parts with
        | [] => raise PATH_ESCAPE [("path", JStr path)]
        | _ => resolve_parts path (removelast parts) rest
        end
      else if negb (Str.eqb part "") && negb (Str.eqb part ".") then
        resolve_parts path (parts ++ [part]) rest
      else resolve_parts path parts rest
  end.

Definition _validate_relative_path (path : string) : result string :=
  let path := Str.lstrip "/" path in
  if Str.startswith "/" path then raise PATH_ESCAPE [("path", JStr path)]
  else
    parts ← resolve_parts path [] (Str.split "/" path);
    Ok (match parts with [] => "" | _ => Str.join "/" parts end).

Definition _validate_git_command (args : list string) : result unit :=
  match args with
  | [] => raise ARGUMENT_FORBIDDEN []
  | subcmd :: _ =>
      if bool_decide (subcmd ∈ GIT_BLACKLIST) then
        raise COMMAND_FORBIDDEN [("subcommand", JStr subcmd)]
      else if negb (bool_decide (subcmd ∈ GIT_WHITELIST_READ))
              && negb (bool_decide (subcmd ∈ GIT_WHITELIST_WRITE)) then
        raise COMMAND_FORBIDDEN
          [("subcommand", JStr subcmd);
           ("allowed_read", JArr (JStr <$> sorted GIT_WHITELIST_READ));
           ("allowed_write", JArr (JStr <$> sorted GIT_WHITELIST_WRITE))]
      else Ok tt
  end.

(** [args] is [None] when the caller leaves it out. *)
Definition _validate_command (cmd : string) (whitelist : gset string)
    (args : option (list string)) : result unit :=
  if bool_decide (cmd ∈ BLACKLIST_COMMANDS) then
    raise COMMAND_FORBIDDEN [("command", JStr cmd)]
  else if negb (bool_decide (cmd ∈ whitelist)) then
    raise COMMAND_FORBIDDEN
      [("command", JStr cmd); ("allowed", JArr (JStr <$> take 20 (sorted whitelist)))]
  else
    match args with
    | Some args => if Str.eqb cmd "git" then _validate_git_command args else Ok tt
    | None => Ok tt
    end.

Fixpoint _validate_args (args : list string) (readonly : bool) : result unit :=
  match args with
  | [] => Ok tt
  | arg_str :: rest =>
      if Re.search DANGEROUS_ARGS_PATTERN arg_str then
        raise ARGUMENT_FORBIDDEN [("argument", JStr arg_str)]
      else if readonly && Str.eqb arg_str "-i" then
        raise ARGUMENT_FORBIDDEN [("argument", JStr arg_str)]
      else _validate_args rest readonly
  end.

(** The [try] block of [_validate_path_args]: [resolve] and
    [relative_to] raise no [ValueError]. *)
Definition stays_inside (chroot : path) (arg_str : string) : bool :=
  match Path.resolve_joined chroot arg_str with
  | Ok target => Path.is_under (Path.resolve chroot) target
  | Raise _ => false
  end.

Fixpoint check_path_args (args : list string) (chroot : path) : result unit :=
  match args with
  | [] => Ok tt
  | arg_str :: rest =>
      if Str.startswith "/" arg_str then
        raise PATH_ESCAPE [("path", JStr arg_str)]
      else if Str.contains ".." arg_str && negb (stays_inside chroot arg_str) then
        raise PATH_ESCAPE
          [("path", JStr arg_str); ("chroot", JStr (Path.to_string_abs chroot))]
      else check_path_args rest chroot
  end.

Definition _validate_path_args (args : list string) (chroot : path) : result (list string) :=
  check_path_args args chroot;; Ok args.

Definition _validate_content_size (content : string) : result unit :=
  let max_bytes := max_file_size_mb valves * 1024 * 1024 in
  if max_bytes <? utf8_length content then
    raise QUOTA_EXCEEDED [("max_mb", JNum (max_file_size_mb valves))]
  else Ok tt.

Definition _clamp_timeout (timeout : Z) : Z :=
  Z.max 1 (Z.min timeout (exec_timeout_max valves)).

Definition _exec_command (cmd : string) (args : list string) (cwd : path)
    (timeout : Z) : M payload := fun s =>
  match subprocess_run (cmd :: args) cwd (Some timeout) s with
  | (Completed returncode stdout stderr, s') =>
      (Ok (Ran (returncode =? 0) stdout stderr returncode), s')
  | (TimeoutExpired, s') =>
      (raise TIMEOUT [("command", JStr cmd); ("timeout", JNum timeout)], s')
  | (FileNotFoundError, s') =>
      (raise COMMAND_NOT_FOUND [("command", JStr cmd)], s')
  | (OtherError, s') =>
      (raise EXEC_ERROR [("command", JStr cmd)], s')
  end.

Definition _ensure_dir (p : path) : M unit :=
  updating (fun s => FS.mkdir_p s p).

(** The loop of [_rm_with_empty_parents] over the parents of the file. *)
Fixpoint rm_empty_parents (parents : list path) (stop_at : path) (s : fs) : fs :=
  match parents with
  | [] => s
  | parent :: up =>
      if bool_decide (Path.resolve parent = Path.resolve stop_at) then s
      else match FS.rmdir s parent with
           | Some s' => rm_empty_parents up stop_at s'
           | None => s
           end
  end.

Definition _rm_with_empty_parents (filepath stop_at : path) : M unit :=
  when_exists filepath
    (branch (fun s => FS.is_dir s filepath)
       (modifying (fun s => FS.rmtree s filepath))
       (updating (fun s => FS.unlink s filepath)));;
  modifying (rm_empty_parents (ancestors filepath) stop_at).

Definition _get_lock_path (zone_root : path) (relative_path : string) : path :=
  Path.join (Path.join zone_root "locks") (relative_path +:+ ".lock").

Definition _get_editzone_path (zone_root : path) (conv_id relative_path : string) : path :=
  Path.join (Path.join (Path.join zone_root "editzone") conv_id) relative_path.

Definition lock_value (lock_data : list (string * json)) (key : string) : json :=
  default JNull (dict_get lock_data key).

Definition _check_lock (lock_path : path) (conv_id : string) : M unit :=
  when_exists lock_path
    (text ← reading (fun s => FS.read_text s lock_path);
     match json_loads text with
     | None => mret tt
     | Some (JObj lock_data) =>
         if negb (is_str (dict_get lock_data "conv_id") conv_id) then
           throw FILE_LOCKED
             [("locked_by", lock_value lock_data "conv_id");
              ("locked_since", lock_value lock_data "locked_at");
              ("path", lock_value lock_data "path")]
         else mret tt
     | Some _ => fail_other
     end).

(** [now] is what [datetime.now(timezone.utc)] returns. *)
Definition _create_lock (now : Z) (lock_path : path) (conv_id user_id path : string) : M unit :=
  _ensure_dir (Path.parent lock_path);;
  updating (fun s => FS.write_text s lock_path
    (json_dumps (JObj [("conv_id", JStr conv_id); ("user_id", JStr user_id);
                       ("locked_at", JStr (isoformat now)); ("path", JStr path)]))).

(** [subprocess.run(argv, cwd=cwd, capture_output=True)], the result
    dropped: only a missing program or another exception is seen. *)
Definition run_quietly (argv : list string) (cwd : path) : M unit := fun s =>
  match subprocess_run argv cwd None s with
  | (Completed _ _ _, s') => (Ok tt, s')
  | (_, s') => (Raise Other, s')
  end.

Definition _init_git_repo (repo_path : path) : M unit :=
  branch (fun s => FS.exists_ s (Path.join repo_path ".git"))
    (mret tt)
    (_ensure_dir repo_path;;
     run_quietly ["git"; "init"] repo_path;;
     run_quietly ["git"; "config"; "user.email"; "storage@openwebui.local"] repo_path;;
     run_quietly ["git"; "config"; "user.name"; "User Storage"] repo_path).

Definition _git_commit (repo_path : path) (message : string) : M unit :=
  run_quietly ["git"; "add"; "-A"] repo_path;;
  run_quietly ["git"; "commit"; "-m"; message; "--allow-empty-message"] repo_path.

End Tools.

(** ** The operations *)

Section Operations.

Context {host : Host} (valves : Valves).

Abbreviation user_root_of user := (_get_user_root valves user).

(** *** Command execution *)

Definition store_uploads_exec (cmd : string) (args : list string) (timeout : Z)
    (user meta : option string) : fs -> response * fs :=
  let user_root := user_root_of user in
  let conv_id := _get_conv_id meta in
  let chroot := Path.join (Path.join user_root "Uploads") conv_id in
  fun s =>
    if negb (FS.exists_ s chroot) then (Failure, s)
    else respond
      (check (_validate_command cmd WHITELIST_READONLY None);;
       check (_validate_args args true);;
       safe_args ← check (_validate_path_args args chroot);
       let timeout := _clamp_timeout valves timeout in
       _exec_command cmd safe_args chroot timeout) s.

Definition store_storage_exec (cmd : string) (args : list string) (timeout : Z)
    (user meta : option string) : fs -> response * fs :=
  let user_root := user_root_of user in
  let chroot := Path.join (Path.join user_root "Storage") "data" in
  respond
    (_ensure_dir chroot;;
     check (_validate_command cmd WHITELIST_READWRITE (Some args));;
     check (_validate_args args false);;
     safe_args ← check (_validate_path_args args chroot);
     let timeout := _clamp_timeout valves timeout in
     _exec_command cmd safe_args chroot timeout).

Definition store_documents_exec (cmd : string) (args : list string) (timeout : Z)
    (user meta : option string) : fs -> response * fs :=
  let user_root := user_root_of user in
  let chroot := Path.join (Path.join user_root "Documents") "data" in
  respond
    (_init_git_repo chroot;;
     check (_validate_command cmd WHITELIST_READWRITE (Some args));;
     check (_validate_args args false);;
     safe_args ← check (_validate_path_args args chroot);
     let timeout := _clamp_timeout valves timeout in
     _exec_command cmd safe_args chroot timeout).

(** [store_storage_edit_exec] and [store_documents_edit_exec] differ in
    the name of the zone only. *)
Definition edit_exec (zone_name : string) (cmd : string) (args : list string)
    (timeout : Z) (user meta : option string) : fs -> response * fs :=
  let user_root := user_root_of user in
  let conv_id := _get_conv_id meta in
  let chroot := Path.join (Path.join (Path.join user_root zone_name) "editzone") conv_id in
  respond
    (branch (fun s => negb (FS.exists_ s chroot)) (throw ZONE_FORBIDDEN []) (mret tt);;
     check (_validate_command cmd WHITELIST_READWRITE (Some args));;
     check (_validate_args args false);;
     safe_args ← check (_validate_path_args args chroot);
     let timeout := _clamp_timeout valves timeout in
     _exec_command cmd safe_args chroot timeout).

Definition store_storage_edit_exec (cmd : string) (args : list string) (timeout : Z)
    (user meta : option string) : fs -> response * fs :=
  edit_exec "Storage" cmd args timeout user meta.
Definition store_documents_edit_exec (cmd : string) (args : list string) (timeout : Z)
    (user meta : option string) : fs -> response * fs :=
  edit_exec "Documents" cmd args timeout user meta.

(** *** Writing *)

(** [if append and target.exists(): ... else: target.write_text(content)] *)
Definition write_or_append (target : path) (content : string) (append : bool) : M unit :=
  branch (fun s => append && FS.exists_ s target)
    (updating (fun s => FS.append_text s target content))
    (updating (fun s => FS.write_text s target content)).

Definition store_storage_write (path content : string) (append : bool)
    (user meta : option string) : fs -> response * fs :=
  let user_root := user_root_of user in
  let chroot := Path.join (Path.join user_root "Storage") "data" in
  respond
    (_ensure_dir chroot;;
     check (_validate_content_size valves content);;
     target ← check (_resolve_chroot_path chroot path);
     _ensure_dir (Path.parent target);;
     write_or_append target content append;;
     mret (Bytes (String.length content))).

Definition store_documents_write (path content : string) (append : bool)
    (message : string) (user meta : option string) : fs -> response * fs :=
  let user_root := user_root_of user in
  let chroot := Path.join (Path.join user_root "Documents") "data" in
  respond
    (_init_git_repo chroot;;
     check (_validate_content_size valves content);;
     target ← check (_resolve_chroot_path chroot path);
     _ensure_dir (Path.parent target);;
     is_new ← reading (fun s => Ok (negb (FS.exists_ s target)));
     write_or_append target content append;;
     let message :=
       if Str.eqb message "" then
         (if is_new : bool then "Created" else if append then "Appended to" else "Modified")
         +:+ " " +:+ path
       else message in
     _git_commit chroot message;;
     mret NoData).

Definition store_storage_delete (path : string) (user meta : option string)
    : fs -> response * fs :=
  let user_root := user_root_of user in
  let chroot := Path.join (Path.join user_root "Storage") "data" in
  respond
    (target ← check (_resolve_chroot_path chroot path);
     branch (fun s => negb (FS.exists_ s target)) (throw FILE_NOT_FOUND []) (mret tt);;
     branch (fun s => FS.is_dir s target)
       (modifying (fun s => FS.rmtree s target))
       (updating (fun s => FS.unlink s target));;
     mret NoData).

(** [store_storage_edit_write] and [store_documents_edit_write] *)
Definition edit_write (zone_name : string) (path content : string) (append : bool)
    (user meta : option string) : fs -> response * fs :=
  let user_root := user_root_of user in
  let conv_id := _get_conv_id meta in
  let chroot := Path.join (Path.join (Path.join user_root zone_name) "editzone") conv_id in
  respond
    (branch (fun s => negb (FS.exists_ s chroot)) (throw ZONE_FORBIDDEN []) (mret tt);;
     check (_validate_content_size valves content);;
     target ← check (_resolve_chroot_path chroot path);
     _ensure_dir (Path.parent target);;
     write_or_append target content append;;
     mret NoData).

Definition store_storage_edit_write (path content : string) (append : bool)
    (user meta : option string) : fs -> response * fs :=
  edit_write "Storage" path content append user meta.
Definition store_documents_edit_write (path content : string) (append : bool)
    (user meta : option string) : fs -> response * fs :=
  edit_write "Documents" path content append user meta.

(** *** Safe editing *)

(** [store_storage_edit_open] and [store_documents_edit_open]; [now] is
    the time of the call. *)
Definition edit_open (zone_name : string) (now : Z) (path : string)
    (user meta : option string) : fs -> response * fs :=
  let user_root := user_root_of user in
  let user_id := user_id_of user in
  let conv_id := _get_conv_id meta in
  respond
    (path ← check (_validate_relative_path path);
     let zone_root := Path.join user_root zone_name in
     let data_path := Path.join (Path.join zone_root "data") path in
     let lock_path := _get_lock_path zone_root path in
     let edit_path := _get_editzone_path zone_root conv_id path in
     branch (fun s => negb (FS.exists_ s data_path)) (throw FILE_NOT_FOUND []) (mret tt);;
     _check_lock lock_path conv_id;;
     _create_lock now lock_path conv_id user_id path;;
     _ensure_dir (Path.parent edit_path);;
     branch (fun s => FS.is_dir s data_path)
       (updating (fun s => FS.copytree s data_path edit_path))
       (updating (fun s => FS.copy2 s data_path edit_path));;
     mret NoData).

Definition store_storage_edit_open (now : Z) (path : string)
    (user meta : option string) : fs -> response * fs :=
  edit_open "Storage" now path user meta.
Definition store_documents_edit_open (now : Z) (path : string)
    (user meta : option string) : fs -> response * fs :=
  edit_open "Documents" now path user meta.

(** [store_storage_edit_cancel] and [store_documents_edit_cancel] *)
Definition edit_cancel (zone_name : string) (path : string)
    (user meta : option string) : fs -> response * fs :=
  let user_root := user_root_of user in
  let conv_id := _get_conv_id meta in
  respond
    (path ← check (_validate_relative_path path);
     let zone_root := Path.join user_root zone_name in
     let lock_path := _get_lock_path zone_root path in
     let edit_path := _get_editzone_path zone_root conv_id path in
     when_exists edit_path
       (_rm_with_empty_parents edit_path (Path.join zone_root "editzone"));;
     when_exists lock_path
       (_rm_with_empty_parents lock_path (Path.join zone_root "locks"));;
     mret NoData).

Definition store_storage_edit_cancel (path : string)
    (user meta : option string) : fs -> response * fs :=
  edit_cancel "Storage" path user meta.
Definition store_documents_edit_cancel (path : string)
    (user meta : option string) : fs -> response * fs :=
  edit_cancel "Documents" path user meta.

(** *** Maintenance *)

(** The three lists of the report. *)
Record cleaned := {
  expired_locks : list string;
  corrupted_locks : list string;
  orphan_editzones : list string
}.

Definition add_expired (c : cleaned) (x : string) : cleaned :=
  {| expired_locks := expired_locks c ++ [x];
     corrupted_locks := corrupted_locks c;
     orphan_editzones := orphan_editzones c |}.
Definition add_corrupted (c : cleaned) (x : string) : cleaned :=
  {| expired_locks := expired_locks c;
     corrupted_locks := corrupted_locks c ++ [x];
     orphan_editzones := orphan_editzones c |}.
Definition add_orphan (c : cleaned) (x : string) : cleaned :=
  {| expired_locks := expired_locks c;
     corrupted_locks := corrupted_locks c;
     orphan_editzones := orphan_editzones c ++ [x] |}.

(** [p.relative_to(base)], for a [p] found below [base] *)
Definition relative_to (base p : path) : path := drop (length base) p.

(** [age_hours > max_age_hours] for a lock taken at [locked_at], in
    microseconds and without rounding. *)
Definition expired (now locked_at : Z) : bool :=
  lock_max_age_hours valves * 3600 * 1000000 <? now - locked_at.

(** The body of the loop over the lock files: the [try] block with its
    handlers.  A [JSONDecodeError] removes the file; a [ValueError] or a
    [TypeError] leaves it; anything else ends the operation. *)
Definition sweep_lock (now : Z) (zone_name : string) (locks_dir editzone_dir : path)
    (lock_file : path) (c : cleaned) : M cleaned :=
  text ← reading (fun s => FS.read_text s lock_file);
  match json_loads text with
  | None =>
      let rel_path := relative_to locks_dir lock_file in
      _rm_with_empty_parents lock_file locks_dir;;
      mret (add_corrupted c (zone_name +:+ "/" +:+ Path.to_string rel_path))
  | Some (JObj lock_data) =>
      let locked_at_str := default (JStr "") (dict_get lock_data "locked_at") in
      if truthy locked_at_str then
        match locked_at_str with
        | JStr str =>
            match fromisoformat (Str.replace "Z" "+00:00" str) with
            | Aware locked_at =>
                if expired now locked_at then
                  let rel_path := relative_to locks_dir lock_file in
                  let path_str := Str.drop_last 5 (Path.to_string rel_path) in
                  let conv_id := default (JStr "") (dict_get lock_data "conv_id") in
                  if truthy conv_id then
                    match conv_id with
                    | JStr conv_id =>
                        let edit_path :=
                          Path.join (Path.join editzone_dir conv_id) path_str in
                        when_exists edit_path
                          (_rm_with_empty_parents edit_path editzone_dir);;
                        _rm_with_empty_parents lock_file locks_dir;;
                        mret (add_expired c (zone_name +:+ "/" +:+ path_str))
                    | _ => mret c
                    end
                  else
                    _rm_with_empty_parents lock_file locks_dir;;
                    mret (add_expired c (zone_name +:+ "/" +:+ path_str))
                else mret c
            | Naive => mret c
            | NotIso => mret c
            end
        | _ => fail_other
        end
      else mret c
  | Some _ => fail_other
  end.

(** The body of the loop over the files of one conversation's edit zone. *)
Definition sweep_item (zone_name : string) (locks_dir editzone_dir conv_dir : path)
    (item : path) (c : cleaned) : M cleaned :=
  branch (fun s => FS.is_file s item)
    (let rel_path := relative_to conv_dir item in
     let lock_path := Path.join locks_dir (Path.to_string rel_path +:+ ".lock") in
     branch (fun s => negb (FS.exists_ s lock_path))
       (_rm_with_empty_parents item editzone_dir;;
        mret (add_orphan c
                (zone_name +:+ "/editzone/" +:+ List.last conv_dir "" +:+ "/"
                 +:+ Path.to_string rel_path)))
       (mret c))
    (mret c).

Definition sweep_conv (zone_name : string) (locks_dir editzone_dir : path)
    (conv_dir : path) (c : cleaned) : M cleaned :=
  branch (fun s => FS.is_dir s conv_dir)
    (rglob_each conv_dir (fun _ => true)
       (sweep_item zone_name locks_dir editzone_dir conv_dir) c)
    (mret c).

Definition sweep_zone (now : Z) (user_root : path) (zone_name : string)
    (c : cleaned) : M cleaned :=
  let zone_root := Path.join user_root zone_name in
  let locks_dir := Path.join zone_root "locks" in
  let editzone_dir := Path.join zone_root "editzone" in
  c ← branch (fun s => FS.exists_ s locks_dir)
        (rglob_each locks_dir (Str.endswith ".lock")
           (sweep_lock now zone_name locks_dir editzone_dir) c)
        (mret c);
  branch (fun s => FS.exists_ s editzone_dir)
    (branch (fun s => FS.is_dir s editzone_dir)
       (conv_dirs ← reading (fun s => Ok (FS.iterdir s editzone_dir));
        for_each conv_dirs (sweep_conv zone_name locks_dir editzone_dir) c)
       fail_other)
    (mret c).

(** [now] is the time of the call.  [iterdir] lists the directory when
    the loop starts and raises when the entry is no directory; [rglob]
    scans as the loop goes. *)
Definition store_maintenance (now : Z) (user meta : option string)
    : fs -> response * fs :=
  let user_root := user_root_of user in
  respond
    (c ← for_each ["Storage"; "Documents"] (sweep_zone now user_root)
           {| expired_locks := []; corrupted_locks := []; orphan_editzones := [] |};
     mret (Cleaned (expired_locks c) (corrupted_locks c) (orphan_editzones c))).

End Operations.

(** ** Further operations *)

(** [c.lower()] and [s.lower()], for code points below 256: the letters
    [A] to [Z] and the capital letters of Latin-1. *)
Definition lower_char (c : ascii) : ascii :=
  let n := N_of_ascii c in
  if ((65 <=? n) && (n <=? 90) || (192 <=? n) && (n <=? 222) && negb (n =? 215))%N
  then ascii_of_N (n + 32) else c.

Fixpoint lower (s : string) : string :=
  match s with
  | EmptyString => EmptyString
  | String c s' => String (lower_char c) (lower s')
  end.

Section FurtherOperations.

Context {host : Host} (valves : Valves).

(** *** Deleting *)

Definition store_uploads_delete (path : string) (user meta : option string)
    : fs -> response * fs :=
  let user_root := _get_user_root valves user in
  let conv_id := _get_conv_id meta in
  let chroot := Path.join (Path.join user_root "Uploads") conv_id in
  respond
    (target ← check (_resolve_chroot_path chroot path);
     branch (fun s => negb (FS.exists_ s target)) (throw FILE_NOT_FOUND []) (mret tt);;
     branch (fun s => FS.is_dir s target)
       (modifying (fun s => FS.rmtree s target))
       (updating (fun s => FS.unlink s target));;
     mret NoData).

(** [git rm] removes the path; the operation itself removes nothing. *)
Definition store_documents_delete (path message : string) (user meta : option string)
    : fs -> response * fs :=
  let user_root := _get_user_root valves user in
  let chroot := Path.join (Path.join user_root "Documents") "data" in
  respond
    (target ← check (_resolve_chroot_path chroot path);
     branch (fun s => negb (FS.exists_ s target)) (throw FILE_NOT_FOUND []) (mret tt);;
     run_quietly ["git"; "rm"; "-rf"; path] chroot;;
     let message := if Str.eqb message "" then "Suppression de " +:+ path else message in
     _git_commit chroot message;;
     mret NoData).

(** *** Saving an edit *)

Definition store_storage_edit_save (path : string) (user meta : option string)
    : fs -> response * fs :=
  let user_root := _get_user_root valves user in
  let conv_id := _get_conv_id meta in
  respond
    (path ← check (_validate_relative_path path);
     let zone_root := Path.join user_root "Storage" in
     let data_path := Path.join (Path.join zone_root "data") path in
     let lock_path := _get_lock_path zone_root path in
     let edit_path := _get_editzone_path zone_root conv_id path in
     branch (fun s => negb (FS.exists_ s edit_path)) (throw FILE_NOT_FOUND []) (mret tt);;
     _ensure_dir (Path.parent data_path);;
     when_exists data_path
       (branch (fun s => FS.is_dir s data_path)
          (modifying (fun s => FS.rmtree s data_path))
          (updating (fun s => FS.unlink s data_path)));;
     branch (fun s => FS.is_dir s edit_path)
       (updating (fun s => FS.copytree s edit_path data_path))
       (updating (fun s => FS.copy2 s edit_path data_path));;
     _rm_with_empty_parents edit_path (Path.join zone_root "editzone");;
     _rm_with_empty_parents lock_path (Path.join zone_root "locks");;
     mret NoData).

Definition store_documents_edit_save (path message : string) (user meta : option string)
    : fs -> response * fs :=
  let user_root := _get_user_root valves user in
  let conv_id := _get_conv_id meta in
  respond
    (path ← check (_validate_relative_path path);
     let zone_root := Path.join user_root "Documents" in
     let data_path := Path.join (Path.join zone_root "data") path in
     let lock_path := _get_lock_path zone_root path in
     let edit_path := _get_editzone_path zone_root conv_id path in
     branch (fun s => negb (FS.exists_ s edit_path)) (throw FILE_NOT_FOUND []) (mret tt);;
     _ensure_dir (Path.parent data_path);;
     when_exists data_path
       (branch (fun s => FS.is_dir s data_path)
          (modifying (fun s => FS.rmtree s data_path))
          (updating (fun s => FS.unlink s data_path)));;
     branch (fun s => FS.is_dir s edit_path)
       (updating (fun s => FS.copytree s edit_path data_path))
       (updating (fun s => FS.copy2 s edit_path data_path));;
     let message := if Str.eqb message "" then "Modified " +:+ path else message in
     _git_commit (Path.join zone_root "data") message;;
     _rm_with_empty_parents edit_path (Path.join zone_root "editzone");;
     _rm_with_empty_parents lock_path (Path.join zone_root "locks");;
     mret NoData).

(** *** Forcing a lock open *)

(** The body of the loop of [store_force_unlock] over the entries of the
    edit zone. *)
Definition unlock_conv (editzone_base conv_dir : path) (path : string) (_ : unit) : M unit :=
  branch (fun s => FS.is_dir s conv_dir)
    (let edit_path := Path.join conv_dir path in
     when_exists edit_path (_rm_with_empty_parents edit_path editzone_base))
    (mret tt).

(** [iterdir] of an entry that is no directory raises. *)
Definition store_force_unlock (path zone : string) (user meta : option string)
    : fs -> response * fs :=
  let user_root := _get_user_root valves user in
  respond
    (path ← check (_validate_relative_path path);
     check (if negb (Str.eqb (lower zone) "storage") && negb (Str.eqb (lower zone) "documents")
            then raise ZONE_FORBIDDEN [] else Ok tt);;
     let zone_name := if Str.eqb (lower zone) "storage" then "Storage" else "Documents" in
     let zone_root := Path.join user_root zone_name in
     let lock_path := _get_lock_path zone_root path in
     let editzone_base := Path.join zone_root "editzone" in
     when_exists editzone_base
       (branch (fun s => FS.is_dir s editzone_base)
          (conv_dirs ← reading (fun s => Ok (FS.iterdir s editzone_base));
           for_each conv_dirs (fun conv_dir => unlock_conv editzone_base conv_dir path) tt)
          fail_other);;
     when_exists lock_path (_rm_with_empty_parents lock_path (Path.join zone_root "locks"));;
     mret NoData).

(** *** From Uploads to Storage *)

Definition store_uploads_to_storage (src dest : string) (user meta : option string)
    : fs -> response * fs :=
  let user_root := _get_user_root valves user in
  let conv_id := _get_conv_id meta in
  let src_chroot := Path.join (Path.join user_root "Uploads") conv_id in
  let dest_chroot := Path.join (Path.join user_root "Storage") "data" in
  respond
    (source ← check (_resolve_chroot_path src_chroot src);
     target ← check (_resolve_chroot_path dest_chroot dest);
     branch (fun s => negb (FS.exists_ s source))
       (throw FILE_NOT_FOUND
          [("path", JStr src); ("uploads_dir", JStr (Path.to_string_abs src_chroot))])
       (mret tt);;
     _ensure_dir dest_chroot;;
     _ensure_dir (Path.parent target);;
     branch (fun s => FS.is_dir s source)
       (updating (fun s => FS.copytree s source target))
       (updating (fun s => FS.copy2 s source target));;
     mret NoData).

End FurtherOperations.

(** ** A host that computes

    [RefHost] runs the model on concrete inputs.  Its JSON codec reads and
    writes objects, arrays, strings without escapes, integers, [true],
    [false] and [null]; its timestamps are in the form
    [YYYY-MM-DDTHH:MM:SS[.ffffff][+HH:MM]] that [isoformat] writes; its
    [git init] makes the [.git] directory and its other programs leave the
    file system as it is.  Texts outside these forms are rejected. *)

Module RefHost.

(** *** Numbers in decimal *)

Definition digit_of (c : ascii) : option Z :=
  let n := Z.of_N (N_of_ascii c) in
  if (48 <=? n) && (n <=? 57) then Some (n - 48) else None.

Fixpoint digits_value (acc : Z) (s : string) : option Z :=
  match s with
  | EmptyString => Some acc
  | String c s' => d ← digit_of c; digits_value (10 * acc + d) s'
  end.

(** A non-empty run of digits *)
Definition number (s : string) : option Z :=
  match s with
  | EmptyString => None
  | _ => digits_value 0 s
  end.

Definition digit_char (d : Z) : ascii := ascii_of_N (Z.to_N (48 + d mod 10)).

(** [n] in [width] digits, with leading zeros *)
Fixpoint padded (width : nat) (n : Z) : string :=
  match width with
  | O => EmptyString
  | S w => padded w (n / 10) +:+ String (digit_char n) EmptyString
  end.

Fixpoint decimal_digits (fuel : nat) (n : Z) : string :=
  match fuel with
  | O => EmptyString
  | S f => if n <? 10 then String (digit_char n) EmptyString
           else decimal_digits f (n / 10) +:+ String (digit_char n) EmptyString
  end.

Definition decimal (n : Z) : string :=
  if n <? 0 then "-" +:+ decimal_digits (Z.to_nat (- n)) (- n)
  else decimal_digits (S (Z.to_nat n)) n.

(** *** Timestamps *)

Definition days_from_civil (y m d : Z) : Z :=
  let y := if m <=? 2 then y - 1 else y in
  let era := y / 400 in
  let yoe := y - era * 400 in
  let doy := (153 * (if 2 <? m then m - 3 else m + 9) + 2) / 5 + d - 1 in
  let doe := yoe * 365 + yoe / 4 - yoe / 100 + doy in
  era * 146097 + doe - 719468.

Definition civil_from_days (z : Z) : Z * Z * Z :=
  let z := z + 719468 in
  let era := z / 146097 in
  let doe := z - era * 146097 in
  let yoe := (doe - doe / 1460 + doe / 36524 - doe / 146096) / 365 in
  let doy := doe - (365 * yoe + yoe / 4 - yoe / 100) in
  let mp := (5 * doy + 2) / 153 in
  let d := doy - (153 * mp + 2) / 5 + 1 in
  let m := if mp <? 10 then mp + 3 else mp - 9 in
  let y := yoe + era * 400 in
  (if m <=? 2 then y + 1 else y, m, d).

Definition micros_per_day : Z := 86400 * 1000000.

Definition iso_of (t : Z) : string :=
  let '(y, m, d) := civil_from_days (t / micros_per_day) in
  let r := t mod micros_per_day in
  let secs := r / 1000000 in
  let us := r mod 1000000 in
  padded 4 y +:+ "-" +:+ padded 2 m +:+ "-" +:+ padded 2 d +:+ "T"
  +:+ padded 2 (secs / 3600) +:+ ":" +:+ padded 2 (secs / 60 mod 60) +:+ ":"
  +:+ padded 2 (secs mod 60)
  +:+ (if us =? 0 then "" else "." +:+ padded 6 us)
  +:+ "+00:00".

Definition sub (start len : nat) (s : string) : string := String.substring start len s.

Definition days_in_month (y m : Z) : Z :=
  days_from_civil (if m =? 12 then y + 1 else y) (if m =? 12 then 1 else m + 1) 1
  - days_from_civil y m 1.

(** The offset [+HH:MM] or [-HH:MM], in microseconds *)
Definition offset (s : string) : option Z :=
  if negb (String.length s =? 6)%nat then None
  else
    hh ← number (sub 1 2 s);
    mm ← number (sub 4 2 s);
    if negb (Str.eqb (sub 3 1 s) ":") || (24 <=? hh) || (60 <=? mm) then None
    else if Str.eqb (sub 0 1 s) "+" then Some ((hh * 3600 + mm * 60) * 1000000)
    else if Str.eqb (sub 0 1 s) "-" then Some (- ((hh * 3600 + mm * 60) * 1000000))
    else None.

Definition iso_parse (s : string) : isotime :=
  let parsed :=
    y ← number (sub 0 4 s);
    m ← number (sub 5 2 s);
    d ← number (sub 8 2 s);
    hh ← number (sub 11 2 s);
    mi ← number (sub 14 2 s);
    ss ← number (sub 17 2 s);
    if negb (Str.eqb (sub 4 1 s) "-") || negb (Str.eqb (sub 7 1 s) "-")
       || negb (Str.eqb (sub 10 1 s) "T") || negb (Str.eqb (sub 13 1 s) ":")
       || negb (Str.eqb (sub 16 1 s) ":")
       || (m <? 1) || (12 <? m) || (d <? 1) || (days_in_month y m <? d)
       || (24 <=? hh) || (60 <=? mi) || (60 <=? ss) then None
    else
      let rest := sub 19 (String.length s - 19) s in
      '(us, rest) ←
        (if Str.startswith "." rest then
           us ← number (sub 1 6 rest);
           if (String.length rest <? 7)%nat then None
           else Some (us, sub 7 (String.length rest - 7) rest)
         else Some (0, rest));
      let local := days_from_civil y m d * micros_per_day
                   + (hh * 3600 + mi * 60 + ss) * 1000000 + us in
      if Str.eqb rest "" then Some None
      else off ← offset rest; Some (Some (local - off)) in
  match parsed with
  | Some (Some t) => Aware t
  | Some None => Naive
  | None => NotIso
  end.

(** *** JSON *)

Inductive token :=
| TLBrace | TRBrace | TLBracket | TRBracket | TColon | TComma
| TString (s : string) | TNumber (n : Z) | TTrue | TFalse | TNull.

(** Where the scanner is: between tokens, in a string, or in a number
    or a literal; the characters read so far are kept in reverse. *)
Inductive mode :=
| Out
| InStr (acc : string)
| InWord (acc : string).

(** The double quote *)
Definition quote : ascii := "034"%char.

Definition is_blank (c : ascii) : bool :=
  existsb (Ascii.eqb c) [" "; "009"; "010"; "013"]%char.

Definition is_word_char (c : ascii) : bool :=
  let n := N_of_ascii c in
  ((48 <=? n) && (n <=? 57) || (97 <=? n) && (n <=? 122) || (n =? 45))%N.

Definition word_token (acc : string) : option token :=
  let w := String.rev acc in
  if Str.eqb w "true" then Some TTrue
  else if Str.eqb w "false" then Some TFalse
  else if Str.eqb w "null" then Some TNull
  else
    let '(sign, body) :=
      if Str.startswith "-" w then (-1, sub 1 (String.length w - 1) w) else (1, w) in
    if Str.startswith "0" body && negb (Str.eqb body "0") then None
    else n ← number body; Some (TNumber (sign * n)).

Definition step_out (c : ascii) : option (list token * mode) :=
  if is_blank c then Some ([], Out)
  else if Ascii.eqb c "{" then Some ([TLBrace], Out)
  else if Ascii.eqb c "}" then Some ([TRBrace], Out)
  else if Ascii.eqb c "[" then Some ([TLBracket], Out)
  else if Ascii.eqb c "]" then Some ([TRBracket], Out)
  else if Ascii.eqb c ":" then Some ([TColon], Out)
  else if Ascii.eqb c "," then Some ([TComma], Out)
  else if Ascii.eqb c quote then Some ([], InStr EmptyString)
  else if is_word_char c then Some ([], InWord (String c EmptyString))
  else None.

Fixpoint tokenize (m : mode) (s : string) : option (list token) :=
  match s with
  | EmptyString =>
      match m with
      | Out => Some []
      | InStr _ => None
      | InWord acc => t ← word_token acc; Some [t]
      end
  | String c s' =>
      match m with
      | Out =>
          '(ts, m') ← step_out c;
          rest ← tokenize m' s';
          Some (ts ++ rest)
      | InStr acc =>
          if Ascii.eqb c quote then
            rest ← tokenize Out s'; Some (TString (String.rev acc) :: rest)
          else if Ascii.eqb c "\" || (N_of_ascii c <? 32)%N || (127 <? N_of_ascii c)%N
          then None
          else tokenize (InStr (String c acc)) s'
      | InWord acc =>
          if is_word_char c then tokenize (InWord (String c acc)) s'
          else
            t ← word_token acc;
            '(ts, m') ← step_out c;
            rest ← tokenize m' s';
            Some (t :: ts ++ rest)
      end
  end.

(** A later field of the same name replaces an earlier one. *)
Definition add_field (k : string) (v : json) (fields : list (string * json))
    : list (string * json) :=
  if existsb (fun kv => Str.eqb kv.1 k) fields then fields else (k, v) :: fields.

Fixpoint parse_value (fuel : nat) (ts : list token) : option (json * list token) :=
  match fuel with
  | O => None
  | S f =>
      match ts with
      | TString s :: r => Some (JStr s, r)
      | TNumber n :: r => Some (JNum n, r)
      | TTrue :: r => Some (JBool true, r)
      | TFalse :: r => Some (JBool false, r)
      | TNull :: r => Some (JNull, r)
      | TLBracket :: TRBracket :: r => Some (JArr [], r)
      | TLBracket :: r => '(items, r') ← parse_items f r; Some (JArr items, r')
      | TLBrace :: TRBrace :: r => Some (JObj [], r)
      | TLBrace :: r => '(fields, r') ← parse_fields f r; Some (JObj fields, r')
      | _ => None
      end
  end
with parse_items (fuel : nat) (ts : list token) : option (list json * list token) :=
  match fuel with
  | O => None
  | S f =>
      '(v, r) ← parse_value f ts;
      match r with
      | TComma :: r' => '(vs, r'') ← parse_items f r'; Some (v :: vs, r'')
      | TRBracket :: r' => Some ([v], r')
      | _ => None
      end
  end
with parse_fields (fuel : nat) (ts : list token)
    : option (list (string * json) * list token) :=
  match fuel with
  | O => None
  | S f =>
      match ts with
      | TString k :: TColon :: r =>
          '(v, r') ← parse_value f r;
          match r' with
          | TComma :: r'' =>
              '(fields, r3) ← parse_fields f r''; Some (add_field k v fields, r3)
          | TRBrace :: r'' => Some ([(k, v)], r'')
          | _ => None
          end
      | _ => None
      end
  end.

Definition loads (text : string) : option json :=
  ts ← tokenize Out text;
  '(v, rest) ← parse_value (S (length ts)) ts;
  match rest with
  | [] => Some v
  | _ => None
  end.

Definition spaces (n : nat) : string := Str.join "" (replicate n " ").

Definition newline : string := String "010" EmptyString.

Definition quoted (s : string) : string :=
  String quote (s +:+ String quote EmptyString).

(** [json.dumps(v, indent=2)], at nesting depth [depth] *)
Fixpoint dumps_at (depth : nat) (v : json) : string :=
  match v with
  | JNull => "null"
  | JBool true => "true"
  | JBool false => "false"
  | JNum n => decimal n
  | JStr s => quoted s
  | JArr [] => "[]"
  | JArr items =>
      "[" +:+ newline
      +:+ Str.join ("," +:+ newline)
            (List.map (fun x => spaces (2 * S depth) +:+ dumps_at (S depth) x) items)
      +:+ newline +:+ spaces (2 * depth) +:+ "]"
  | JObj [] => "{}"
  | JObj fields =>
      "{" +:+ newline
      +:+ Str.join ("," +:+ newline)
            (List.map (fun kv => spaces (2 * S depth) +:+ quoted (fst kv) +:+ ": "
                                 +:+ dumps_at (S depth) (snd kv)) fields)
      +:+ newline +:+ spaces (2 * depth) +:+ "}"
  end.

Definition dumps (v : json) : string := dumps_at 0 v.

(** *** Programs *)

Definition run (argv : list string) (cwd : path) (timeout : option Z)
    (s : fs) : run_result * fs :=
  if bool_decide (argv = ["git"; "init"]) then
    (Completed 0 "" "", <[cwd ++ [".git"] := Dir]> s)
  else (Completed 0 "" "", s).

#[export] Instance host : Host := {|
  json_loads := loads;
  json_dumps := dumps;
  isoformat := iso_of;
  fromisoformat := iso_parse;
  subprocess_run := run
|}.

End RefHost.

(** * The vocabulary of the properties *)

(** ** Arguments *)

(** The characters of the class that opens [DANGEROUS_ARGS_PATTERN] *)
Definition DANGEROUS_CHARS : list ascii := [";"; "&"; "|"; "`"; "$"; "010"; "013"]%char.

(** The strings of one and of two characters *)
Definition char (c : ascii) : string := String c EmptyString.
Definition pair (a b : ascii) : string := String a (String b EmptyString).

(** What the pattern finds at the start of [t], [in_] standing for
    [Str.startswith], and anywhere in [t], [in_] standing for
    [Str.contains]: one of the characters [; & | ` $], a line feed or a
    carriage return; [>>] or [<<]; [>] or [<] with white space after it. *)
Definition dangerous_with (in_ : string -> string -> bool) (t : string) : Prop :=
  (exists c, c ∈ DANGEROUS_CHARS /\ in_ (char c) t = true)
  \/ in_ ">>" t = true
  \/ in_ "<<" t = true
  \/ (exists w, Re.is_space w = true /\ in_ (pair ">" w) t = true)
  \/ (exists w, Re.is_space w = true /\ in_ (pair "<" w) t = true).

(** The argument has, somewhere, what the pattern looks for. *)
Definition dangerous : string -> Prop := dangerous_with Str.contains.

(** An argument the validator refuses. *)
Definition refused (readonly : bool) (arg : string) : Prop :=
  dangerous arg \/ (readonly = true /\ arg = "-i").

(** The characters and sequences that the specification lists. *)
Definition listed : list string := [";"; "&"; "|"; "`"; "$("; "${"; ">>"; "<<"; ">"; "<"].

(** Proves one of five alternatives from the hypotheses. *)
Ltac pick_disjunct :=
  solve [ left; eauto | right; left; eauto | right; right; left; eauto
        | right; right; right; left; eauto | right; right; right; right; eauto ].

(** Unfolds the sequencing of computations. *)
Ltac run :=
  unfold respond, mbind, M_bind, mret, M_ret, check, throw, branch, updating,
    reading, modifying, fail_other, when_exists in *.

(** ** Paths and the file system *)



(** A component that stays as it is when the path is printed and read
    again: it has no [/] and is neither empty, [.] nor [..]. *)
Definition plain (part : string) : Prop :=
  Str.contains "/" part = false /\ Path.keep part = true /\ Str.eqb part ".." = false.

(** Neither path is the other or above it. *)
Definition apart (p q : path) : Prop :=
  Path.is_under p q = false /\ Path.is_under q p = false.

(** Nothing at [root] or below it differs between [s] and [s']. *)
Definition unchanged_below (root : path) (s s' : fs) : Prop :=
  forall q, Path.is_under root q = true -> s' !! q = s !! q.

(** What is absent from [s] is absent from [s']. *)
Definition shrinks (s s' : fs) : Prop :=
  forall q, s !! q = None -> s' !! q = None.

(** Whatever file system [m] takes, [R] relates it to the one [m]
    leaves, also when [m] raises. *)
Definition keeps (R : relation fs) {A : Type} (m : M A) : Prop :=
  forall s, R s (m s).2.

(** Applies a lemma of [keeps] and finds the order it asks for. *)
Ltac keeping lemma := apply lemma; try typeclasses eauto.

(** The zones that have locks and edit zones. *)
Definition is_zone (zone_name : string) : Prop :=
  zone_name = "Storage" \/ zone_name = "Documents".

(** ** A small installation *)

Definition demo_valves : Valves := {|
  storage_base_path := "/srv/users";
  quota_per_user_mb := 1000;
  max_file_size_mb := 300;
  lock_max_age_hours := 24;
  exec_timeout_default := 30;
  exec_timeout_max := 300
|}.

(** The user [u1] has the file [notes/a.txt] and the directory [proj]
    with the file [proj/b.txt] in the data tree of Storage. *)
Definition demo_fs : fs :=
  list_to_map [
    (["srv"], Dir); (["srv"; "users"], Dir); (["srv"; "users"; "u1"], Dir);
    (["srv"; "users"; "u1"; "Storage"], Dir);
    (["srv"; "users"; "u1"; "Storage"; "data"], Dir);
    (["srv"; "users"; "u1"; "Storage"; "data"; "notes"], Dir);
    (["srv"; "users"; "u1"; "Storage"; "data"; "notes"; "a.txt"], File "hello");
    (["srv"; "users"; "u1"; "Storage"; "data"; "proj"], Dir);
    (["srv"; "users"; "u1"; "Storage"; "data"; "proj"; "b.txt"], File "draft") ].

(** The same, with the file [top.txt] at the top of the data tree. *)
Definition demo_top : fs :=
  <[ ["srv"; "users"; "u1"; "Storage"; "data"; "top.txt"] := File "t" ]> demo_fs.

(** 2026-01-01T00:00:00+00:00, in microseconds *)
Definition demo_now : Z := 1767225600000000.

(** A computation that raises no [StorageError]. *)
Definition quiet {A : Type} (m : M A) : Prop :=
  forall s e, (m s).1 <> Raise (Storage e).

(** What [edit_open] does once the path is cleaned, found and not locked
    by another conversation. *)
Definition take_lock_and_copy {host : Host} (now : Z) (data_path lock_path edit_path : path)
    (conv_id user_id p : string) : M payload :=
  _create_lock now lock_path conv_id user_id p;;
  _ensure_dir (Path.parent edit_path);;
  branch (fun s => FS.is_dir s data_path)
    (updating (fun s => FS.copytree s data_path edit_path))
    (updating (fun s => FS.copy2 s data_path edit_path));;
  mret NoData.

(** The conversation [c1] has opened [notes/a.txt]. *)
Definition demo_locked : fs :=
  (store_storage_edit_open (host:=RefHost.host) demo_valves demo_now "notes/a.txt"
     (Some "u1") (Some "c1") demo_fs).2.

(** The record that [c1] has written to the lock file. *)
Definition demo_record : list (string * json) :=
  [("conv_id", JStr "c1"); ("user_id", JStr "u1");
   ("locked_at", JStr "2026-01-01T00:00:00+00:00"); ("path", JStr "notes/a.txt")].


(** [c1], which has [notes/a.txt] open, has changed its copy. *)
Definition demo_edited : fs :=
  (store_storage_edit_write demo_valves "notes/a.txt" "changed" false
     (Some "u1") (Some "c1") demo_locked).2.

(** The regular files of [s'] and what they hold are those of [s]. *)
Definition same_files (s s' : fs) : Prop :=
  forall q c, s' !! q = Some (File c) <-> s !! q = Some (File c).

(** A configuration whose maximum size is 0 MB: every content that is
    not empty is too large. *)
Definition tiny_valves : Valves := {|
  storage_base_path := "/srv/users";
  quota_per_user_mb := 1000;
  max_file_size_mb := 0;
  lock_max_age_hours := 24;
  exec_timeout_default := 30;
  exec_timeout_max := 300
|}.

(** ** Outcomes *)

(** The record that [_create_lock] writes. *)
Definition lock_record {host : Host} (now : Z) (conv_id user_id path : string) : json :=
  JObj [("conv_id", JStr conv_id); ("user_id", JStr user_id);
        ("locked_at", JStr (isoformat now)); ("path", JStr path)].

(** The error of [_check_lock] for a lock that [owner] took at [now]. *)
Definition locked_by {host : Host} (now : Z) (owner path : string) : StorageError :=
  mkError FILE_LOCKED
    [("locked_by", JStr owner); ("locked_since", JStr (isoformat now));
     ("path", JStr path)].

(** ** An installation with documents and uploads *)

(** The user [u1] has the file [notes/a.txt] in the repository of
    Documents, and the conversation [c1] has the upload [report.txt]. *)
Definition demo_documents : fs :=
  list_to_map [
    (["srv"], Dir); (["srv"; "users"], Dir); (["srv"; "users"; "u1"], Dir);
    (["srv"; "users"; "u1"; "Documents"], Dir);
    (["srv"; "users"; "u1"; "Documents"; "data"], Dir);
    (["srv"; "users"; "u1"; "Documents"; "data"; "notes"], Dir);
    (["srv"; "users"; "u1"; "Documents"; "data"; "notes"; "a.txt"], File "hello");
    (["srv"; "users"; "u1"; "Uploads"], Dir);
    (["srv"; "users"; "u1"; "Uploads"; "c1"], Dir);
    (["srv"; "users"; "u1"; "Uploads"; "c1"; "report.txt"], File "figures") ].

(** The conversation [c1] has opened [notes/a.txt] of Documents. *)
Definition demo_documents_locked : fs :=
  (store_documents_edit_open (host:=RefHost.host) demo_valves demo_now "notes/a.txt"
     (Some "u1") (Some "c1") demo_documents).2.

(** ** What an operation leaves *)

(** An operation that has changed nothing when it answers with a
    [StorageError]. *)
Definition atomic (op : fs -> response * fs) : Prop :=
  forall s e, (op s).1 = Error e -> (op s).2 = s.

(** A computation that has changed nothing when it raises a
    [StorageError]. *)
Definition harmless {A : Type} (m : M A) : Prop :=
  forall s e, (m s).1 = Raise (Storage e) -> (m s).2 = s.


(** [s'] is [s] with more directories: every entry of [s] is in [s'],
    and the regular files of [s'] are those of [s]. *)
Definition extends (s s' : fs) : Prop :=
  (forall q n, s !! q = Some n -> s' !! q = Some n)
  /\ (forall q c, s' !! q = Some (File c) -> s !! q = Some (File c)).

(** A call that the validators turn down: the command is not on the
    whitelist of the zone or is on the blacklist, or an argument is
    refused or starts with [/]. *)
Definition rejected (cmd : string) (whitelist : gset string) (args : list string)
    (readonly : bool) : Prop :=
  cmd ∉ whitelist \/ cmd ∈ BLACKLIST_COMMANDS
  \/ Exists (refused readonly) args
  \/ Exists (fun arg => Str.startswith "/" arg = true) args.

(** * Properties *)

#[local] Arguments Ascii.eqb : simpl never.
#[local] Arguments Re.is_space : simpl never.
#[local] Arguments Str.eqb : simpl never.

(** ** The command and argument validator *)

Section Validator.

(** C8: a command of the global blacklist is refused with
    [COMMAND_FORBIDDEN], whatever whitelist and arguments come with it. *)
Theorem blacklisted_command_is_forbidden
    (cmd : string) (whitelist : gset string) (args : option (list string)) :
  cmd ∈ BLACKLIST_COMMANDS ->
  _validate_command cmd whitelist args
  = raise COMMAND_FORBIDDEN [("command", JStr cmd)].
Proof.
  intros Hin. unfold _validate_command.
  by rewrite bool_decide_eq_true_2.
Qed.

Lemma blacklisted_command_is_forbidden_witness :
  "bash" ∈ BLACKLIST_COMMANDS
  /\ _validate_command "bash" WHITELIST_READWRITE (Some ["-c"; "ls"])
     = raise COMMAND_FORBIDDEN [("command", JStr "bash")].
Proof.
  assert (Hin : "bash" ∈ BLACKLIST_COMMANDS).
  { apply (bool_decide_eq_true_1 _). vm_compute. reflexivity. }
  split; [exact Hin|].
  exact (blacklisted_command_is_forbidden "bash" WHITELIST_READWRITE _ Hin).
Defined.

End Validator.

Section Arguments.

Lemma eqb_sym_ascii (a b : ascii) : Ascii.eqb a b = Ascii.eqb b a.
Proof.
  destruct (Ascii.eqb_spec a b) as [->|Hne].
  - symmetry. apply Ascii.eqb_refl.
  - symmetry. apply Ascii.eqb_neq. congruence.
Qed.

Lemma class_here (c : ascii) (t : string) :
  existsb (Ascii.eqb c) DANGEROUS_CHARS = true
  <-> exists x, x ∈ DANGEROUS_CHARS /\ Str.startswith (char x) (String c t) = true.
Proof.
  rewrite existsb_exists. split.
  - intros (x & Hin & Heq). exists x. split; [by apply list_elem_of_In|].
    cbn. rewrite eqb_sym_ascii, Heq. reflexivity.
  - intros (x & Hin & Heq). exists x. split; [by apply list_elem_of_In|].
    cbn in Heq. rewrite eqb_sym_ascii. by destruct (Ascii.eqb x c).
Qed.

Lemma match_here_spec (t : string) :
  Re.match_here DANGEROUS_ARGS_PATTERN t = true <-> dangerous_with Str.startswith t.
Proof.
  unfold dangerous_with. destruct t as [|c1 t].
  - cbn. split; [discriminate|].
    intros [(c & _ & H)|[H|[H|[(w & _ & H)|(w & _ & H)]]]]; discriminate.
  - rewrite <- class_here.
    destruct (existsb (Ascii.eqb c1) DANGEROUS_CHARS) eqn:Hclass.
    + split; [by left|]. intros _. cbn. cbn in Hclass. by rewrite Hclass.
    + assert (Hsimpl : Re.match_here DANGEROUS_ARGS_PATTERN (String c1 t)
               = Str.startswith ">>" (String c1 t) || Str.startswith "<<" (String c1 t)
                 || (Ascii.eqb ">" c1 || Ascii.eqb "<" c1)
                    && match t with String w _ => Re.is_space w | EmptyString => false end).
      { cbn in Hclass. cbn.
        repeat (apply orb_false_elim in Hclass as [? Hclass]).
        rewrite !(eqb_sym_ascii _ c1) in *.
        repeat match goal with H : Ascii.eqb c1 _ = false |- _ => rewrite !H; clear H end.
        cbn. destruct t as [|c2 t]; cbn.
        - by rewrite !andb_false_r.
        - rewrite !andb_true_r.
          destruct (Ascii.eqb c1 ">"), (Ascii.eqb c1 "<"), (Ascii.eqb ">" c2),
            (Ascii.eqb "<" c2), (Re.is_space c2); reflexivity. }
      rewrite Hsimpl, !orb_true_iff, andb_true_iff, orb_true_iff. split.
      * intros [[H|H]|[Hc Hw]]; [right; by left|right; right; by left|].
        destruct t as [|w t]; [discriminate|].
        destruct Hc as [Hc|Hc]; right; right; right; [left|right];
          exists w; (split; [done|]); cbn; by rewrite Hc, Ascii.eqb_refl.
      * intros [H|[H|[H|[(w & Hw & H)|(w & Hw & H)]]]];
          [discriminate| by left; left | by left; right | |].
        -- right. cbn in H. destruct t as [|w' t]; [by rewrite andb_false_r in H|].
           apply andb_true_iff in H as [H1 H2]. apply andb_true_iff in H2 as [H2 _].
           apply Ascii.eqb_eq in H2 as <-. split; [by left|done].
        -- right. cbn in H. destruct t as [|w' t]; [by rewrite andb_false_r in H|].
           apply andb_true_iff in H as [H1 H2]. apply andb_true_iff in H2 as [H2 _].
           apply Ascii.eqb_eq in H2 as <-. split; [by right|done].
Qed.

Lemma dangerous_cons (c : ascii) (s : string) :
  dangerous (String c s) <-> dangerous_with Str.startswith (String c s) \/ dangerous s.
Proof.
  assert (Hc : forall p, Str.contains p (String c s) = true
               <-> Str.startswith p (String c s) = true \/ Str.contains p s = true).
  { intros p. change (Str.contains p (String c s))
      with (Str.startswith p (String c s) || Str.contains p s).
    apply orb_true_iff. }
  assert (Hl : forall p, Str.startswith p (String c s) = true ->
                  Str.contains p (String c s) = true) by (intros p H; apply Hc; by left).
  assert (Hr : forall p, Str.contains p s = true ->
                  Str.contains p (String c s) = true) by (intros p H; apply Hc; by right).
  unfold dangerous, dangerous_with. split.
  - intros [(x & Hx & H)|[H|[H|[(w & Hw & H)|(w & Hw & H)]]]];
      apply Hc in H as [H|H]; [left|right|left|right|left|right|left|right|left|right];
      pick_disjunct.
  - intros [H|H];
      destruct H as [(x & Hx & H)|[H|[H|[(w & Hw & H)|(w & Hw & H)]]]]; pick_disjunct.
Qed.

Lemma dangerous_empty : ~ dangerous "".
Proof.
  intros [(c & _ & H)|[H|[H|[(w & _ & H)|(w & _ & H)]]]]; discriminate.
Qed.

Lemma search_spec (s : string) :
  Re.search DANGEROUS_ARGS_PATTERN s = true <-> dangerous s.
Proof.
  induction s as [|c s IH].
  - split; [discriminate|]. intros H. by destruct dangerous_empty.
  - rewrite dangerous_cons, <- IH, <- match_here_spec.
    change (Re.search DANGEROUS_ARGS_PATTERN (String c s))
      with (Re.match_here DANGEROUS_ARGS_PATTERN (String c s)
            || Re.search DANGEROUS_ARGS_PATTERN s).
    apply orb_true_iff.
Qed.

(** C3, amended: [_validate_args] accepts a list of arguments exactly
    when none of them has one of the characters [; & | ` $], a line feed
    or a carriage return, or [>>] or [<<], or [>] or [<] followed by
    white space, and, in read-only mode, none is [-i]; it raises
    [ARGUMENT_FORBIDDEN], naming a refused argument, otherwise. *)
Theorem validate_args_spec (args : list string) (readonly : bool) :
  (_validate_args args readonly = Ok tt <-> Forall (fun a => ~ refused readonly a) args)
  /\ (Exists (refused readonly) args ->
      exists a, a ∈ args /\ refused readonly a
        /\ _validate_args args readonly
           = raise ARGUMENT_FORBIDDEN [("argument", JStr a)]).
Proof.
  unfold refused. induction args as [|a args [IH1 IH2]]; cbn [_validate_args].
  - split; [split; [constructor|done]|]. intros H. inversion H.
  - destruct (Re.search DANGEROUS_ARGS_PATTERN a) eqn:Hs.
    { apply search_spec in Hs. split.
      - split; [discriminate|]. intros H. inversion H; subst. tauto.
      - intros _. exists a. split; [left|]. tauto. }
    assert (Hnd : ~ dangerous a) by (rewrite <- search_spec, Hs; discriminate).
    destruct (readonly && Str.eqb a "-i") eqn:Hi.
    { apply andb_true_iff in Hi as [-> Hi]. apply (bool_decide_eq_true_1 _) in Hi.
      split.
      - split; [discriminate|]. intros H. inversion H; subst. tauto.
      - intros _. exists a. split; [left|]. tauto. }
    assert (Hni : ~ (readonly = true /\ a = "-i")).
    { intros [-> ->]. vm_compute in Hi. discriminate. }
    split.
    + rewrite IH1. split; [intros H; constructor; tauto|]. intros H. by inversion H.
    + intros H. inversion H as [? ? Hr|? ? Hr]; subst; [tauto|].
      destruct (IH2 Hr) as (b & Hb & Hrb & Heq). exists b.
      split; [by right|]. tauto.
Qed.

Lemma validate_args_spec_witness :
  (_validate_args ["-n"; "a > b"] false = Ok tt
   <-> Forall (fun a => ~ refused false a) ["-n"; "a > b"])
  /\ exists a, a ∈ ["-n"; "a > b"] /\ refused false a
       /\ _validate_args ["-n"; "a > b"] false
          = raise ARGUMENT_FORBIDDEN [("argument", JStr a)].
Proof.
  destruct (validate_args_spec ["-n"; "a > b"] false) as [H1 H2].
  split; [exact H1|]. apply H2.
  apply Exists_cons_tl, Exists_cons_hd. left.
  right. right. right. left. exists " "%char. split; reflexivity.
Defined.

(** C3 fails both ways: [a>b] has the listed [>] and is accepted, and
    [$HOME] has none of the listed sequences and is refused. *)
Lemma listed_sequences_counterexample :
  (Str.contains ">" "a>b" = true /\ ">" ∈ listed
   /\ _validate_args ["a>b"] false = Ok tt)
  /\ (Forall (fun p => Str.contains p "$HOME" = false) listed
      /\ _validate_args ["$HOME"] false
         = raise ARGUMENT_FORBIDDEN [("argument", JStr "$HOME")]).
Proof.
  split; [split; [reflexivity|split; [|reflexivity]]|split; [|reflexivity]].
  - unfold listed. set_solver.
  - unfold listed. repeat constructor.
Qed.

End Arguments.
(** ** Command execution *)

Section Execution.

Context {host : Host} (valves : Valves).

Lemma rm_is_read_write : _validate_command "rm" WHITELIST_READWRITE (Some ["-rf"; "/"]) = Ok tt.
Proof. vm_compute. reflexivity. Qed.

Lemma rm_is_not_read_only :
  _validate_command "rm" WHITELIST_READONLY None
  = raise COMMAND_FORBIDDEN
      [("command", JStr "rm");
       ("allowed", JArr (JStr <$> take 20 (sorted WHITELIST_READONLY)))].
Proof. vm_compute. reflexivity. Qed.

Lemma rf_root_is_not_dangerous (readonly : bool) : _validate_args ["-rf"; "/"] readonly = Ok tt.
Proof. destruct readonly; vm_compute; reflexivity. Qed.

Lemma root_is_absolute (chroot : path) :
  _validate_path_args ["-rf"; "/"] chroot = raise PATH_ESCAPE [("path", JStr "/")].
Proof. reflexivity. Qed.

(** C2, amended: [exec(cmd="rm", args=["-rf", "/"])] fails in every
    zone and never runs the command, but not with [ARGUMENT_FORBIDDEN].
    Storage makes its data directory, Documents its repository, and the
    call then fails with [PATH_ESCAPE] for the absolute argument [/];
    an edit zone fails with [PATH_ESCAPE] when it exists and with
    [ZONE_FORBIDDEN] when it does not; Uploads fails with
    [COMMAND_FORBIDDEN], [rm] not being a read-only command, when the
    conversation has uploads, and with a plain failure when it has none. *)
Theorem exec_rm_rf_root (timeout : Z) (user meta : option string) (s : fs) :
  let user_root := _get_user_root valves user in
  let conv_id := _get_conv_id meta in
  let absolute := throw (A:=payload) PATH_ESCAPE [("path", JStr "/")] in
  store_storage_exec valves "rm" ["-rf"; "/"] timeout user meta s
    = respond (_ensure_dir (Path.join (Path.join user_root "Storage") "data");; absolute) s
  /\ store_documents_exec valves "rm" ["-rf"; "/"] timeout user meta s
    = respond (_init_git_repo (Path.join (Path.join user_root "Documents") "data");; absolute) s
  /\ (forall zone_name,
       edit_exec valves zone_name "rm" ["-rf"; "/"] timeout user meta s
       = (Error (if FS.exists_ s (Path.join (Path.join (Path.join user_root zone_name)
                                                "editzone") conv_id)
                 then mkError PATH_ESCAPE [("path", JStr "/")]
                 else mkError ZONE_FORBIDDEN []), s))
  /\ store_uploads_exec valves "rm" ["-rf"; "/"] timeout user meta s
    = (if FS.exists_ s (Path.join (Path.join user_root "Uploads") conv_id)
       then Error (mkError COMMAND_FORBIDDEN
              [("command", JStr "rm");
               ("allowed", JArr (JStr <$> take 20 (sorted WHITELIST_READONLY)))])
       else Failure, s).
Proof.
  intros user_root conv_id absolute. split; [|split; [|split]].
  - unfold store_storage_exec, _ensure_dir. fold user_root. run.
    rewrite rm_is_read_write, rf_root_is_not_dangerous, root_is_absolute.
    by destruct (FS.mkdir_p s _).
  - unfold store_documents_exec. fold user_root. run.
    rewrite rm_is_read_write, rf_root_is_not_dangerous, root_is_absolute.
    by destruct (_init_git_repo _ s) as [[[]|[]] ?].
  - intros zone_name. unfold edit_exec. fold user_root conv_id. run.
    rewrite rm_is_read_write, rf_root_is_not_dangerous, root_is_absolute.
    by destruct (FS.exists_ s _).
  - unfold store_uploads_exec. fold user_root conv_id.
    destruct (FS.exists_ s _); [|done]. run.
    by rewrite rm_is_not_read_only.
Qed.

End Execution.

(** C2 fails on an empty file system, with the default configuration:
    the error of [store_storage_exec] is [PATH_ESCAPE], and the data
    directory of the zone has been made before the call fails. *)
Lemma exec_rm_rf_root_counterexample :
  let r := store_storage_exec (host:=RefHost.host) default_valves
             "rm" ["-rf"; "/"] 30 (Some "u1") (Some "c1") ∅ in
  r.1 = Error (mkError PATH_ESCAPE [("path", JStr "/")])
  /\ r.1 <> Error (mkError ARGUMENT_FORBIDDEN [("argument", JStr "/")])
  /\ r.2 !! ["app"; "backend"; "data"; "user_files"; "users"; "u1"; "Storage"; "data"]
     = Some Dir.
Proof. vm_compute. repeat split. discriminate. Qed.

(** ** The path resolver *)

Section Resolver.

Lemma is_under_app (base rest : path) : Path.is_under base (base ++ rest) = true.
Proof.
  induction base as [|b base IH]; [done|]. cbn.
  unfold Str.eqb. by rewrite bool_decide_eq_true_2.
Qed.

Lemma is_under_prefix (base p : path) :
  Path.is_under base p = true <-> exists rest, p = base ++ rest.
Proof.
  split.
  - revert p. induction base as [|b base IH]; intros p H; [by exists p|].
    destruct p as [|x p]; [discriminate|]. cbn in H.
    apply andb_true_iff in H as [Hb H]. apply (bool_decide_eq_true_1 _) in Hb as ->.
    destruct (IH _ H) as [rest ->]. by exists rest.
  - intros [rest ->]. apply is_under_app.
Qed.

Lemma removelast_length {A : Type} (l : list A) :
  length (removelast l) = Nat.pred (length l).
Proof. rewrite removelast_firstn_len, length_take. lia. Qed.

Lemma normalize_app (stack a b : path) :
  Path.normalize stack (a ++ b) = Path.normalize (Path.normalize stack a) b.
Proof.
  revert stack. induction a as [|x a IH]; intros stack; [done|].
  cbn. destruct (Str.eqb x ".."); apply IH.
Qed.

Lemma lstrip_not_absolute (s : string) : Str.startswith "/" (Str.lstrip "/" s) = false.
Proof.
  induction s as [|c s IH]; [done|]. cbn.
  destruct (Ascii.eqb c "/") eqn:Hc; [done|]. cbn.
  rewrite Ascii.eqb_sym, Hc. done.
Qed.



Lemma split_no_separator (s : string) :
  Forall (fun w => Str.contains "/" w = false) (Str.split "/" s).
Proof.
  induction s as [|c s IH]; [by repeat constructor|].
  cbn [Str.split]. destruct (Ascii.eqb c "/") eqn:Hc.
  - constructor; [done|exact IH].
  - assert (Hcons : forall w, Str.contains "/" w = false ->
                      Str.contains "/" (String c w) = false).
    { intros w Hw.
      change (Str.contains "/" (String c w))
        with ((Ascii.eqb "/" c && true) || Str.contains "/" w).
      by rewrite Ascii.eqb_sym, Hc, Hw. }
    destruct (Str.split "/" s) as [|w ws].
    + constructor; [by apply Hcons|constructor].
    + inversion IH; subst. constructor; [by apply Hcons|done].
Qed.

Lemma resolve_parts_plain (path : string) (todo parts result : list string) :
  Forall (fun w => Str.contains "/" w = false) todo ->
  Forall plain parts ->
  resolve_parts path parts todo = Ok result ->
  Forall plain result.
Proof.
  revert parts. induction todo as [|part todo IH]; intros parts Htodo Hparts H.
  - cbn in H. congruence.
  - inversion Htodo as [|? ? Hpart Htodo']; subst.
    cbn [resolve_parts] in H. destruct (Str.eqb part "..") eqn:Hup.
    + destruct parts as [|x parts]; [discriminate|].
      apply (IH _ Htodo') in H; [done|].
      rewrite (app_removelast_last "" (l:=x :: parts)) in Hparts by done.
      by apply Forall_app in Hparts as [? _].
    + destruct (negb (Str.eqb part "") && negb (Str.eqb part ".")) eqn:Hkeep.
      * apply (IH _ Htodo') in H; [done|].
        apply Forall_app. split; [done|]. by repeat constructor.
      * by apply (IH _ Htodo') in H.
Qed.

Lemma split_plain (w : string) :
  Str.contains "/" w = false -> Str.split "/" w = [w].
Proof.
  induction w as [|c w IH]; [done|]. intros H.
  change (Str.contains "/" (String c w))
    with ((Ascii.eqb "/" c && true) || Str.contains "/" w) in H.
  apply orb_false_elim in H as [Hc Hw]. rewrite andb_true_r, Ascii.eqb_sym in Hc.
  cbn [Str.split]. by rewrite Hc, (IH Hw).
Qed.

Lemma split_append (w rest : string) :
  Str.contains "/" w = false ->
  Str.split "/" (w +:+ "/" +:+ rest) = w :: Str.split "/" rest.
Proof.
  induction w as [|c w IH]; [done|]. intros H.
  change (Str.contains "/" (String c w))
    with ((Ascii.eqb "/" c && true) || Str.contains "/" w) in H.
  apply orb_false_elim in H as [Hc Hw]. rewrite andb_true_r, Ascii.eqb_sym in Hc.
  change (String c w +:+ "/" +:+ rest) with (String c (w +:+ "/" +:+ rest)).
  cbn [Str.split]. by rewrite Hc, (IH Hw).
Qed.

Lemma split_join (parts : list string) :
  parts <> [] -> Forall plain parts -> Str.split "/" (Str.join "/" parts) = parts.
Proof.
  induction parts as [|w parts IH]; [done|]. intros _ H.
  inversion H as [|? ? [Hw _] Hparts]; subst.
  destruct parts as [|w' parts]; [by apply split_plain|].
  change (Str.join "/" (w :: w' :: parts)) with (w +:+ "/" +:+ Str.join "/" (w' :: parts)).
  rewrite split_append by done. f_equal. by apply IH.
Qed.

Lemma filter_keep_plain (parts : list string) :
  Forall plain parts -> List.filter Path.keep parts = parts.
Proof.
  induction 1 as [|w parts (_ & Hk & _) _ IH]; [done|]. cbn. by rewrite Hk, IH.
Qed.


(** A NUL is not among the characters that [lstrip] takes away. *)
Lemma contains_nul_lstrip (s : string) :
  Str.contains Path.NUL (Str.lstrip "/" s) = Str.contains Path.NUL s.
Proof.
  induction s as [|a s IH]; [done|]. cbn [Str.lstrip].
  destruct (Ascii.eqb a "/") eqn:Ha; [|done].
  apply Ascii.eqb_eq in Ha as ->. by rewrite IH.
Qed.






End Resolver.
(** ** The file system: what an operation leaves as it is *)

Section Paths.

Lemma is_under_refl (p : path) : Path.is_under p p = true.
Proof. rewrite <- (app_nil_r p) at 2. apply is_under_app. Qed.

Lemma is_under_trans (a b c : path) :
  Path.is_under a b = true -> Path.is_under b c = true -> Path.is_under a c = true.
Proof.
  rewrite !is_under_prefix. intros [x ->] [y ->]. exists (x ++ y). by rewrite app_assoc.
Qed.

Lemma is_under_comparable (a b c : path) :
  Path.is_under a c = true -> Path.is_under b c = true ->
  Path.is_under a b = true \/ Path.is_under b a = true.
Proof.
  revert b c. induction a as [|x a IH]; intros b c Ha Hb; [by left|].
  destruct b as [|y b]; [by right|]. destruct c as [|z c]; [discriminate|].
  cbn in *. apply andb_true_iff in Ha as [Hx Ha]. apply andb_true_iff in Hb as [Hy Hb].
  apply (bool_decide_eq_true_1 _) in Hx as ->. apply (bool_decide_eq_true_1 _) in Hy as ->.
  unfold Str.eqb. rewrite !bool_decide_eq_true_2 by done. cbn. by eapply IH.
Qed.

Lemma is_under_false_app (root p rest : path) :
  Path.is_under root (p ++ rest) = false -> Path.is_under root p = false.
Proof.
  intros H. destruct (Path.is_under root p) eqn:Hp; [|done].
  rewrite (is_under_trans root p (p ++ rest)) in H; [done|done|apply is_under_app].
Qed.

Lemma apart_sym (p q : path) : apart p q -> apart q p.
Proof. intros [? ?]. by split. Qed.

Lemma apart_under (p root q : path) :
  apart p root -> Path.is_under root q = true -> Path.is_under p q = false.
Proof.
  intros [H1 H2] Hq. destruct (Path.is_under p q) eqn:Hp; [|done].
  destruct (is_under_comparable _ _ _ Hp Hq); congruence.
Qed.

Lemma apart_ne (p root q : path) :
  apart p root -> Path.is_under root q = true -> q <> p.
Proof.
  intros Hap Hq ->. apply apart_under with (q:=p) in Hap; [|done].
  by rewrite is_under_refl in Hap.
Qed.

Lemma apart_below (p root rest : path) : apart p root -> apart (p ++ rest) root.
Proof.
  intros [H1 H2]. split.
  - destruct (Path.is_under (p ++ rest) root) eqn:H; [|done].
    rewrite (is_under_trans p (p ++ rest) root) in H1; [done|apply is_under_app|done].
  - destruct (Path.is_under root (p ++ rest)) eqn:H; [|done].
    destruct (is_under_comparable root p (p ++ rest) H (is_under_app _ _)); congruence.
Qed.

Lemma apart_siblings (zone : path) (a b : string) (x y : path) :
  a <> b -> apart (zone ++ a :: x) (zone ++ b :: y).
Proof.
  intros Hab. induction zone as [|z zone IH].
  - split; cbn; unfold Str.eqb; by rewrite bool_decide_eq_false_2 by congruence.
  - destruct IH as [H1 H2]. split; cbn; unfold Str.eqb;
      by rewrite bool_decide_eq_true_2 by done.
Qed.

End Paths.

Section Primitives.

#[global] Instance unchanged_below_preorder (root : path) : PreOrder (unchanged_below root).
Proof.
  split; [by intros s q _|].
  intros s1 s2 s3 H12 H23 q Hq. by rewrite (H23 q Hq), (H12 q Hq).
Qed.

#[global] Instance shrinks_preorder : PreOrder shrinks.
Proof. split; [by intros s q|]. intros s1 s2 s3 H12 H23 q Hq. by apply H23, H12. Qed.

Lemma insert_unchanged (root p : path) (n : node) (s : fs) :
  Path.is_under root p = false -> unchanged_below root s (<[p := n]> s).
Proof. intros Hp q Hq. apply lookup_insert_ne. congruence. Qed.

Lemma delete_unchanged (root p : path) (s : fs) :
  Path.is_under root p = false -> unchanged_below root s (delete p s).
Proof. intros Hp q Hq. apply lookup_delete_ne. congruence. Qed.

Lemma delete_shrinks (p : path) (s : fs) : shrinks s (delete p s).
Proof.
  intros q Hq. destruct (decide (p = q)) as [->|Hne].
  - apply lookup_delete_eq.
  - by rewrite lookup_delete_ne.
Qed.

Lemma mkdir_from_unchanged (root : path) (todo above : path) (s s' : fs) :
  Path.is_under root (above ++ todo) = false ->
  FS.mkdir_from s above todo = Some s' -> unchanged_below root s s'.
Proof.
  revert above s. induction todo as [|x todo IH]; intros above s Hroot H; cbn in H.
  - by injection H as <-.
  - assert (Hroot' : Path.is_under root ((above ++ [x]) ++ todo) = false).
    { by rewrite <- app_assoc. }
    destruct (s !! (above ++ [x])) as [[|c]|] eqn:Hd; [by eapply IH|done|].
    etrans; [|by eapply IH].
    apply insert_unchanged. by eapply is_under_false_app.
Qed.

Lemma mkdir_p_unchanged (root p : path) (s s' : fs) :
  Path.is_under root p = false -> FS.mkdir_p s p = Ok s' -> unchanged_below root s s'.
Proof.
  unfold FS.mkdir_p. intros Hp H.
  destruct (FS.mkdir_from s [] p) as [s1|] eqn:Hm; [|done].
  injection H as <-. eapply (mkdir_from_unchanged root p []); [exact Hp|exact Hm].
Qed.

Lemma write_text_unchanged (root p : path) (c : string) (s s' : fs) :
  Path.is_under root p = false -> FS.write_text s p c = Ok s' -> unchanged_below root s s'.
Proof.
  unfold FS.write_text. intros Hp H.
  destruct (FS.is_dir s (Path.parent p)); [|done].
  destruct (FS.node_at s p) as [[|?]|]; try done; injection H as <-;
    by apply insert_unchanged.
Qed.

Lemma unlink_unchanged (root p : path) (s s' : fs) :
  Path.is_under root p = false -> FS.unlink s p = Ok s' -> unchanged_below root s s'.
Proof.
  unfold FS.unlink. intros Hp H.
  destruct (FS.node_at s p) as [[|?]|]; try done. injection H as <-.
  by apply delete_unchanged.
Qed.

Lemma unlink_shrinks (p : path) (s s' : fs) : FS.unlink s p = Ok s' -> shrinks s s'.
Proof.
  unfold FS.unlink. intros H.
  destruct (FS.node_at s p) as [[|?]|]; try done. injection H as <-.
  apply delete_shrinks.
Qed.

Lemma rmtree_lookup (p q : path) (s : fs) :
  FS.rmtree s p !! q = if Path.is_under p q then None else s !! q.
Proof.
  unfold FS.rmtree. rewrite map_lookup_filter.
  destruct (s !! q) as [n|]; cbn; [|by destruct (Path.is_under p q)].
  destruct (Path.is_under p q) eqn:H.
  - by rewrite option_guard_False by (cbn; congruence).
  - by rewrite option_guard_True.
Qed.

Lemma rmtree_unchanged (root p : path) (s : fs) :
  apart p root -> unchanged_below root s (FS.rmtree s p).
Proof.
  intros Hap q Hq. rewrite rmtree_lookup. by rewrite (apart_under _ _ _ Hap Hq).
Qed.

Lemma rmtree_shrinks (p : path) (s : fs) : shrinks s (FS.rmtree s p).
Proof. intros q Hq. rewrite rmtree_lookup, Hq. by destruct (Path.is_under p q). Qed.

Lemma rmdir_unchanged (root p : path) (s s' : fs) :
  Path.is_under root p = false -> FS.rmdir s p = Some s' -> unchanged_below root s s'.
Proof.
  unfold FS.rmdir. intros Hp H. destruct (s !! p) as [[|?]|]; try done.
  case_bool_decide; [|done]. injection H as <-. by apply delete_unchanged.
Qed.

Lemma rmdir_shrinks (p : path) (s s' : fs) : FS.rmdir s p = Some s' -> shrinks s s'.
Proof.
  unfold FS.rmdir. intros H. destruct (s !! p) as [[|?]|]; try done.
  case_bool_decide; [|done]. injection H as <-. apply delete_shrinks.
Qed.

End Primitives.

Section Copies.

Lemma copy2_unchanged (root src dst : path) (s s' : fs) :
  apart dst root -> FS.copy2 s src dst = Ok s' -> unchanged_below root s s'.
Proof.
  unfold FS.copy2. intros Hap H.
  destruct (FS.node_at s src) as [[|c]|]; try done.
  case_bool_decide; [done|].
  apply write_text_unchanged with (root:=root) in H; [done|].
  destruct (FS.is_dir s dst); [|apply Hap]. by apply apart_below.
Qed.

Lemma copytree_unchanged (root src dst : path) (s s' : fs) :
  apart dst root -> FS.copytree s src dst = Ok s' -> unchanged_below root s s'.
Proof.
  unfold FS.copytree. intros Hap H. destruct (FS.exists_ s dst); [done|].
  destruct (FS.mkdir_p s dst) as [s1|e] eqn:Hm; [|done]. cbn in H. injection H as <-.
  etrans; [eapply mkdir_p_unchanged; [apply Hap|exact Hm]|].
  apply (map_fold_weak_ind (fun acc _ => unchanged_below root s1 acc)); [done|].
  intros q n m acc _ IH. destruct (FS.strictly_under src q); [|done].
  etrans; [exact IH|]. apply insert_unchanged. by apply apart_below.
Qed.

End Copies.

(** ** Computations that keep a relation between the file system they
    take and the one they leave *)

Section Keeps.

Context (R : relation fs) `{!PreOrder R}.

Lemma keeps_ret {A : Type} (a : A) : keeps R (mret a).
Proof. by intros s. Qed.

Lemma keeps_check {A : Type} (r : result A) : keeps R (check r).
Proof. by intros s. Qed.

Lemma keeps_throw {A : Type} (c : error_code) (d : list (string * json)) :
  keeps R (throw (A:=A) c d).
Proof. by intros s. Qed.

Lemma keeps_fail_other {A : Type} : keeps R (fail_other (A:=A)).
Proof. by intros s. Qed.

Lemma keeps_reading {A : Type} (f : fs -> result A) : keeps R (reading f).
Proof. by intros s. Qed.

Lemma keeps_bind {A B : Type} (m : M A) (k : A -> M B) :
  keeps R m -> (forall a, keeps R (k a)) -> keeps R (m ≫= k).
Proof.
  intros Hm Hk s. unfold mbind, M_bind. specialize (Hm s).
  destruct (m s) as [[a|e] s1]; [|done]. etrans; [exact Hm|apply Hk].
Qed.

Lemma keeps_branch {A : Type} (test : fs -> bool) (m1 m2 : M A) :
  keeps R m1 -> keeps R m2 -> keeps R (branch test m1 m2).
Proof. intros H1 H2 s. unfold branch. destruct (test s); [apply H1|apply H2]. Qed.

Lemma keeps_when_exists (p : path) (m : M unit) : keeps R m -> keeps R (when_exists p m).
Proof. intros H. apply keeps_branch; [done|apply keeps_ret]. Qed.

Lemma keeps_updating (f : fs -> result fs) :
  (forall s s', f s = Ok s' -> R s s') -> keeps R (updating f).
Proof.
  intros H s. unfold updating. destruct (f s) as [s'|e] eqn:Hf; [|done]. by apply H.
Qed.

Lemma keeps_modifying (f : fs -> fs) : (forall s, R s (f s)) -> keeps R (modifying f).
Proof. intros H s. apply H. Qed.

Lemma keeps_for_each {A B : Type} (xs : list A) (body : A -> B -> M B) (acc : B) :
  (forall x b, keeps R (body x b)) -> keeps R (for_each xs body acc).
Proof.
  intros H. revert acc. induction xs as [|x xs IH]; intros acc; [apply keeps_ret|].
  apply keeps_bind; [apply H|]. intros b. apply IH.
Qed.

Lemma keeps_respond (m : M payload) (s : fs) : keeps R m -> R s (respond m s).2.
Proof.
  intros H. unfold respond. specialize (H s). by destruct (m s) as [[?|[?|]] ?].
Qed.

End Keeps.

(** ** The helpers and the data tree *)

Section Helpers.

Context {host : Host}.

Lemma inits_prefix (p a : path) : a ∈ inits p -> exists rest, p = a ++ rest.
Proof.
  revert a. induction p as [|x p IH]; intros a Ha; cbn in Ha.
  - apply list_elem_of_singleton in Ha as ->. by exists [].
  - apply elem_of_cons in Ha as [->|Ha]; [by exists (x :: p)|].
    apply list_elem_of_fmap in Ha as (b & -> & Hb).
    destruct (IH _ Hb) as [rest ->]. by exists rest.
Qed.

Lemma ancestors_prefix (p a : path) : a ∈ ancestors p -> exists rest, p = a ++ rest.
Proof.
  unfold ancestors. intros Ha. apply inits_prefix.
  apply list_elem_of_In, in_rev, list_elem_of_In.
  destruct (rev (inits p)) as [|b l]; [by inversion Ha|]. by right.
Qed.

Lemma rm_empty_parents_unchanged (root stop_at : path) (parents : list path) (s : fs) :
  (forall a, a ∈ parents -> Path.is_under root a = false) ->
  unchanged_below root s (rm_empty_parents parents stop_at s).
Proof.
  revert s. induction parents as [|a parents IH]; intros s H; cbn; [done|].
  case_bool_decide; [done|].
  destruct (FS.rmdir s a) as [s'|] eqn:Hrm; [|done].
  etrans; [eapply rmdir_unchanged; [|exact Hrm]|apply IH].
  - apply H. by left.
  - intros b Hb. apply H. by right.
Qed.

Lemma rm_empty_parents_shrinks (stop_at : path) (parents : list path) (s : fs) :
  shrinks s (rm_empty_parents parents stop_at s).
Proof.
  revert s. induction parents as [|a parents IH]; intros s; cbn; [done|].
  case_bool_decide; [done|].
  destruct (FS.rmdir s a) as [s'|] eqn:Hrm; [|done].
  etrans; [by eapply rmdir_shrinks|apply IH].
Qed.

Lemma rm_with_empty_parents_unchanged (root filepath stop_at : path) :
  apart filepath root ->
  keeps (unchanged_below root) (_rm_with_empty_parents filepath stop_at).
Proof.
  intros Hap. unfold _rm_with_empty_parents.
  keeping keeps_bind; [keeping keeps_when_exists|intros _].
  - keeping keeps_branch.
    + keeping keeps_modifying. intros s. by apply rmtree_unchanged.
    + keeping keeps_updating. intros s s'. apply unlink_unchanged, Hap.
  - keeping keeps_modifying. intros s. apply rm_empty_parents_unchanged.
    intros a [rest ->]%ancestors_prefix. eapply is_under_false_app, Hap.
Qed.

Lemma rm_with_empty_parents_shrinks (filepath stop_at : path) :
  keeps shrinks (_rm_with_empty_parents filepath stop_at).
Proof.
  unfold _rm_with_empty_parents.
  keeping keeps_bind; [keeping keeps_when_exists|intros _].
  - keeping keeps_branch.
    + keeping keeps_modifying. intros s. apply rmtree_shrinks.
    + keeping keeps_updating. intros s s'. apply unlink_shrinks.
  - keeping keeps_modifying. intros s. apply rm_empty_parents_shrinks.
Qed.

(** Once [_rm_with_empty_parents] has run on an existing entry, the
    entry is gone and no exception was raised. *)
Lemma rm_with_empty_parents_removes (filepath stop_at : path) (s : fs) :
  filepath <> [] ->
  let r := when_exists filepath (_rm_with_empty_parents filepath stop_at) s in
  r.1 = Ok tt /\ r.2 !! filepath = None.
Proof.
  intros Hne. unfold when_exists, branch, FS.exists_.
  destruct filepath as [|x filepath]; [done|]. cbn [FS.node_at].
  destruct (s !! (x :: filepath)) as [n|] eqn:Hn; [|done].
  unfold _rm_with_empty_parents, when_exists, branch, FS.exists_, FS.is_dir, mbind, M_bind.
  cbn [FS.node_at]. rewrite Hn.
  destruct n as [|c]; cbn.
  - split; [done|]. apply rm_empty_parents_shrinks.
    by rewrite rmtree_lookup, is_under_refl.
  - unfold updating, FS.unlink. cbn [FS.node_at]. rewrite Hn. cbn.
    split; [done|]. apply rm_empty_parents_shrinks, lookup_delete_eq.
Qed.

Lemma parent_prefix (p : path) : exists rest, p = Path.parent p ++ rest.
Proof.
  destruct p as [|x p]; [by exists []|].
  exists [List.last (x :: p) ""]. by apply app_removelast_last.
Qed.

Lemma parent_not_under (root p : path) :
  Path.is_under root p = false -> Path.is_under root (Path.parent p) = false.
Proof.
  intros H. destruct (parent_prefix p) as [rest Hp]. rewrite Hp in H.
  by eapply is_under_false_app.
Qed.

Lemma ensure_dir_unchanged (root p : path) :
  Path.is_under root p = false -> keeps (unchanged_below root) (_ensure_dir p).
Proof.
  intros Hp. keeping keeps_updating. intros s s'. by apply mkdir_p_unchanged.
Qed.

Lemma check_lock_same (lock_path : path) (conv_id : string) (s : fs) :
  (_check_lock lock_path conv_id s).2 = s.
Proof.
  unfold _check_lock, when_exists, branch, reading, mbind, M_bind.
  destruct (FS.exists_ s lock_path); [|done].
  destruct (FS.read_text s lock_path) as [text|e]; [|done].
  destruct (json_loads text) as [[| | | | |lock_data]|]; try done.
  by destruct (negb _).
Qed.

Lemma check_lock_keeps (R : relation fs) `{!PreOrder R} (lock_path : path) (conv_id : string) :
  keeps R (_check_lock lock_path conv_id).
Proof. intros s. by rewrite check_lock_same. Qed.

Lemma create_lock_unchanged (root : path) (now : Z) (lock_path : path)
    (conv_id user_id p : string) :
  Path.is_under root lock_path = false ->
  keeps (unchanged_below root) (_create_lock now lock_path conv_id user_id p).
Proof.
  intros Hl. unfold _create_lock. keeping keeps_bind; [|intros _].
  - by apply ensure_dir_unchanged, parent_not_under.
  - keeping keeps_updating. intros s s'. by apply write_text_unchanged.
Qed.

End Helpers.

(** ** The paths of a zone *)

Section ZonePaths.

Lemma keeps_bind_check (R : relation fs) `{!PreOrder R} {A B : Type}
    (r : result A) (k : A -> M B) :
  (forall a, r = Ok a -> keeps R (k a)) -> keeps R (check r ≫= k).
Proof.
  intros H s. unfold mbind, M_bind, check. destruct r as [a|e]; [|done]. by apply H.
Qed.

Lemma join_relative (base : path) (s : string) :
  Str.startswith "/" s = false -> Path.join base s = base ++ Path.segments s.
Proof. unfold Path.join. by intros ->. Qed.

Lemma plain_not_absolute (w sfx : string) :
  plain w -> Str.startswith "/" (w +:+ sfx) = false.
Proof.
  intros (Hs & Hk & _). destruct w as [|c w]; [done|].
  change (Str.contains "/" (String c w))
    with ((Ascii.eqb "/" c && true) || Str.contains "/" w) in Hs.
  apply orb_false_elim in Hs as [Hc _]. rewrite andb_true_r in Hc.
  change (Str.startswith "/" (String c w +:+ sfx)) with (Ascii.eqb "/" c && true).
  by rewrite Hc.
Qed.

Lemma append_empty (s : string) : s +:+ "" = s.
Proof. induction s as [|c s IH]; [done|]. change (String c s +:+ "") with (String c (s +:+ "")). by rewrite IH. Qed.

Lemma append_assoc (a b c : string) : (a +:+ b) +:+ c = a +:+ b +:+ c.
Proof.
  induction a as [|x a IH]; [done|].
  change (String x (a +:+ b) +:+ c = String x (a +:+ b +:+ c)).
  change (String x ((a +:+ b) +:+ c) = String x (a +:+ b +:+ c)). by rewrite IH.
Qed.

Lemma join_not_absolute (parts : list string) (sfx : string) :
  parts <> [] -> Forall plain parts ->
  Str.startswith "/" (Str.join "/" parts +:+ sfx) = false.
Proof.
  intros Hne Hp. destruct parts as [|w parts]; [done|].
  inversion Hp as [|? ? Hw _]; subst.
  destruct parts as [|w' parts]; [by apply plain_not_absolute|].
  change (Str.join "/" (w :: w' :: parts)) with (w +:+ "/" +:+ Str.join "/" (w' :: parts)).
  rewrite append_assoc. by apply plain_not_absolute.
Qed.

(** A cleaned path is relative, and so is the name of its lock file. *)
Lemma validated_relative (path p : string) :
  _validate_relative_path path = Ok p ->
  Str.startswith "/" p = false /\ Str.startswith "/" (p +:+ ".lock") = false.
Proof.
  unfold _validate_relative_path. rewrite lstrip_not_absolute.
  destruct (resolve_parts _ [] _) as [parts|e] eqn:Hparts; [|discriminate].
  cbn. intros [= <-].
  assert (Hplain : Forall plain parts).
  { eapply resolve_parts_plain; [apply split_no_separator|constructor|exact Hparts]. }
  destruct parts as [|w parts]; [done|]. split.
  - rewrite <- (append_empty (Str.join "/" (w :: parts))). by apply join_not_absolute.
  - by apply join_not_absolute.
Qed.

Lemma join_plain (base : path) (name : string) :
  plain name -> Path.join base name = base ++ [name].
Proof.
  intros Hp. rewrite join_relative.
  - f_equal. unfold Path.segments. destruct Hp as (Hs & Hk & _).
    rewrite split_plain by done. cbn. by rewrite Hk.
  - rewrite <- (append_empty name). by apply plain_not_absolute.
Qed.

Context {host : Host} (valves : Valves).

(** Where the data, the lock and the edit copy of a path are, with the
    lock and the edit copy apart from the data tree. *)
Lemma zone_paths (zone_name path p conv_id : string) (user : option string) :
  is_zone zone_name -> plain conv_id -> _validate_relative_path path = Ok p ->
  let zone_root := Path.join (_get_user_root valves user) zone_name in
  let data_root := Path.join zone_root "data" in
  Path.join data_root p = data_root ++ Path.segments p
  /\ apart (_get_lock_path zone_root p) data_root
  /\ apart (_get_editzone_path zone_root conv_id p) data_root
  /\ _get_lock_path zone_root p <> []
  /\ _get_editzone_path zone_root conv_id p <> []
  /\ _get_lock_path zone_root p <> _get_editzone_path zone_root conv_id p.
Proof.
  intros Hzone Hconv Hp zone_root data_root.
  destruct (validated_relative _ _ Hp) as [Hrel Hlock].
  set (U := _get_user_root valves user) in *.
  assert (Hz : zone_root = U ++ [zone_name]).
  { by destruct Hzone as [-> | ->]. }
  assert (Hd : data_root = (U ++ [zone_name]) ++ ["data"]).
  { subst data_root. by rewrite Hz. }
  assert (Hl : _get_lock_path zone_root p
               = (U ++ [zone_name]) ++ "locks" :: Path.segments (p +:+ ".lock")).
  { unfold _get_lock_path. rewrite Hz, join_relative by done.
    change (Path.join (U ++ [zone_name]) "locks") with ((U ++ [zone_name]) ++ ["locks"]).
    by rewrite <- app_assoc. }
  assert (He : _get_editzone_path zone_root conv_id p
               = (U ++ [zone_name]) ++ "editzone" :: conv_id :: Path.segments p).
  { unfold _get_editzone_path. rewrite Hz.
    change (Path.join (U ++ [zone_name]) "editzone")
      with ((U ++ [zone_name]) ++ ["editzone"]).
    rewrite (join_relative _ p), (join_plain _ conv_id) by done.
    by rewrite <- !app_assoc. }
  rewrite Hl, He, Hd. split; [by rewrite <- Hd, join_relative|].
  split; [by apply apart_siblings|]. split; [by apply apart_siblings|].
  split; [by destruct (U ++ [zone_name])|]. split; [by destruct (U ++ [zone_name])|].
  intros Heq. by apply app_inv_head in Heq.
Qed.

End ZonePaths.

(** ** Safe editing *)

Section SafeEditing.

Context {host : Host} (valves : Valves).

Lemma edit_open_unchanged (zone_name : string) (now : Z) (path : string)
    (user meta : option string) (s : fs) :
  is_zone zone_name -> plain (_get_conv_id meta) ->
  unchanged_below (Path.join (Path.join (_get_user_root valves user) zone_name) "data")
    s (edit_open valves zone_name now path user meta s).2.
Proof.
  intros Hzone Hconv. unfold edit_open. keeping keeps_respond.
  keeping keeps_bind_check. intros p Hp. cbv zeta.
  destruct (zone_paths valves zone_name path p _ user Hzone Hconv Hp)
    as (_ & [_ Hlock] & Hedit & _).
  keeping keeps_bind; [|intros _].
  { keeping keeps_branch; [keeping keeps_throw|keeping keeps_ret]. }
  keeping keeps_bind; [|intros _]. { keeping check_lock_keeps. }
  keeping keeps_bind; [|intros _]. { by apply create_lock_unchanged. }
  keeping keeps_bind; [|intros _].
  { apply ensure_dir_unchanged, parent_not_under, Hedit. }
  keeping keeps_bind; [|intros _; keeping keeps_ret].
  keeping keeps_branch; keeping keeps_updating; intros s1 s2.
  - by apply copytree_unchanged.
  - by apply copy2_unchanged.
Qed.

Lemma edit_cancel_spec (zone_name path p : string) (user meta : option string) (s : fs) :
  is_zone zone_name -> plain (_get_conv_id meta) -> _validate_relative_path path = Ok p ->
  let zone_root := Path.join (_get_user_root valves user) zone_name in
  let r := edit_cancel valves zone_name path user meta s in
  r.1 = Success NoData
  /\ unchanged_below (Path.join zone_root "data") s r.2
  /\ r.2 !! _get_lock_path zone_root p = None
  /\ r.2 !! _get_editzone_path zone_root (_get_conv_id meta) p = None.
Proof.
  intros Hzone Hconv Hp zone_root r.
  destruct (zone_paths valves zone_name path p _ user Hzone Hconv Hp)
    as (_ & Hlock & Hedit & Hl & He & _).
  fold zone_root in Hlock, Hedit, Hl, He.
  set (lock_path := _get_lock_path zone_root p) in *.
  set (edit_path := _get_editzone_path zone_root (_get_conv_id meta) p) in *.
  set (W1 := when_exists edit_path
               (_rm_with_empty_parents edit_path (Path.join zone_root "editzone"))).
  set (W2 := when_exists lock_path
               (_rm_with_empty_parents lock_path (Path.join zone_root "locks"))).
  assert (Hr : r = respond (W1;; W2;; mret NoData) s).
  { subst r. unfold edit_cancel. unfold respond, mbind, M_bind, check at 1.
    by rewrite Hp. }
  destruct (rm_with_empty_parents_removes edit_path (Path.join zone_root "editzone") s He)
    as [H1 H1']. fold W1 in H1, H1'.
  destruct (rm_with_empty_parents_removes lock_path (Path.join zone_root "locks")
              (W1 s).2 Hl) as [H2 H2']. fold W2 in H2, H2'.
  assert (Hs2 : shrinks (W1 s).2 (W2 (W1 s).2).2).
  { apply (keeps_when_exists shrinks), rm_with_empty_parents_shrinks. }
  assert (Hu1 : unchanged_below (Path.join zone_root "data") s (W1 s).2).
  { apply (keeps_when_exists (unchanged_below _)).
    by apply rm_with_empty_parents_unchanged. }
  assert (Hu2 : unchanged_below (Path.join zone_root "data") (W1 s).2 (W2 (W1 s).2).2).
  { apply (keeps_when_exists (unchanged_below _)).
    by apply rm_with_empty_parents_unchanged. }
  rewrite Hr. unfold respond, mbind, M_bind, mret, M_ret.
  destruct (W1 s) as [r1 s1]. cbn in *. subst r1.
  destruct (W2 s1) as [r2 s2]. cbn in *. subst r2.
  split; [done|]. split; [by etrans|]. split; [done|]. by apply Hs2.
Qed.

(** C5: an [edit_open] followed by an [edit_cancel] of the same path in
    the same conversation, in Storage or in Documents: the cancel
    succeeds, the data tree of the zone, and so [data/<path>] with all
    that is below it, holds what it held before the open, and neither
    the lock file of the path nor its copy in the edit zone remains. *)
Theorem edit_open_then_cancel (zone_name : string) (now : Z) (path p : string)
    (user meta : option string) (s : fs) :
  is_zone zone_name -> plain (_get_conv_id meta) -> _validate_relative_path path = Ok p ->
  let zone_root := Path.join (_get_user_root valves user) zone_name in
  let data_root := Path.join zone_root "data" in
  let opened := edit_open valves zone_name now path user meta s in
  let cancelled := edit_cancel valves zone_name path user meta opened.2 in
  cancelled.1 = Success NoData
  /\ (forall q, Path.is_under data_root q = true -> cancelled.2 !! q = s !! q)
  /\ Path.is_under data_root (Path.join data_root p) = true
  /\ cancelled.2 !! _get_lock_path zone_root p = None
  /\ cancelled.2 !! _get_editzone_path zone_root (_get_conv_id meta) p = None.
Proof.
  intros Hzone Hconv Hp zone_root data_root opened cancelled.
  destruct (edit_cancel_spec zone_name path p user meta opened.2 Hzone Hconv Hp)
    as (Hok & Hdata & Hlock & Hedit).
  pose proof (edit_open_unchanged zone_name now path user meta s Hzone Hconv) as Hopen.
  split; [exact Hok|]. split; [|split; [|by split]].
  - intros q Hq. subst cancelled opened. fold zone_root data_root in Hdata, Hopen.
    by rewrite (Hdata q Hq), (Hopen q Hq).
  - destruct (zone_paths valves zone_name path p _ user Hzone Hconv Hp) as (Hjoin & _).
    subst data_root zone_root. rewrite Hjoin. apply is_under_app.
Qed.

End SafeEditing.

Lemma plain_c1 : plain "c1".
Proof. by vm_compute. Qed.

Lemma edit_open_then_cancel_witness :
  let opened := store_storage_edit_open (host:=RefHost.host) demo_valves demo_now
                  "notes/a.txt" (Some "u1") (Some "c1") demo_fs in
  let cancelled := store_storage_edit_cancel demo_valves
                     "notes/a.txt" (Some "u1") (Some "c1") opened.2 in
  opened.1 = Success NoData
  /\ opened.2 !! ["srv"; "users"; "u1"; "Storage"; "editzone"; "c1"; "notes"; "a.txt"]
     = Some (File "hello")
  /\ cancelled.1 = Success NoData
  /\ cancelled.2 !! ["srv"; "users"; "u1"; "Storage"; "data"; "notes"; "a.txt"]
     = Some (File "hello")
  /\ cancelled.2 !! ["srv"; "users"; "u1"; "Storage"; "locks"; "notes"; "a.txt.lock"] = None
  /\ cancelled.2 !! ["srv"; "users"; "u1"; "Storage"; "editzone"; "c1"; "notes"; "a.txt"]
     = None.
Proof.
  intros opened cancelled.
  destruct (edit_open_then_cancel (host:=RefHost.host) demo_valves "Storage" demo_now
              "notes/a.txt" "notes/a.txt" (Some "u1") (Some "c1") demo_fs
              (or_introl eq_refl) plain_c1 eq_refl)
    as (Hok & Hdata & _ & Hlock & Hedit).
  split; [by vm_compute|]. split; [by vm_compute|]. split; [exact Hok|].
  split; [|split; [exact Hlock|exact Hedit]].
  etrans; [apply (Hdata ["srv"; "users"; "u1"; "Storage"; "data"; "notes"; "a.txt"])|];
    by vm_compute.
Defined.

(** ** The lock check *)

Section Quiet.

Lemma quiet_ret {A : Type} (a : A) : quiet (mret a).
Proof. by intros s e. Qed.

Lemma quiet_updating (f : fs -> result fs) :
  (forall s e, f s <> Raise (Storage e)) -> quiet (updating f).
Proof.
  intros H s e. unfold updating. specialize (H s e).
  destruct (f s) as [s'|[e'|]]; cbn; congruence.
Qed.

Lemma quiet_bind {A B : Type} (m : M A) (k : A -> M B) :
  quiet m -> (forall a, quiet (k a)) -> quiet (m ≫= k).
Proof.
  intros Hm Hk s e. unfold mbind, M_bind. specialize (Hm s e).
  destruct (m s) as [[a|e'] s1]; [apply Hk|]. cbn in *. congruence.
Qed.

Lemma quiet_branch {A : Type} (test : fs -> bool) (m1 m2 : M A) :
  quiet m1 -> quiet m2 -> quiet (branch test m1 m2).
Proof. intros H1 H2 s e. unfold branch. destruct (test s); [apply H1|apply H2]. Qed.

Lemma mkdir_p_quiet (p : path) (s : fs) (e : StorageError) :
  FS.mkdir_p s p <> Raise (Storage e).
Proof. unfold FS.mkdir_p. by destruct (FS.mkdir_from s [] p). Qed.

Lemma write_text_quiet (p : path) (c : string) (s : fs) (e : StorageError) :
  FS.write_text s p c <> Raise (Storage e).
Proof.
  unfold FS.write_text. destruct (FS.is_dir s (Path.parent p)); [|done].
  by destruct (FS.node_at s p) as [[|?]|].
Qed.

Lemma copy2_quiet (src dst : path) (s : fs) (e : StorageError) :
  FS.copy2 s src dst <> Raise (Storage e).
Proof.
  unfold FS.copy2. destruct (FS.node_at s src) as [[|c]|]; try done.
  case_bool_decide; [done|]. apply write_text_quiet.
Qed.

Lemma copytree_quiet (src dst : path) (s : fs) (e : StorageError) :
  FS.copytree s src dst <> Raise (Storage e).
Proof.
  unfold FS.copytree. destruct (FS.exists_ s dst); [done|].
  pose proof (mkdir_p_quiet dst s e). by destruct (FS.mkdir_p s dst) as [?|[?|]].
Qed.

End Quiet.

Section LockCheck.

Context {host : Host} (valves : Valves).


(** [edit_open], its steps named. *)
Lemma edit_open_steps (zone_name : string) (now : Z) (path p : string)
    (user meta : option string) (s : fs) :
  _validate_relative_path path = Ok p ->
  let zone_root := Path.join (_get_user_root valves user) zone_name in
  let data_path := Path.join (Path.join zone_root "data") p in
  let lock_path := _get_lock_path zone_root p in
  let edit_path := _get_editzone_path zone_root (_get_conv_id meta) p in
  edit_open valves zone_name now path user meta s
  = respond
      (branch (fun s => negb (FS.exists_ s data_path)) (throw FILE_NOT_FOUND []) (mret tt);;
       _check_lock lock_path (_get_conv_id meta);;
       take_lock_and_copy now data_path lock_path edit_path
         (_get_conv_id meta) (user_id_of user) p) s.
Proof.
  intros Hp. cbv zeta. unfold edit_open, respond, mbind, M_bind, check at 1.
  by rewrite Hp.
Qed.

(** The lock file holds a record of another conversation. *)
Lemma check_lock_other (lock_path : path) (conv_id text owner : string)
    (lock_data : list (string * json)) (s : fs) :
  FS.read_text s lock_path = Ok text ->
  json_loads text = Some (JObj lock_data) ->
  dict_get lock_data "conv_id" = Some (JStr owner) ->
  owner <> conv_id ->
  _check_lock lock_path conv_id s
  = (raise FILE_LOCKED
       [("locked_by", JStr owner);
        ("locked_since", lock_value lock_data "locked_at");
        ("path", lock_value lock_data "path")], s).
Proof.
  intros Hread Hjson Hconv Hne.
  unfold _check_lock, when_exists, branch, reading, mbind, M_bind.
  assert (Hex : FS.exists_ s lock_path = true).
  { unfold FS.read_text in Hread. unfold FS.exists_.
    by destruct (FS.node_at s lock_path). }
  rewrite Hex, Hread, Hjson. unfold lock_value at 1. rewrite Hconv. cbn.
  unfold Str.eqb. by rewrite bool_decide_eq_false_2.
Qed.

(** C6, amended: when [data/<path>] exists and the lock file of the path
    holds a record whose [conv_id] is another conversation, [_check_lock]
    raises [FILE_LOCKED] and [edit_open], in Storage and in Documents,
    fails with it and changes nothing; the error names the owner and
    carries the [locked_at] of the record. *)
Theorem edit_open_locked_by_other (zone_name : string) (now : Z) (path p : string)
    (user meta : option string) (s : fs) (text owner : string)
    (lock_data : list (string * json)) :
  let zone_root := Path.join (_get_user_root valves user) zone_name in
  let lock_path := _get_lock_path zone_root p in
  let locked := mkError FILE_LOCKED
                  [("locked_by", JStr owner);
                   ("locked_since", lock_value lock_data "locked_at");
                   ("path", lock_value lock_data "path")] in
  _validate_relative_path path = Ok p ->
  FS.exists_ s (Path.join (Path.join zone_root "data") p) = true ->
  FS.read_text s lock_path = Ok text ->
  json_loads text = Some (JObj lock_data) ->
  dict_get lock_data "conv_id" = Some (JStr owner) ->
  owner <> _get_conv_id meta ->
  _check_lock lock_path (_get_conv_id meta) s = (Raise (Storage locked), s)
  /\ edit_open valves zone_name now path user meta s = (Error locked, s).
Proof.
  intros zone_root lock_path locked Hp Hdata Hread Hjson Hconv Hne.
  pose proof (check_lock_other lock_path _ text owner lock_data s Hread Hjson Hconv Hne)
    as Hcheck.
  split; [exact Hcheck|].
  rewrite (edit_open_steps zone_name now path p user meta s Hp).
  fold zone_root lock_path. unfold respond, mbind, M_bind, branch, mret, M_ret.
  rewrite Hdata. cbn [negb]. by rewrite Hcheck.
Qed.

End LockCheck.

Lemma edit_open_locked_by_other_witness :
  store_storage_edit_open (host:=RefHost.host) demo_valves (demo_now + 60000000)
    "notes/a.txt" (Some "u1") (Some "c2") demo_locked
  = (Error (mkError FILE_LOCKED
       [("locked_by", JStr "c1");
        ("locked_since", JStr "2026-01-01T00:00:00+00:00");
        ("path", JStr "notes/a.txt")]), demo_locked).
Proof.
  refine (proj2 (edit_open_locked_by_other (host:=RefHost.host) demo_valves "Storage"
            (demo_now + 60000000) "notes/a.txt" "notes/a.txt" (Some "u1") (Some "c2")
            demo_locked (RefHost.dumps (JObj demo_record)) "c1" demo_record
            _ _ _ _ _ _)).
  - reflexivity.
  - by vm_compute.
  - by vm_compute.
  - by vm_compute.
  - reflexivity.
  - discriminate.
Defined.

(** C6 fails when the data of the locked path is gone: [c1] opens
    [notes/a.txt], the file is deleted with [store_storage_delete], and
    the [edit_open] of [c2] fails with [FILE_NOT_FOUND], the record of
    [c1] still in the lock file. *)
Lemma edit_open_locked_counterexample :
  let deleted := store_storage_delete demo_valves "notes/a.txt" (Some "u1") (Some "c2")
                   demo_locked in
  let lock_path := ["srv"; "users"; "u1"; "Storage"; "locks"; "notes"; "a.txt.lock"] in
  deleted.1 = Success NoData
  /\ (text ← FS.read_text deleted.2 lock_path;
      Ok (json_loads (Host:=RefHost.host) text)) = Ok (Some (JObj demo_record))
  /\ (store_storage_edit_open (host:=RefHost.host) demo_valves (demo_now + 60000000)
        "notes/a.txt" (Some "u1") (Some "c2") deleted.2).1
     = Error (mkError FILE_NOT_FOUND []).
Proof. vm_compute. repeat split. Qed.


Section MalformedLock.

Context {host : Host} (valves : Valves).

Lemma node_at_delete_ne (k q : path) (s : fs) :
  q <> k -> FS.node_at (delete k s) q = FS.node_at s q.
Proof. intros Hne. destruct q as [|x q]; [done|]. cbn. by apply lookup_delete_ne. Qed.



Lemma parent_shorter (p : path) : p <> [] -> (length (Path.parent p) < length p)%nat.
Proof.
  intros Hp. unfold Path.parent. rewrite removelast_length.
  destruct p; [done|]. cbn. lia.
Qed.







End MalformedLock.




Section OpenAgain.

Context {host : Host} (valves : Valves).

Lemma wf_prefix_dir (s : fs) (pre rest : path) (n : node) :
  FS.wf s -> s !! (pre ++ rest) = Some n -> pre <> [] -> rest <> [] ->
  s !! pre = Some Dir.
Proof.
  intros Hwf. revert n. induction rest as [|x rest IH] using rev_ind; [done|].
  intros n Hn Hpre _. destruct (Hwf _ _ Hn) as [_ Hdir].
  unfold Path.parent in Hdir. rewrite app_assoc, removelast_last in Hdir.
  unfold FS.is_dir in Hdir.
  assert (Hnode : FS.node_at s (pre ++ rest) = s !! (pre ++ rest)).
  { destruct pre; [done|]. done. }
  rewrite Hnode in Hdir.
  destruct (s !! (pre ++ rest)) as [[|c]|] eqn:Hpr; try done.
  destruct rest as [|y rest]; [by rewrite app_nil_r in Hpr|].
  by eapply IH.
Qed.

Lemma mkdir_from_dirs (s : fs) (todo above : path) :
  (forall pre rest, todo = pre ++ rest -> pre <> [] -> s !! (above ++ pre) = Some Dir) ->
  FS.mkdir_from s above todo = Some s.
Proof.
  revert above. induction todo as [|x todo IH]; intros above H; [done|].
  cbn. rewrite (H [x] todo) by done. apply IH.
  intros pre rest -> Hpre. rewrite <- app_assoc. by apply (H (x :: pre) rest).
Qed.

(** In a well-formed file system the directories above an entry are
    there: [_ensure_dir] of its parent changes nothing. *)
Lemma mkdir_p_parent (s s1 : fs) (p : path) (n : node) :
  FS.wf s -> s !! p = Some n ->
  (forall q, s !! q = Some Dir -> s1 !! q = Some Dir) ->
  FS.mkdir_p s1 (Path.parent p) = Ok s1 /\ FS.is_dir s1 (Path.parent p) = true.
Proof.
  intros Hwf Hp Hs1. destruct (Hwf _ _ Hp) as [Hne Hdir].
  assert (Hpp : p = Path.parent p ++ [List.last p ""]) by (by apply app_removelast_last).
  split.
  - unfold FS.mkdir_p. rewrite mkdir_from_dirs; [done|].
    intros pre rest Heq Hpre. apply Hs1. cbn.
    eapply (wf_prefix_dir s pre (rest ++ [List.last p ""])); [done| |done|].
    + by rewrite app_assoc, <- Heq, <- Hpp.
    + by destruct rest.
  - unfold FS.is_dir in *. destruct (Path.parent p) as [|x q] eqn:Hq; [done|].
    cbn in *. destruct (s !! (x :: q)) as [[|c]|] eqn:Hx; try done.
    by rewrite (Hs1 _ Hx).
Qed.

(** C10: a conversation opens again a regular file that it has open:
    its own record is in the lock file and the copy is in its edit zone.
    [edit_open], in Storage and in Documents, succeeds; the lock file
    then holds a record with the time of this call, and the copy in the
    edit zone holds what [data/<path>] holds, whatever it held before. *)
Theorem edit_open_again (zone_name : string) (now : Z) (path p : string)
    (user meta : option string) (s : fs) (text content edited : string)
    (lock_data : list (string * json)) :
  let zone_root := Path.join (_get_user_root valves user) zone_name in
  let conv_id := _get_conv_id meta in
  let data_path := Path.join (Path.join zone_root "data") p in
  let lock_path := _get_lock_path zone_root p in
  let edit_path := _get_editzone_path zone_root conv_id p in
  let fresh := json_dumps (JObj [("conv_id", JStr conv_id);
                                 ("user_id", JStr (user_id_of user));
                                 ("locked_at", JStr (isoformat now));
                                 ("path", JStr p)]) in
  FS.wf s -> is_zone zone_name -> plain conv_id -> _validate_relative_path path = Ok p ->
  s !! data_path = Some (File content) ->
  s !! lock_path = Some (File text) ->
  json_loads text = Some (JObj lock_data) ->
  dict_get lock_data "conv_id" = Some (JStr conv_id) ->
  s !! edit_path = Some (File edited) ->
  edit_open valves zone_name now path user meta s
  = (Success NoData, <[edit_path := File content]> (<[lock_path := File fresh]> s)).
Proof.
  intros zone_root conv_id data_path lock_path edit_path fresh
    Hwf Hzone Hconv Hp Hdata Hlock Hjson Hown Hedit.
  destruct (zone_paths valves zone_name path p conv_id user Hzone Hconv Hp)
    as (Hjoin & Haplock & Hapedit & Hlne & Hene & Hle).
  fold zone_root lock_path edit_path in Hjoin, Haplock, Hapedit, Hlne, Hene, Hle.
  assert (Hunder : Path.is_under (Path.join zone_root "data") data_path = true).
  { subst data_path. rewrite Hjoin. apply is_under_app. }
  assert (Hdl : data_path <> lock_path) by (by eapply apart_ne).
  assert (Hde : data_path <> edit_path) by (by eapply apart_ne).
  assert (Hdne : data_path <> []) by (by destruct (Hwf _ _ Hdata)).
  set (s1 := <[lock_path := File fresh]> s).
  assert (Hdirs : forall q, s !! q = Some Dir -> s1 !! q = Some Dir).
  { intros q Hq. subst s1. rewrite lookup_insert_ne; [done|]. congruence. }
  destruct (mkdir_p_parent s s lock_path _ Hwf Hlock (fun q H => H)) as [Hmk1 Hdir1].
  destruct (mkdir_p_parent s s1 edit_path _ Hwf Hedit Hdirs) as [Hmk2 Hdir2].
  rewrite (edit_open_steps valves zone_name now path p user meta s Hp).
  fold zone_root conv_id data_path lock_path edit_path.
  assert (Hcheck : _check_lock lock_path conv_id s = (Ok tt, s)).
  { unfold _check_lock, when_exists, branch, reading, mbind, M_bind, FS.exists_,
      FS.read_text.
    destruct lock_path as [|x l]; [done|]. cbn [FS.node_at].
    rewrite Hlock, Hjson, Hown. cbn. unfold Str.eqb. by rewrite bool_decide_eq_true_2. }
  assert (Hcreate : _create_lock now lock_path conv_id (user_id_of user) p s = (Ok tt, s1)).
  { unfold _create_lock, _ensure_dir, updating, mbind, M_bind. rewrite Hmk1.
    unfold FS.write_text. rewrite Hdir1.
    destruct lock_path as [|x l]; [done|]. cbn [FS.node_at]. by rewrite Hlock. }
  assert (Hcopy : FS.copy2 s1 data_path edit_path = Ok (<[edit_path := File content]> s1)).
  { assert (Hfile : FS.is_dir s1 edit_path = false).
    { unfold FS.is_dir. destruct edit_path as [|x e]; [done|]. cbn [FS.node_at].
      subst s1. rewrite lookup_insert_ne by congruence. by rewrite Hedit. }
    unfold FS.copy2. rewrite Hfile. unfold FS.write_text. rewrite Hdir2.
    destruct edit_path as [|x e]; [done|]. destruct data_path as [|y d]; [done|].
    cbn [FS.node_at]. subst s1. rewrite !lookup_insert_ne by congruence.
    rewrite Hedit, Hdata. by rewrite bool_decide_eq_false_2. }
  unfold respond, take_lock_and_copy, mbind, M_bind, branch, mret, M_ret, _ensure_dir,
    updating, FS.exists_, FS.is_dir.
  destruct data_path as [|y d]; [done|]. cbn [FS.node_at]. rewrite Hdata. cbn [negb].
  rewrite Hcheck, Hcreate, Hmk2.
  assert (Hd1 : s1 !! (y :: d) = Some (File content)).
  { subst s1. by rewrite lookup_insert_ne by congruence. }
  by rewrite Hd1, Hcopy.
Qed.

End OpenAgain.

(** A concrete file system is well formed when the check computes. *)
Lemma wf_decide (s : fs) :
  bool_decide (map_Forall (fun p _ => p <> [] /\ FS.is_dir s (Path.parent p) = true) s) = true ->
  FS.wf s.
Proof. intros H p n Hp. apply (bool_decide_eq_true_1 _) in H. by apply (H p n). Qed.

Lemma edit_open_again_witness :
  let lock_path := ["srv"; "users"; "u1"; "Storage"; "locks"; "notes"; "a.txt.lock"] in
  let edit_path := ["srv"; "users"; "u1"; "Storage"; "editzone"; "c1"; "notes"; "a.txt"] in
  demo_edited !! edit_path = Some (File "changed")
  /\ store_storage_edit_open (host:=RefHost.host) demo_valves (demo_now + 60000000)
       "notes/a.txt" (Some "u1") (Some "c1") demo_edited
     = (Success NoData,
        <[edit_path := File "hello"]>
          (<[lock_path := File (RefHost.dumps (JObj
               [("conv_id", JStr "c1"); ("user_id", JStr "u1");
                ("locked_at", JStr "2026-01-01T00:01:00+00:00");
                ("path", JStr "notes/a.txt")]))]> demo_edited)).
Proof.
  intros lock_path edit_path. split; [by vm_compute|].
  refine (edit_open_again (host:=RefHost.host) demo_valves "Storage" (demo_now + 60000000)
            "notes/a.txt" "notes/a.txt" (Some "u1") (Some "c1") demo_edited
            (RefHost.dumps (JObj demo_record)) "hello" "changed" demo_record
            _ _ _ _ _ _ _ _ _).
  - apply wf_decide. by vm_compute.
  - by left.
  - exact plain_c1.
  - reflexivity.
  - by vm_compute.
  - by vm_compute.
  - by vm_compute.
  - reflexivity.
  - by vm_compute.
Defined.


(** ** Writing *)

Section Writing.

Context {host : Host} (valves : Valves).

Lemma mkdir_from_same_files (todo above : path) (s s' : fs) :
  FS.mkdir_from s above todo = Some s' -> same_files s s'.
Proof.
  revert above s. induction todo as [|x todo IH]; intros above s H; cbn in H.
  - injection H as <-. by intros q c.
  - destruct (s !! (above ++ [x])) as [[|c']|] eqn:Hd; [by eapply IH|done|].
    intros q c. rewrite (IH _ _ H q c).
    destruct (decide (q = above ++ [x])) as [->|Hne].
    + rewrite lookup_insert_eq, Hd. split; discriminate.
    + by rewrite lookup_insert_ne.
Qed.

Lemma oversized (content : string) :
  max_file_size_mb valves * 1024 * 1024 < utf8_length content ->
  _validate_content_size valves content
  = raise QUOTA_EXCEEDED [("max_mb", JNum (max_file_size_mb valves))].
Proof.
  intros H. unfold _validate_content_size. apply Z.ltb_lt in H. by rewrite H.
Qed.

(** C7, amended: a write of content larger than the configured maximum
    writes nothing.  [store_storage_write] makes the data directory of
    the zone and fails with [QUOTA_EXCEEDED], and every regular file is as
    it was; [store_documents_write] prepares the repository and fails with
    [QUOTA_EXCEEDED]; a write to an edit zone fails with [QUOTA_EXCEEDED]
    when the edit zone of the conversation exists and with
    [ZONE_FORBIDDEN] when it does not, and leaves the file system as it
    is. *)
Theorem oversized_write_is_refused (path content : string) (append : bool)
    (message : string) (user meta : option string) (s : fs) :
  let user_root := _get_user_root valves user in
  let conv_id := _get_conv_id meta in
  let quota := mkError QUOTA_EXCEEDED [("max_mb", JNum (max_file_size_mb valves))] in
  max_file_size_mb valves * 1024 * 1024 < utf8_length content ->
  store_storage_write valves path content append user meta s
    = respond (_ensure_dir (Path.join (Path.join user_root "Storage") "data");;
               throw (A:=payload) QUOTA_EXCEEDED (details quota)) s
  /\ same_files s (store_storage_write valves path content append user meta s).2
  /\ store_documents_write valves path content append message user meta s
    = respond (_init_git_repo (Path.join (Path.join user_root "Documents") "data");;
               throw (A:=payload) QUOTA_EXCEEDED (details quota)) s
  /\ (forall zone_name,
        edit_write valves zone_name path content append user meta s
        = (Error (if FS.exists_ s (Path.join (Path.join (Path.join user_root zone_name)
                                                "editzone") conv_id)
                  then quota else mkError ZONE_FORBIDDEN []), s)).
Proof.
  intros user_root conv_id quota Hsize. pose proof (oversized content Hsize) as Hq.
  assert (Hstorage : store_storage_write valves path content append user meta s
    = respond (_ensure_dir (Path.join (Path.join user_root "Storage") "data");;
               throw (A:=payload) QUOTA_EXCEEDED (details quota)) s).
  { unfold store_storage_write, _ensure_dir. fold user_root. run. rewrite Hq.
    by destruct (FS.mkdir_p s _). }
  split; [exact Hstorage|]. split; [|split].
  - rewrite Hstorage. unfold _ensure_dir, FS.mkdir_p. run.
    destruct (FS.mkdir_from s [] _) as [s'|] eqn:Hmk; cbn; [|by intros q c].
    by eapply mkdir_from_same_files.
  - unfold store_documents_write. fold user_root. run. rewrite Hq.
    by destruct (_init_git_repo _ s) as [[[]|[]] ?].
  - intros zone_name. unfold edit_write. fold user_root conv_id. run. rewrite Hq.
    by destruct (FS.exists_ s _).
Qed.

End Writing.

Lemma oversized_write_is_refused_witness :
  let written := store_storage_write tiny_valves "notes/a.txt" "x" false
                   (Some "u1") (Some "c1") demo_fs in
  written.1 = Error (mkError QUOTA_EXCEEDED [("max_mb", JNum 0)])
  /\ written.2 !! ["srv"; "users"; "u1"; "Storage"; "data"; "notes"; "a.txt"]
     = Some (File "hello").
Proof.
  intros written.
  destruct (oversized_write_is_refused (host:=RefHost.host) tiny_valves "notes/a.txt" "x"
              false "" (Some "u1") (Some "c1") demo_fs) as (Heq & Hfiles & _).
  { by vm_compute. }
  split.
  - subst written. rewrite Heq. by vm_compute.
  - apply Hfiles. by vm_compute.
Defined.

(** C7 fails for a write to an edit zone that does not exist: the
    content is too large and the error is [ZONE_FORBIDDEN]. *)
Lemma oversized_write_counterexample :
  max_file_size_mb tiny_valves * 1024 * 1024 < utf8_length "x"
  /\ (store_storage_edit_write tiny_valves "notes/a.txt" "x" false
        (Some "u1") (Some "c1") demo_fs).1
     = Error (mkError ZONE_FORBIDDEN []).
Proof. vm_compute. repeat split. Qed.


(** ** Maintenance *)

(** C4 does not hold for a directory that is open for editing.  [c1]
    opens the directory [proj]; one hour later, with locks that last 24
    hours, [store_maintenance] looks for the lock of the file
    [proj/b.txt] of the copy at [locks/proj/b.txt.lock], does not find it
    and removes the file as an orphan, and with it the emptied copy; the
    lock of [proj], [locks/proj.lock], is fresh and stays.  The scan of
    the edit zone then reads the directory that is gone, and the
    operation answers a plain failure in place of its report. *)
Theorem maintenance_removes_copy_under_fresh_lock :
  let opened := store_storage_edit_open (host:=RefHost.host) demo_valves demo_now
                  "proj" (Some "u1") (Some "c1") demo_fs in
  let later := demo_now + 3600 * 1000000 in
  let swept := store_maintenance (host:=RefHost.host) demo_valves later
                 (Some "u1") (Some "c1") opened.2 in
  let lock_path := ["srv"; "users"; "u1"; "Storage"; "locks"; "proj.lock"] in
  let copy := ["srv"; "users"; "u1"; "Storage"; "editzone"; "c1"; "proj"] in
  opened.1 = Success NoData
  /\ opened.2 !! copy = Some Dir
  /\ opened.2 !! (copy ++ ["b.txt"]) = Some (File "draft")
  /\ (text ← FS.read_text opened.2 lock_path; Ok (json_loads (Host:=RefHost.host) text))
     = Ok (Some (JObj [("conv_id", JStr "c1"); ("user_id", JStr "u1");
                       ("locked_at", JStr "2026-01-01T00:00:00+00:00");
                       ("path", JStr "proj")]))
  /\ fromisoformat (Host:=RefHost.host) "2026-01-01T00:00:00+00:00" = Aware demo_now
  /\ expired demo_valves later demo_now = false
  /\ swept.1 = Failure
  /\ swept.2 !! (copy ++ ["b.txt"]) = None
  /\ swept.2 !! copy = None
  /\ swept.2 !! lock_path = opened.2 !! lock_path.
Proof. vm_compute. repeat split. Qed.

(** A lock older than the maximum age goes, with the copy it names, and
    the report lists it. *)
Example maintenance_sweeps_expired_lock :
  let opened := store_storage_edit_open (host:=RefHost.host) demo_valves demo_now
                  "top.txt" (Some "u1") (Some "c1") demo_top in
  let later := demo_now + 25 * 3600 * 1000000 in
  let swept := store_maintenance (host:=RefHost.host) demo_valves later
                 (Some "u1") (Some "c2") opened.2 in
  swept.1 = Success (Cleaned ["Storage/top.txt"] [] [])
  /\ swept.2 !! ["srv"; "users"; "u1"; "Storage"; "locks"; "top.txt.lock"] = None
  /\ swept.2 !! ["srv"; "users"; "u1"; "Storage"; "editzone"; "c1"; "top.txt"] = None
  /\ swept.2 !! ["srv"; "users"; "u1"; "Storage"; "data"; "top.txt"] = Some (File "t").
Proof. vm_compute. repeat split. Qed.

(** When the lock is the last entry of its directory, the lock and the
    copy go in the same way, but the scan of the locks then reads the
    directory that went with the lock: the operation answers a plain
    failure. *)
Example maintenance_fails_after_emptied_directory :
  let opened := store_storage_edit_open (host:=RefHost.host) demo_valves demo_now
                  "notes/a.txt" (Some "u1") (Some "c1") demo_fs in
  let later := demo_now + 25 * 3600 * 1000000 in
  let swept := store_maintenance (host:=RefHost.host) demo_valves later
                 (Some "u1") (Some "c2") opened.2 in
  swept.1 = Failure
  /\ swept.2 !! ["srv"; "users"; "u1"; "Storage"; "locks"; "notes"; "a.txt.lock"] = None
  /\ swept.2 !! ["srv"; "users"; "u1"; "Storage"; "locks"; "notes"] = None
  /\ swept.2 !! ["srv"; "users"; "u1"; "Storage"; "editzone"; "c1"; "notes"; "a.txt"] = None
  /\ swept.2 !! ["srv"; "users"; "u1"; "Storage"; "data"; "notes"; "a.txt"]
     = Some (File "hello").
Proof. vm_compute. repeat split. Qed.

(** With two expired locks in two directories, one call removes one of
    them, fails on the directory that went with it, and leaves the
    other, whichever the scan meets first. *)
Example maintenance_leaves_an_expired_lock :
  let first := store_storage_edit_open (host:=RefHost.host) demo_valves demo_now
                 "notes/a.txt" (Some "u1") (Some "c1") demo_fs in
  let second := store_storage_edit_open (host:=RefHost.host) demo_valves demo_now
                  "proj/b.txt" (Some "u1") (Some "c1") first.2 in
  let later := demo_now + 25 * 3600 * 1000000 in
  let swept := store_maintenance (host:=RefHost.host) demo_valves later
                 (Some "u1") (Some "c2") second.2 in
  let lock_a := ["srv"; "users"; "u1"; "Storage"; "locks"; "notes"; "a.txt.lock"] in
  let lock_b := ["srv"; "users"; "u1"; "Storage"; "locks"; "proj"; "b.txt.lock"] in
  second.1 = Success NoData
  /\ swept.1 = Failure
  /\ (swept.2 !! lock_a = None /\ swept.2 !! lock_b = second.2 !! lock_b
      \/ swept.2 !! lock_b = None /\ swept.2 !! lock_a = second.2 !! lock_a)
  /\ is_Some (second.2 !! lock_a) /\ is_Some (second.2 !! lock_b).
Proof. vm_compute. split; [done|]. split; [done|]. split; [by left|]. split; by eexists. Qed.

(** A file that is open, its lock fresh, stays. *)
Example maintenance_keeps_fresh_file :
  let opened := store_storage_edit_open (host:=RefHost.host) demo_valves demo_now
                  "notes/a.txt" (Some "u1") (Some "c1") demo_fs in
  let later := demo_now + 3600 * 1000000 in
  let swept := store_maintenance (host:=RefHost.host) demo_valves later
                 (Some "u1") (Some "c2") opened.2 in
  swept.1 = Success (Cleaned [] [] [])
  /\ swept.2 !! ["srv"; "users"; "u1"; "Storage"; "editzone"; "c1"; "notes"; "a.txt"]
     = Some (File "hello")
  /\ swept.2 !! ["srv"; "users"; "u1"; "Storage"; "locks"; "notes"; "a.txt.lock"]
     = opened.2 !! ["srv"; "users"; "u1"; "Storage"; "locks"; "notes"; "a.txt.lock"].
Proof. vm_compute. repeat split. Qed.

(** * Further properties *)

(** ** The command tables *)

Section Tables.

Lemma git_lists_disjoint (subcmd : string) :
  subcmd ∈ GIT_WHITELIST_READ ∪ GIT_WHITELIST_WRITE -> subcmd ∉ GIT_BLACKLIST.
Proof.
  assert (H : bool_decide (GIT_BLACKLIST ## GIT_WHITELIST_READ ∪ GIT_WHITELIST_WRITE) = true).
  { vm_compute. reflexivity. }
  apply (bool_decide_eq_true_1 _) in H. intros Hw Hb. exact (H subcmd Hb Hw).
Qed.

Lemma whitelisted_not_blacklisted (cmd : string) :
  cmd ∈ WHITELIST_READWRITE -> cmd ∉ BLACKLIST_COMMANDS.
Proof.
  assert (H : bool_decide (WHITELIST_READWRITE ## BLACKLIST_COMMANDS) = true).
  { vm_compute. reflexivity. }
  apply (bool_decide_eq_true_1 _) in H. intros Hw Hb. exact (H cmd Hw Hb).
Qed.

Lemma readonly_is_readwrite (cmd : string) :
  cmd ∈ WHITELIST_READONLY -> cmd ∈ WHITELIST_READWRITE.
Proof. intros H. unfold WHITELIST_READWRITE. apply elem_of_union. left. exact H. Qed.

Lemma git_is_not_readonly : "git" ∉ WHITELIST_READONLY.
Proof.
  assert (H : bool_decide ("git" ∈ WHITELIST_READONLY) = false).
  { vm_compute. reflexivity. }
  exact (bool_decide_eq_false_1 _ H).
Qed.

End Tables.

(** ** More on the validators *)

Section Timeouts.

Context (valves : Valves).

(** With a maximum of at least one second, the timeout that a command
    runs with lies between 1 and the maximum; a request in that range is
    kept, a smaller one becomes 1 and a larger one the maximum. *)
Theorem clamp_timeout_bounds (timeout : Z) :
  1 <= exec_timeout_max valves ->
  1 <= _clamp_timeout valves timeout <= exec_timeout_max valves
  /\ (1 <= timeout <= exec_timeout_max valves -> _clamp_timeout valves timeout = timeout)
  /\ (timeout < 1 -> _clamp_timeout valves timeout = 1)
  /\ (exec_timeout_max valves < timeout ->
      _clamp_timeout valves timeout = exec_timeout_max valves).
Proof. unfold _clamp_timeout. lia. Qed.

End Timeouts.

Lemma clamp_timeout_bounds_witness :
  1 <= _clamp_timeout default_valves 86400 <= 300.
Proof.
  apply (clamp_timeout_bounds default_valves 86400). cbn. lia.
Defined.

Section GitPolicy.

(** [_validate_git_command] accepts the argument lists that start with a
    subcommand of one of the two Git whitelists, and no other: the
    blacklist has nothing in common with them.  A list without a
    subcommand is refused with [ARGUMENT_FORBIDDEN], every other refused
    list with [COMMAND_FORBIDDEN]. *)
Theorem validate_git_command_spec (args : list string) :
  (_validate_git_command args = Ok tt
   <-> exists subcmd rest,
         args = subcmd :: rest /\ subcmd ∈ GIT_WHITELIST_READ ∪ GIT_WHITELIST_WRITE)
  /\ (forall e, _validate_git_command args = Raise e ->
        exists err, e = Storage err
          /\ code err = match args with [] => ARGUMENT_FORBIDDEN | _ => COMMAND_FORBIDDEN end).
Proof.
  destruct args as [|subcmd rest]; cbn.
  - split; [split; [done|by intros (? & ? & ? & _)]|]. intros e [= <-]. by eexists.
  - destruct (decide (subcmd ∈ GIT_BLACKLIST)) as [Hb|Hb].
    { rewrite bool_decide_eq_true_2 by done.
      split; [|intros e [= <-]; by eexists].
      split; [done|]. intros (? & ? & [= <- <-] & Hw). by apply git_lists_disjoint in Hw. }
    rewrite bool_decide_eq_false_2 by done.
    destruct (decide (subcmd ∈ GIT_WHITELIST_READ)) as [Hr|Hr].
    { rewrite (bool_decide_eq_true_2 _ Hr). cbn.
      split; [|done]. split; [|done]. intros _. exists subcmd, rest.
      split; [done|]. apply elem_of_union. by left. }
    rewrite (bool_decide_eq_false_2 _ Hr). cbn.
    destruct (decide (subcmd ∈ GIT_WHITELIST_WRITE)) as [Hw|Hw].
    { rewrite (bool_decide_eq_true_2 _ Hw). cbn.
      split; [|done]. split; [|done]. intros _. exists subcmd, rest.
      split; [done|]. apply elem_of_union. by right. }
    rewrite (bool_decide_eq_false_2 _ Hw). cbn.
    split; [|intros e [= <-]; by eexists].
    split; [done|]. intros (? & ? & [= <- <-] & [?|?]%elem_of_union); done.
Qed.

End GitPolicy.

Section CommandPolicy.

(** As the operations call it, [_validate_command] accepts the commands
    of the whitelist it is given, no whitelisted command being on the
    blacklist; with the read-write whitelist, [git] is accepted when
    [_validate_git_command] accepts its arguments, and [git] is not a
    read-only command. *)
Theorem validate_command_spec (cmd : string) (args : list string) :
  (_validate_command cmd WHITELIST_READONLY None = Ok tt <-> cmd ∈ WHITELIST_READONLY)
  /\ (_validate_command cmd WHITELIST_READWRITE (Some args) = Ok tt
      <-> cmd ∈ WHITELIST_READWRITE
          /\ (cmd = "git" -> _validate_git_command args = Ok tt))
  /\ (cmd ∈ WHITELIST_READONLY -> cmd <> "git").
Proof.
  pose proof (whitelisted_not_blacklisted cmd) as Hrw.
  pose proof (readonly_is_readwrite cmd) as Hro.
  pose proof git_is_not_readonly as Hgit.
  unfold _validate_command. revert Hrw Hro Hgit.
  generalize WHITELIST_READWRITE as rw, WHITELIST_READONLY as ro,
    BLACKLIST_COMMANDS as bl.
  intros rw ro bl Hrw Hro Hgit. split; [|split].
  - destruct (decide (cmd ∈ ro)) as [Hw|Hw].
    + rewrite (bool_decide_eq_false_2 (cmd ∈ bl)) by auto.
      by rewrite (bool_decide_eq_true_2 _ Hw).
    + rewrite (bool_decide_eq_false_2 _ Hw). by case_bool_decide.
  - destruct (decide (cmd ∈ rw)) as [Hw|Hw].
    + rewrite (bool_decide_eq_false_2 (cmd ∈ bl)) by auto.
      rewrite (bool_decide_eq_true_2 _ Hw). cbn [negb]. unfold Str.eqb.
      case_bool_decide as Hcmd.
      * split; [by split|]. intros [_ H]. by apply H.
      * split; [by split|done].
    + rewrite (bool_decide_eq_false_2 _ Hw). case_bool_decide; cbn; split; try done;
        by intros [? _].
  - by intros Hw ->.
Qed.

End CommandPolicy.

Section PathArguments.

Lemma split_head_prefix (s w : string) (ws : list string) :
  Str.split "/" s = w :: ws -> Str.startswith w s = true.
Proof.
  revert w ws. induction s as [|c s IH]; intros w ws; cbn [Str.split].
  - by intros [= <- <-].
  - destruct (Ascii.eqb c "/") eqn:Hc; [by intros [= <- <-]|].
    destruct (Str.split "/" s) as [|w0 ws0] eqn:Hs; intros [= <- <-]; cbn;
      rewrite Ascii.eqb_refl; [done|]. by apply (IH _ _ eq_refl).
Qed.

Lemma dotdot_in_split (s : string) :
  ".." ∈ Str.split "/" s -> Str.contains ".." s = true.
Proof.
  induction s as [|c s IH]; cbn [Str.split].
  - intros H. apply list_elem_of_singleton in H. discriminate.
  - change (Str.contains ".." (String c s))
      with (Str.startswith ".." (String c s) || Str.contains ".." s).
    destruct (Ascii.eqb c "/") eqn:Hc.
    + intros [H|H]%elem_of_cons; [discriminate|]. rewrite (IH H). apply orb_true_r.
    + destruct (Str.split "/" s) as [|w0 ws0] eqn:Hs.
      * intros [H|H]%elem_of_cons; [discriminate|inversion H].
      * intros [H|H]%elem_of_cons.
        -- injection H as <- <-. apply split_head_prefix in Hs.
           apply orb_true_intro. left. cbn in *. by rewrite Ascii.eqb_refl.
        -- rewrite IH; [apply orb_true_r|by right].
Qed.

Lemma normalize_down (stack todo : path) :
  ".." ∉ todo -> Path.normalize stack todo = stack ++ todo.
Proof.
  revert stack. induction todo as [|x todo IH]; intros stack H; cbn.
  - by rewrite app_nil_r.
  - apply not_elem_of_cons in H as [Hx H]. unfold Str.eqb.
    rewrite bool_decide_eq_false_2 by congruence.
    rewrite IH by done. by rewrite <- app_assoc.
Qed.

Lemma check_path_args_sound (args : list string) (chroot : path) :
  match check_path_args args chroot with
  | Ok _ =>
      Forall (fun arg =>
                Str.startswith "/" arg = false
                /\ Path.is_under (Path.resolve chroot)
                     (Path.resolve (Path.join chroot arg)) = true) args
  | Raise e =>
      exists err arg, e = Storage err /\ code err = PATH_ESCAPE /\ arg ∈ args
        /\ dict_get (details err) "path" = Some (JStr arg)
  end.
Proof.
  induction args as [|arg args IH]; cbn [check_path_args]; [done|].
  destruct (Str.startswith "/" arg) eqn:Habs.
  { eexists _, arg. split; [reflexivity|]. split; [reflexivity|]. split; [by left|].
    reflexivity. }
  destruct (Str.contains ".." arg) eqn:Hdots; cbn [andb].
  - destruct (stays_inside chroot arg) eqn:Hunder; cbn [negb].
    + assert (Hin : Path.is_under (Path.resolve chroot)
                      (Path.resolve (Path.join chroot arg)) = true).
      { unfold stays_inside, Path.resolve_joined in Hunder.
        by destruct (Str.contains Path.NUL arg). }
      destruct (check_path_args args chroot) as [[]|e].
      * by constructor.
      * destruct IH as (err & a & -> & Hc & Ha & Hd). exists err, a.
        split; [done|]. split; [done|]. split; [by right|done].
    + eexists _, arg. split; [reflexivity|]. split; [reflexivity|]. split; [by left|].
      reflexivity.
  - assert (Hin : Path.is_under (Path.resolve chroot)
                    (Path.resolve (Path.join chroot arg)) = true).
    { rewrite join_relative by done. unfold Path.resolve. rewrite normalize_app.
      rewrite (normalize_down _ (Path.segments arg)); [apply is_under_app|].
      intros Hin. unfold Path.segments in Hin.
      apply list_elem_of_In, filter_In in Hin as [Hin _].
      apply list_elem_of_In, dotdot_in_split in Hin. congruence. }
    destruct (check_path_args args chroot) as [[]|e].
    + by constructor.
    + destruct IH as (err & a & -> & Hc & Ha & Hd). exists err, a.
      split; [done|]. split; [done|]. split; [by right|done].
Qed.

(** [_validate_path_args] returns the arguments it is given, and then
    none of them starts with [/] and each of them, taken as a path from
    the chroot, ends at the chroot or below it.  What it raises is a
    [PATH_ESCAPE] that names one of the arguments. *)
Theorem validate_path_args_sound (args : list string) (chroot : path) :
  match _validate_path_args args chroot with
  | Ok safe_args =>
      safe_args = args
      /\ Forall (fun arg =>
                   Str.startswith "/" arg = false
                   /\ Path.is_under (Path.resolve chroot)
                        (Path.resolve (Path.join chroot arg)) = true) args
  | Raise e =>
      exists err arg, e = Storage err /\ code err = PATH_ESCAPE /\ arg ∈ args
        /\ dict_get (details err) "path" = Some (JStr arg)
  end.
Proof.
  unfold _validate_path_args. pose proof (check_path_args_sound args chroot) as H.
  destruct (check_path_args args chroot) as [[]|e]; cbn; [by split|done].
Qed.

End PathArguments.

Section CleanPaths.

Lemma lstrip_relative (s : string) :
  Str.startswith "/" s = false -> Str.lstrip "/" s = s.
Proof.
  destruct s as [|c s]; [done|]. cbn. rewrite andb_true_r, Ascii.eqb_sym. by intros ->.
Qed.

Lemma resolve_parts_down (path : string) (parts todo : list string) :
  Forall plain todo -> resolve_parts path parts todo = Ok (parts ++ todo).
Proof.
  revert parts. induction todo as [|x todo IH]; intros parts H; cbn [resolve_parts].
  - by rewrite app_nil_r.
  - inversion H as [|? ? (_ & Hk & Hup) Htodo]; subst. rewrite Hup.
    unfold Path.keep in Hk. rewrite Hk, IH by done. by rewrite <- app_assoc.
Qed.

(** The cleaned path that [_validate_relative_path] returns is a fixed
    point of it: its components are plain names, it is these names
    joined by [/], and validating it again returns it. *)
Theorem validate_relative_path_idempotent (path p : string) :
  _validate_relative_path path = Ok p ->
  _validate_relative_path p = Ok p
  /\ Forall plain (Path.segments p)
  /\ p = Str.join "/" (Path.segments p).
Proof.
  intros H. destruct (validated_relative _ _ H) as [Hrel _]. revert H.
  unfold _validate_relative_path at 1. rewrite lstrip_not_absolute.
  destruct (resolve_parts _ [] _) as [parts|e] eqn:Hparts; [|discriminate].
  cbn. intros [= Hp].
  assert (Hplain : Forall plain parts).
  { eapply resolve_parts_plain; [apply split_no_separator|constructor|exact Hparts]. }
  unfold _validate_relative_path. rewrite (lstrip_relative p Hrel), Hrel.
  destruct parts as [|w parts]; [by subst p|].
  change (Str.join "/" (w :: parts) = p) in Hp.
  assert (Hsplit : Str.split "/" p = w :: parts).
  { rewrite <- Hp. by apply split_join. }
  assert (Hseg : Path.segments p = w :: parts).
  { unfold Path.segments. rewrite Hsplit. by apply filter_keep_plain. }
  rewrite Hsplit, Hseg, resolve_parts_down by done.
  split; [|by split]. change (Ok (Str.join "/" (w :: parts)) = Ok p). by rewrite Hp.
Qed.

End CleanPaths.

Lemma validate_relative_path_idempotent_witness :
  _validate_relative_path "/docs/./old/../a.txt" = Ok "docs/a.txt"
  /\ _validate_relative_path "docs/a.txt" = Ok "docs/a.txt".
Proof.
  split; [reflexivity|].
  apply (validate_relative_path_idempotent "/docs/./old/../a.txt" "docs/a.txt").
  reflexivity.
Defined.

(** ** Locks *)

Section Locks.

Context {host : Host} (valves : Valves).

(** [_check_lock] reads and never writes.  It passes when there is no
    lock file, and the only [StorageError] it raises is [FILE_LOCKED],
    for a lock file that holds a JSON object whose [conv_id] is not the
    caller's; the error names that [conv_id]. *)
Theorem check_lock_spec (lock_path : path) (conv_id : string) (s : fs) :
  let r := _check_lock lock_path conv_id s in
  r.2 = s
  /\ (FS.exists_ s lock_path = false -> r.1 = Ok tt)
  /\ (forall e, r.1 = Raise (Storage e) ->
        code e = FILE_LOCKED
        /\ exists text lock_data,
             FS.read_text s lock_path = Ok text
             /\ json_loads text = Some (JObj lock_data)
             /\ dict_get lock_data "conv_id" <> Some (JStr conv_id)
             /\ dict_get (details e) "locked_by" = Some (lock_value lock_data "conv_id")).
Proof.
  unfold _check_lock, when_exists, branch, reading, mbind, M_bind, mret, M_ret, throw,
    fail_other. cbv zeta.
  destruct (FS.exists_ s lock_path); [|by cbn].
  destruct (FS.read_text s lock_path) as [text|err] eqn:Hread.
  2: { unfold FS.read_text in Hread.
       by destruct (FS.node_at s lock_path) as [[|c]|]; try discriminate;
         injection Hread as <-. }
  destruct (json_loads text) as [[| | | | |lock_data]|] eqn:Hjson; try by cbn.
  destruct (is_str (dict_get lock_data "conv_id") conv_id) eqn:Hown; cbn; [done|].
  split; [done|]. split; [done|]. intros e [= <-]. split; [done|].
  exists text, lock_data. split; [done|]. split; [done|]. split; [|done].
  intros Heq. rewrite Heq in Hown. cbn in Hown. unfold Str.eqb in Hown.
  by rewrite bool_decide_eq_true_2 in Hown.
Qed.

Lemma create_lock_writes (now : Z) (lock_path : path) (conv_id user_id p : string)
    (s : fs) :
  let r := _create_lock now lock_path conv_id user_id p s in
  r.1 = Ok tt ->
  lock_path <> []
  /\ r.2 !! lock_path = Some (File (json_dumps (lock_record now conv_id user_id p))).
Proof.
  unfold _create_lock, _ensure_dir, updating, mbind, M_bind. cbv zeta.
  destruct (FS.mkdir_p s _) as [s1|e]; [|done]. unfold FS.write_text.
  destruct (FS.is_dir s1 _); [|done].
  destruct lock_path as [|x l]; [done|]. cbn [FS.node_at].
  destruct (s1 !! (x :: l)) as [[|c]|]; [done| |]; cbn; intros _;
    by rewrite lookup_insert_eq.
Qed.

Lemma dict_get_head (key : string) (v : json) (rest : list (string * json)) :
  dict_get ((key, v) :: rest) key = Some v.
Proof. cbn. unfold Str.eqb. by rewrite bool_decide_eq_true_2. Qed.

Lemma check_lock_record (now : Z) (lock_path : path) (owner user_id p conv_id : string)
    (s : fs) :
  json_loads (json_dumps (lock_record now owner user_id p))
    = Some (lock_record now owner user_id p) ->
  lock_path <> [] ->
  s !! lock_path = Some (File (json_dumps (lock_record now owner user_id p))) ->
  _check_lock lock_path conv_id s
  = (if decide (conv_id = owner) then Ok tt
     else Raise (Storage (locked_by now owner p)), s).
Proof.
  intros Hjson Hne Hlock.
  assert (Hread : FS.read_text s lock_path
                  = Ok (json_dumps (lock_record now owner user_id p))).
  { unfold FS.read_text. destruct lock_path; [done|]. cbn. by rewrite Hlock. }
  destruct (decide (conv_id = owner)) as [->|Hother].
  - unfold _check_lock, when_exists, branch, reading, mbind, M_bind.
    assert (Hex : FS.exists_ s lock_path = true).
    { unfold FS.exists_. destruct lock_path; [done|]. cbn. by rewrite Hlock. }
    rewrite Hex, Hread, Hjson. unfold lock_record. cbv beta iota.
    rewrite dict_get_head. unfold is_str, Str.eqb. by rewrite bool_decide_eq_true_2.
  - by rewrite (check_lock_other lock_path conv_id _ owner _ s Hread Hjson eq_refl).
Qed.

(** The lock that [_create_lock] has written, read back by the host's
    JSON codec as it was written, lets its owner pass [_check_lock] and
    stops every other conversation with [FILE_LOCKED]; the error names
    the owner, the time of the lock and the path. *)
Theorem created_lock_excludes (now : Z) (lock_path : path)
    (conv_id user_id p other : string) (s : fs) :
  let created := _create_lock now lock_path conv_id user_id p s in
  json_loads (json_dumps (lock_record now conv_id user_id p))
    = Some (lock_record now conv_id user_id p) ->
  created.1 = Ok tt ->
  other <> conv_id ->
  _check_lock lock_path conv_id created.2 = (Ok tt, created.2)
  /\ _check_lock lock_path other created.2
     = (Raise (Storage (locked_by now conv_id p)), created.2).
Proof.
  intros created Hjson Hok Hother.
  destruct (create_lock_writes now lock_path conv_id user_id p s Hok) as [Hne Hlock].
  fold created in Hlock. split.
  - rewrite (check_lock_record now lock_path conv_id user_id p conv_id) by done.
    by rewrite decide_True.
  - rewrite (check_lock_record now lock_path conv_id user_id p other) by done.
    by rewrite decide_False.
Qed.

Lemma bind_ok {A B : Type} (m : M A) (k : A -> M B) (s s1 : fs) (a : A) :
  m s = (Ok a, s1) -> (m ≫= k) s = k a s1.
Proof. unfold mbind, M_bind. by intros ->. Qed.

Lemma bind_raise {A B : Type} (m : M A) (k : A -> M B) (s s1 : fs) (e : exn) :
  m s = (Raise e, s1) -> (m ≫= k) s = (Raise e, s1).
Proof. unfold mbind, M_bind. by intros ->. Qed.

(** What [take_lock_and_copy] leaves in the lock file. *)
Lemma take_lock_and_copy_lock (now : Z) (data_path lock_path edit_path : path)
    (conv_id user_id p : string) (s : fs) (d : payload) :
  apart edit_path lock_path ->
  let r := take_lock_and_copy now data_path lock_path edit_path conv_id user_id p s in
  r.1 = Ok d ->
  lock_path <> []
  /\ r.2 !! lock_path = Some (File (json_dumps (lock_record now conv_id user_id p))).
Proof.
  intros Hap. unfold take_lock_and_copy. cbv zeta.
  pose proof (create_lock_writes now lock_path conv_id user_id p s) as Hc.
  destruct (_create_lock now lock_path conv_id user_id p s) as [[[]|e] s1] eqn:Hcr.
  2: { by rewrite (bind_raise _ _ _ _ _ Hcr). }
  rewrite (bind_ok _ _ _ _ _ Hcr).
  destruct (Hc eq_refl) as [Hne Hlock]. cbn in Hlock. intros Hok. split; [done|].
  rewrite <- Hlock.
  assert (Hkeep : keeps (unchanged_below lock_path)
            (_ensure_dir (Path.parent edit_path);;
             branch (fun s => FS.is_dir s data_path)
               (updating (fun s => FS.copytree s data_path edit_path))
               (updating (fun s => FS.copy2 s data_path edit_path));;
             mret NoData)).
  { keeping keeps_bind; [|intros _].
    { apply ensure_dir_unchanged, parent_not_under, Hap. }
    keeping keeps_bind; [|intros _; keeping keeps_ret].
    keeping keeps_branch; keeping keeps_updating; intros s2 s3.
    - by apply copytree_unchanged.
    - by apply copy2_unchanged. }
  apply (Hkeep s1), is_under_refl.
Qed.

(** Where the directories and the files of a zone are. *)
Lemma zone_layout (zone_name path p conv_id : string) (user : option string) :
  is_zone zone_name -> plain conv_id -> _validate_relative_path path = Ok p ->
  let zone_root := Path.join (_get_user_root valves user) zone_name in
  let zone := _get_user_root valves user ++ [zone_name] in
  zone_root = zone
  /\ Path.join zone_root "data" = zone ++ ["data"]
  /\ Path.join zone_root "locks" = zone ++ ["locks"]
  /\ Path.join zone_root "editzone" = zone ++ ["editzone"]
  /\ Path.join (Path.join zone_root "data") p = zone ++ "data" :: Path.segments p
  /\ _get_lock_path zone_root p = zone ++ "locks" :: Path.segments (p +:+ ".lock")
  /\ _get_editzone_path zone_root conv_id p
     = zone ++ "editzone" :: conv_id :: Path.segments p.
Proof.
  intros Hzone Hconv Hp zone_root zone.
  destruct (validated_relative _ _ Hp) as [Hrel Hlock].
  assert (Hz : zone_root = zone) by (by destruct Hzone as [-> | ->]).
  rewrite Hz. split; [done|]. split; [done|]. split; [done|]. split; [done|].
  split; [|split].
  - change (Path.join zone "data") with (zone ++ ["data"]).
    by rewrite join_relative, <- app_assoc.
  - unfold _get_lock_path. change (Path.join zone "locks") with (zone ++ ["locks"]).
    by rewrite join_relative, <- app_assoc.
  - unfold _get_editzone_path.
    change (Path.join zone "editzone") with (zone ++ ["editzone"]).
    rewrite (join_relative _ p), (join_plain _ conv_id) by done.
    by rewrite <- !app_assoc.
Qed.

Lemma bind_success {A B : Type} (m : M A) (k : A -> M B) (s s2 : fs) (b : B) :
  (m ≫= k) s = (Ok b, s2) -> exists a s1, m s = (Ok a, s1) /\ k a s1 = (Ok b, s2).
Proof.
  unfold mbind, M_bind. destruct (m s) as [[a|e] s1]; [|done]. intros H. by exists a, s1.
Qed.

Lemma respond_success (m : M payload) (s : fs) (d : payload) :
  (respond m s).1 = Success d -> m s = (Ok d, (respond m s).2).
Proof. unfold respond. destruct (m s) as [[d0|[e|]] s1]; try done. by intros [= ->]. Qed.

(** Mutual exclusion.  Once a conversation has opened a path for
    editing, in Storage or in Documents, and the host's JSON codec reads
    the lock record back as it was written, the [edit_open] of the same
    path by any other conversation of the user fails with [FILE_LOCKED],
    names the owner and changes nothing. *)
Theorem edit_open_excludes_others (zone_name : string) (now later : Z) (path p : string)
    (user meta other_meta : option string) (s : fs) (d : payload) :
  let opened := edit_open valves zone_name now path user meta s in
  is_zone zone_name -> plain (_get_conv_id meta) ->
  _validate_relative_path path = Ok p ->
  json_loads (json_dumps (lock_record now (_get_conv_id meta) (user_id_of user) p))
    = Some (lock_record now (_get_conv_id meta) (user_id_of user) p) ->
  opened.1 = Success d ->
  _get_conv_id other_meta <> _get_conv_id meta ->
  edit_open valves zone_name later path user other_meta opened.2
  = (Error (locked_by now (_get_conv_id meta) p), opened.2).
Proof.
  intros opened Hzone Hconv Hp Hjson Hok Hother.
  destruct (zone_layout zone_name path p _ user Hzone Hconv Hp)
    as (_ & Hd & _ & _ & Hdata & Hlock & Hedit).
  pose proof (edit_open_unchanged valves zone_name now path user meta s Hzone Hconv) as Hsame.
  fold opened in Hsame.
  set (zone_root := Path.join (_get_user_root valves user) zone_name) in *.
  set (zone := _get_user_root valves user ++ [zone_name]) in *.
  set (data_path := Path.join (Path.join zone_root "data") p) in *.
  set (lock_path := _get_lock_path zone_root p) in *.
  set (edit_path := _get_editzone_path zone_root (_get_conv_id meta) p) in *.
  assert (Hap : apart edit_path lock_path).
  { rewrite Hedit, Hlock. by apply apart_siblings. }
  assert (Hunder : Path.is_under (Path.join zone_root "data") data_path = true).
  { rewrite Hd, Hdata.
    change (zone ++ "data" :: Path.segments p) with (zone ++ ["data"] ++ Path.segments p).
    rewrite app_assoc. apply is_under_app. }
  assert (Hopen : FS.exists_ s data_path = true
                  /\ opened.2 !! lock_path
                     = Some (File (json_dumps (lock_record now (_get_conv_id meta)
                                                 (user_id_of user) p)))).
  { subst opened. revert Hok.
    rewrite (edit_open_steps valves zone_name now path p user meta s Hp).
    fold zone_root data_path lock_path edit_path.
    intros Hok. apply respond_success in Hok. set (final := (respond _ s).2) in *.
    apply bind_success in Hok as ([] & s1 & Hfound & Hrest).
    apply bind_success in Hrest as ([] & s2 & Hcheck & Htake).
    unfold branch, throw, mret, M_ret in Hfound.
    destruct (FS.exists_ s data_path); cbn in Hfound; [|done]. injection Hfound as <-.
    pose proof (check_lock_same lock_path (_get_conv_id meta) s) as Hs2.
    rewrite Hcheck in Hs2. cbn in Hs2. subst s2. split; [done|].
    pose proof (take_lock_and_copy_lock now data_path lock_path edit_path
                  (_get_conv_id meta) (user_id_of user) p s d Hap) as Hl.
    rewrite Htake in Hl. by apply Hl. }
  destruct Hopen as [Hex Hrecord].
  assert (Hex' : FS.exists_ opened.2 data_path = true).
  { unfold FS.exists_ in *. destruct data_path as [|x l] eqn:Hdp; [done|].
    cbn [FS.node_at] in *. by rewrite (Hsame _ Hunder). }
  rewrite (edit_open_steps valves zone_name later path p user other_meta opened.2 Hp).
  fold zone_root data_path lock_path.
  assert (Hlne : lock_path <> []) by (rewrite Hlock; by destruct zone).
  pose proof (check_lock_record now lock_path (_get_conv_id meta) (user_id_of user) p
                (_get_conv_id other_meta) opened.2 Hjson Hlne Hrecord) as Hcheck.
  rewrite decide_False in Hcheck by done.
  unfold respond. rewrite (bind_ok _ _ opened.2 opened.2 tt).
  - by rewrite (bind_raise _ _ _ _ _ Hcheck).
  - unfold branch. by rewrite Hex'.
Qed.

End Locks.

Lemma created_lock_excludes_witness :
  let lock_path := ["srv"; "users"; "u1"; "Storage"; "locks"; "notes"; "a.txt.lock"] in
  let created := _create_lock (host:=RefHost.host) demo_now lock_path "c1" "u1"
                   "notes/a.txt" demo_fs in
  created.1 = Ok tt
  /\ _check_lock (host:=RefHost.host) lock_path "c1" created.2 = (Ok tt, created.2)
  /\ _check_lock (host:=RefHost.host) lock_path "c2" created.2
     = (Raise (Storage (locked_by (host:=RefHost.host) demo_now "c1" "notes/a.txt")),
        created.2).
Proof.
  intros lock_path created.
  assert (Hok : created.1 = Ok tt) by (vm_compute; reflexivity).
  split; [exact Hok|].
  apply (created_lock_excludes (host:=RefHost.host) demo_now lock_path "c1" "u1"
           "notes/a.txt" "c2" demo_fs); [vm_compute; reflexivity|exact Hok|discriminate].
Defined.

Lemma edit_open_excludes_others_witness :
  store_documents_edit_open (host:=RefHost.host) demo_valves (demo_now + 1000000)
    "notes/a.txt" (Some "u1") (Some "c2") demo_documents_locked
  = (Error (locked_by (host:=RefHost.host) demo_now "c1" "notes/a.txt"),
     demo_documents_locked).
Proof.
  refine (edit_open_excludes_others (host:=RefHost.host) demo_valves "Documents" demo_now
            (demo_now + 1000000) "notes/a.txt" "notes/a.txt" (Some "u1") (Some "c1")
            (Some "c2") demo_documents NoData _ _ _ _ _ _).
  - by right.
  - exact plain_c1.
  - reflexivity.
  - vm_compute. reflexivity.
  - vm_compute. reflexivity.
  - discriminate.
Defined.

(** ** Steps that raise no [StorageError] *)

Section QuietSteps.

Context {host : Host}.

Lemma quiet_harmless {A : Type} (m : M A) : quiet m -> harmless m.
Proof. intros H s e He. by destruct (H s e). Qed.

Lemma harmless_bind {A B : Type} (m : M A) (k : A -> M B) :
  (forall s, (m s).2 = s) -> (forall a, harmless (k a)) -> harmless (m ≫= k).
Proof.
  intros Hm Hk s e. unfold mbind, M_bind. specialize (Hm s).
  destruct (m s) as [[a|e'] s1]; cbn in Hm; subst s1; [apply Hk|done].
Qed.

Lemma harmless_respond (m : M payload) : harmless m -> atomic (respond m).
Proof.
  intros H s e. unfold respond. specialize (H s).
  destruct (m s) as [[d|[e'|]] s1]; try done. intros _. by apply (H e').
Qed.

Lemma found_same (p : path) (c : error_code) (d : list (string * json)) (s : fs) :
  (branch (fun s => negb (FS.exists_ s p)) (throw (A:=unit) c d) (mret tt) s).2 = s.
Proof. unfold branch. by destruct (negb _). Qed.

Lemma quiet_modifying (f : fs -> fs) : quiet (modifying f).
Proof. by intros s e. Qed.

Lemma quiet_reading {A : Type} (f : fs -> A) : quiet (reading (fun s => Ok (f s))).
Proof. by intros s e. Qed.

Lemma quiet_fail_other {A : Type} : quiet (fail_other (A:=A)).
Proof. by intros s e. Qed.

Lemma quiet_when_exists (p : path) (m : M unit) : quiet m -> quiet (when_exists p m).
Proof. intros H. apply quiet_branch; [done|apply quiet_ret]. Qed.

Lemma quiet_for_each {A B : Type} (xs : list A) (body : A -> B -> M B) (acc : B) :
  (forall x b, quiet (body x b)) -> quiet (for_each xs body acc).
Proof.
  intros H. revert acc. induction xs as [|x xs IH]; intros acc; [apply quiet_ret|].
  apply quiet_bind; [apply H|]. intros b. apply IH.
Qed.

Lemma unlink_quiet (p : path) (s : fs) (e : StorageError) :
  FS.unlink s p <> Raise (Storage e).
Proof. unfold FS.unlink. by destruct (FS.node_at s p) as [[|c]|]. Qed.

Lemma quiet_ensure_dir (p : path) : quiet (_ensure_dir p).
Proof. apply quiet_updating. intros s e. apply mkdir_p_quiet. Qed.

Lemma quiet_remove (p : path) :
  quiet (branch (fun s => FS.is_dir s p)
           (modifying (fun s => FS.rmtree s p))
           (updating (fun s => FS.unlink s p))).
Proof.
  apply quiet_branch; [apply quiet_modifying|].
  apply quiet_updating. intros s e. apply unlink_quiet.
Qed.

Lemma quiet_copy (src dst : path) :
  quiet (branch (fun s => FS.is_dir s src)
           (updating (fun s => FS.copytree s src dst))
           (updating (fun s => FS.copy2 s src dst))).
Proof.
  apply quiet_branch; apply quiet_updating; intros s e;
    [apply copytree_quiet|apply copy2_quiet].
Qed.

Lemma quiet_rm_with_empty_parents (filepath stop_at : path) :
  quiet (_rm_with_empty_parents filepath stop_at).
Proof.
  unfold _rm_with_empty_parents. apply quiet_bind; [|intros _; apply quiet_modifying].
  apply quiet_when_exists, quiet_remove.
Qed.

Lemma quiet_run_quietly (argv : list string) (cwd : path) : quiet (run_quietly argv cwd).
Proof.
  intros s e. unfold run_quietly.
  by destruct (subprocess_run argv cwd None s) as [[] ?].
Qed.

Lemma quiet_git_commit (repo_path : path) (message : string) :
  quiet (_git_commit repo_path message).
Proof.
  unfold _git_commit. apply quiet_bind; [|intros _]; apply quiet_run_quietly.
Qed.

End QuietSteps.

(** Proves that a sequence of steps raises no [StorageError]. *)
Ltac quietly :=
  repeat first
    [ apply quiet_ret | apply quiet_ensure_dir | apply quiet_remove | apply quiet_copy
    | apply quiet_rm_with_empty_parents | apply quiet_run_quietly | apply quiet_git_commit
    | apply quiet_modifying | apply quiet_fail_other | apply quiet_reading
    | apply quiet_when_exists | apply quiet_branch | apply quiet_for_each; intros
    | apply quiet_bind; [|intros] ].

(** ** Refusals that change nothing *)

Section Refusals.

Context {host : Host} (valves : Valves).

(** A delete that answers with a [StorageError] has changed nothing, in
    Storage, in Uploads and in Documents: the checks that raise one come
    before the first change, and what follows raises other exceptions
    only; in Documents, [git] has not been run. *)
Theorem failed_delete_changes_nothing (path message : string) (user meta : option string) :
  atomic (store_storage_delete valves path user meta)
  /\ atomic (store_uploads_delete valves path user meta)
  /\ atomic (store_documents_delete valves path message user meta).
Proof.
  repeat split; apply harmless_respond, harmless_bind; try done; intros target;
    (apply harmless_bind; [intros s; apply found_same|intros _]);
    apply quiet_harmless; quietly.
Qed.

(** A save, a forced unlock or a copy from the uploads that answers with
    a [StorageError] has changed nothing. *)
Theorem failed_save_changes_nothing (path dest zone message : string)
    (user meta : option string) :
  atomic (store_storage_edit_save valves path user meta)
  /\ atomic (store_documents_edit_save valves path message user meta)
  /\ atomic (store_force_unlock valves path zone user meta)
  /\ atomic (store_uploads_to_storage valves path dest user meta).
Proof.
  repeat split.
  - apply harmless_respond, harmless_bind; [done|intros p].
    apply harmless_bind; [intros s; apply found_same|intros _].
    apply quiet_harmless. quietly.
  - apply harmless_respond, harmless_bind; [done|intros p].
    apply harmless_bind; [intros s; apply found_same|intros _].
    apply quiet_harmless. quietly.
  - apply harmless_respond, harmless_bind; [done|intros p].
    apply harmless_bind; [done|intros _].
    apply quiet_harmless. unfold unlock_conv. quietly.
  - apply harmless_respond, harmless_bind; [done|intros source].
    apply harmless_bind; [done|intros target].
    apply harmless_bind; [intros s; apply found_same|intros _].
    apply quiet_harmless. quietly.
Qed.

(** An [edit_open] that answers with a [StorageError], [FILE_LOCKED]
    among them, has taken no lock and made no copy, in Storage and in
    Documents; an [edit_cancel] answers with one for a refused path only,
    and has then changed nothing. *)
Theorem failed_open_changes_nothing (zone_name : string) (now : Z) (path : string)
    (user meta : option string) :
  atomic (edit_open valves zone_name now path user meta)
  /\ atomic (edit_cancel valves zone_name path user meta).
Proof.
  split.
  - apply harmless_respond, harmless_bind; [done|intros p].
    apply harmless_bind; [intros s; apply found_same|intros _].
    apply harmless_bind; [intros s; apply check_lock_same|intros _].
    apply quiet_harmless. unfold _create_lock. quietly.
    all: apply quiet_updating; intros s e; apply write_text_quiet.
  - apply harmless_respond, harmless_bind; [done|intros p].
    apply quiet_harmless. quietly.
Qed.

End Refusals.

(** ** Deleting *)

Section Deleting.

Context {host : Host} (valves : Valves).


(** How [_resolve_chroot_path] ends tells whether the path holds a NUL. *)
Lemma resolve_chroot_path_outcome (base : list string) (p : string) :
  match _resolve_chroot_path base p with
  | Ok _ => Str.contains Path.NUL p = false
  | Raise (Storage e) => Str.contains Path.NUL p = false /\ code e = PATH_ESCAPE
  | Raise Other => Str.contains Path.NUL p = true
  end.
Proof.
  unfold _resolve_chroot_path, Path.resolve_joined. rewrite contains_nul_lstrip.
  destruct (Str.contains Path.NUL p); [done|]. cbn.
  by destruct (Path.is_under _ _).
Qed.




End Deleting.


(** ** Writing to Storage *)

Section WritingFiles.

Context {host : Host} (valves : Valves).

#[global] Instance extends_preorder : PreOrder extends.
Proof.
  split; [by split|]. intros s1 s2 s3 [H12 H12'] [H23 H23']. split.
  - intros q n Hq. by apply H23, H12.
  - intros q c Hq. by apply H12', H23'.
Qed.

Lemma mkdir_from_extends (todo above : path) (s s' : fs) :
  FS.mkdir_from s above todo = Some s' -> extends s s'.
Proof.
  revert above s. induction todo as [|x todo IH]; intros above s H; cbn in H.
  - by injection H as <-.
  - destruct (s !! (above ++ [x])) as [[|c']|] eqn:Hd; [by eapply IH|done|].
    etrans; [|by eapply IH]. split.
    + intros q n Hq. rewrite lookup_insert_ne; [done|]. intros <-. congruence.
    + intros q c. destruct (decide (q = above ++ [x])) as [->|Hne].
      * by rewrite lookup_insert_eq.
      * by rewrite lookup_insert_ne.
Qed.

Lemma ensure_dir_extends (p : path) : keeps extends (_ensure_dir p).
Proof.
  keeping keeps_updating. intros s s'. unfold FS.mkdir_p.
  destruct (FS.mkdir_from s [] p) as [s1|] eqn:Hm; [|done].
  intros [= <-]. by eapply mkdir_from_extends.
Qed.

Lemma bind_check_ok {A B : Type} (a : A) (k : A -> M B) (s : fs) :
  (check (Ok a) ≫= k) s = k a s.
Proof. reflexivity. Qed.

Lemma append_text_quiet (p : path) (c : string) (s : fs) (e : StorageError) :
  FS.append_text s p c <> Raise (Storage e).
Proof.
  unfold FS.append_text. destruct (FS.is_dir s (Path.parent p)); [|done].
  by destruct (FS.node_at s p) as [[|?]|].
Qed.

Lemma write_or_append_quiet (target : path) (content : string) (append : bool) :
  quiet (write_or_append target content append).
Proof.
  apply quiet_branch; apply quiet_updating; intros s e;
    [apply append_text_quiet|apply write_text_quiet].
Qed.

(** What [write_or_append] leaves at the target. *)
Lemma write_or_append_spec (target : path) (content : string) (append : bool) (s s' : fs) :
  write_or_append target content append s = (Ok tt, s') ->
  s' = <[target := File (match s !! target with
                         | Some (File old) => if append then old +:+ content else content
                         | _ => content
                         end)]> s.
Proof.
  unfold write_or_append, branch, updating, FS.exists_, FS.append_text, FS.write_text.
  destruct (FS.is_dir s (Path.parent target)).
  2: { by destruct (append && _). }
  destruct target as [|x l]; [by destruct append|]. cbn [FS.node_at].
  destruct (s !! (x :: l)) as [[|old]|]; destruct append; cbn; congruence.
Qed.

(** [store_storage_write], when it succeeds, has written content within
    the size limit: the target then holds the content, after what the
    file held before when [append] is set and the file was there; every
    other entry is still there and no other regular file is new or
    changed.  The errors it answers with are [QUOTA_EXCEEDED] and
    [PATH_ESCAPE]. *)
Theorem storage_write_spec (path content : string) (append : bool)
    (user meta : option string) (s : fs) :
  let chroot := Path.join (Path.join (_get_user_root valves user) "Storage") "data" in
  let out := store_storage_write valves path content append user meta s in
  match out.1 with
  | Success d =>
      d = Bytes (String.length content)
      /\ utf8_length content <= max_file_size_mb valves * 1024 * 1024
      /\ exists target,
           _resolve_chroot_path chroot path = Ok target
           /\ out.2 !! target
              = Some (File (match s !! target with
                            | Some (File old) => if append then old +:+ content else content
                            | _ => content
                            end))
           /\ (forall q n, q <> target -> s !! q = Some n -> out.2 !! q = Some n)
           /\ (forall q c, q <> target -> out.2 !! q = Some (File c) ->
                 s !! q = Some (File c))
  | Error e => code e = QUOTA_EXCEEDED \/ code e = PATH_ESCAPE
  | Failure => True
  end.
Proof.
  intros chroot out.
  assert (Hout : out = store_storage_write valves path content append user meta s)
    by reflexivity.
  clearbody out. unfold store_storage_write in Hout. fold chroot in Hout.
  unfold respond in Hout.
  destruct (_ensure_dir chroot s) as [[[]|e1] s1] eqn:H1.
  2: { rewrite (bind_raise _ _ _ _ _ H1) in Hout.
       pose proof (quiet_ensure_dir chroot s) as Hq. rewrite H1 in Hq. subst out.
       destruct e1 as [e1|]; [by destruct (Hq e1)|done]. }
  rewrite (bind_ok _ _ _ _ _ H1) in Hout.
  pose proof (ensure_dir_extends chroot s) as Hs1. rewrite H1 in Hs1. cbn in Hs1.
  unfold _validate_content_size in Hout.
  destruct (_ <? utf8_length content) eqn:Hsize; [subst out; by left|].
  apply Z.ltb_ge in Hsize. rewrite bind_check_ok in Hout.
  pose proof (resolve_chroot_path_outcome chroot path) as Hres.
  destruct (_resolve_chroot_path chroot path) as [target|[e0|]];
    [|subst out; right; apply Hres|by subst out].
  rewrite bind_check_ok in Hout.
  destruct (_ensure_dir (Path.parent target) s1) as [[[]|e2] s2] eqn:H2.
  2: { rewrite (bind_raise _ _ _ _ _ H2) in Hout.
       pose proof (quiet_ensure_dir (Path.parent target) s1) as Hq.
       rewrite H2 in Hq. subst out. destruct e2 as [e2|]; [by destruct (Hq e2)|done]. }
  rewrite (bind_ok _ _ _ _ _ H2) in Hout.
  pose proof (ensure_dir_extends (Path.parent target) s1) as Hs2.
  rewrite H2 in Hs2. cbn in Hs2.
  assert (Hext : extends s s2) by (by etrans).
  destruct (write_or_append target content append s2) as [[[]|e3] s3] eqn:H3.
  2: { rewrite (bind_raise _ _ _ _ _ H3) in Hout.
       pose proof (write_or_append_quiet target content append s2) as Hq.
       rewrite H3 in Hq. subst out. destruct e3 as [e3|]; [by destruct (Hq e3)|done]. }
  rewrite (bind_ok _ _ _ _ _ H3) in Hout. cbn in Hout. subst out. cbn.
  apply write_or_append_spec in H3. destruct Hext as [Hold Hfiles].
  split; [done|]. split; [done|]. exists target. split; [done|].
  assert (Hsame : forall old, s2 !! target = Some (File old) <-> s !! target = Some (File old)).
  { intros old. split; [apply Hfiles|apply Hold]. }
  split; [|split].
  - rewrite H3, lookup_insert_eq. do 2 f_equal.
    destruct (s2 !! target) as [[|old]|] eqn:Ht.
    + destruct (s !! target) as [[|old]|] eqn:Hst; [done| |done].
      apply Hold in Hst. congruence.
    + by rewrite (proj1 (Hsame old) eq_refl).
    + destruct (s !! target) as [[|old]|] eqn:Hst; [|apply Hold in Hst; congruence|done].
      apply Hold in Hst. congruence.
  - intros q n Hq Hn. rewrite H3, lookup_insert_ne by done. by apply Hold.
  - intros q c Hq. rewrite H3, lookup_insert_ne by done. apply Hfiles.
Qed.

End WritingFiles.

(** ** Saving an edit *)

Section Saving.

Context {host : Host} (valves : Valves).

(** After [_rm_with_empty_parents], nothing is at the path, and no
    exception was raised. *)
Lemma rm_with_empty_parents_gone (filepath stop_at : path) (s : fs) :
  filepath <> [] ->
  exists s', _rm_with_empty_parents filepath stop_at s = (Ok tt, s')
             /\ s' !! filepath = None.
Proof.
  intros Hne. unfold _rm_with_empty_parents.
  pose proof (quiet_remove filepath s) as Hq.
  unfold when_exists, branch at 1, FS.exists_, mbind, M_bind.
  destruct filepath as [|x l]; [done|]. cbn [FS.node_at] in *.
  destruct (s !! (x :: l)) as [n|] eqn:Hn.
  - unfold branch, FS.is_dir, modifying, updating, FS.unlink. cbn [FS.node_at].
    rewrite Hn. destruct n as [|c]; cbn; eexists; (split; [done|]);
      apply rm_empty_parents_shrinks.
    + by rewrite rmtree_lookup, is_under_refl.
    + apply lookup_delete_eq.
  - cbn. eexists. split; [done|]. by apply rm_empty_parents_shrinks.
Qed.

Lemma found (p : path) (c : error_code) (d : list (string * json)) (s : fs) :
  FS.exists_ s p = true ->
  branch (fun s => negb (FS.exists_ s p)) (throw (A:=unit) c d) (mret tt) s = (Ok tt, s).
Proof. unfold branch. by intros ->. Qed.

(** [store_storage_edit_save] of a regular file that the conversation
    has in its edit zone, on a well-formed file system: the file in
    [data/] then holds what the copy held, the copy and the lock file of
    the path are gone, and the rest of the data tree is as it was.  The
    lock file is not read: the save does not depend on who holds the
    lock, or on there being one. *)
Theorem edit_save_replaces (path p : string) (user meta : option string) (s : fs)
    (content edited : string) :
  let zone_root := Path.join (_get_user_root valves user) "Storage" in
  let data_root := Path.join zone_root "data" in
  let data_path := Path.join data_root p in
  let lock_path := _get_lock_path zone_root p in
  let edit_path := _get_editzone_path zone_root (_get_conv_id meta) p in
  let out := store_storage_edit_save valves path user meta s in
  FS.wf s -> plain (_get_conv_id meta) -> _validate_relative_path path = Ok p ->
  s !! data_path = Some (File content) ->
  s !! edit_path = Some (File edited) ->
  out.1 = Success NoData
  /\ out.2 !! data_path = Some (File edited)
  /\ out.2 !! edit_path = None
  /\ out.2 !! lock_path = None
  /\ (forall q, Path.is_under data_root q = true -> q <> data_path ->
        out.2 !! q = s !! q).
Proof.
  intros zone_root data_root data_path lock_path edit_path out Hwf Hconv Hp Hdata Hedit.
  destruct (zone_paths valves "Storage" path p _ user (or_introl eq_refl) Hconv Hp)
    as (Hjoin & Haplock & Hapedit & Hlne & Hene & Hle).
  fold zone_root data_root lock_path edit_path in Hjoin, Haplock, Hapedit, Hlne, Hene, Hle.
  fold data_path in Hjoin.
  assert (Hunder : Path.is_under data_root data_path = true).
  { rewrite Hjoin. apply is_under_app. }
  assert (Hde : data_path <> edit_path) by (by eapply apart_ne).
  assert (Hdne : data_path <> []) by (by destruct (Hwf _ _ Hdata)).
  destruct (mkdir_p_parent s s data_path _ Hwf Hdata (fun q H => H)) as [Hmk Hdir].
  assert (Hout : out = store_storage_edit_save valves path user meta s) by reflexivity.
  clearbody out. unfold store_storage_edit_save, respond in Hout.
  rewrite Hp, bind_check_ok in Hout. cbv zeta in Hout.
  fold zone_root data_root data_path lock_path edit_path in Hout.
  rewrite (bind_ok _ _ s s tt) in Hout.
  2: { apply found. unfold FS.exists_. destruct edit_path; [done|]. cbn. by rewrite Hedit. }
  rewrite (bind_ok _ _ s s tt) in Hout.
  2: { unfold _ensure_dir, updating. by rewrite Hmk. }
  rewrite (bind_ok _ _ s (delete data_path s) tt) in Hout.
  2: { unfold when_exists, branch, updating, FS.exists_, FS.is_dir, FS.unlink.
       destruct data_path; [done|]. cbn. by rewrite Hdata. }
  set (s1 := delete data_path s) in *.
  rewrite (bind_ok _ _ s1 (<[data_path := File edited]> s1) tt) in Hout.
  2: { subst s1. unfold branch, updating.
       assert (Hd1 : FS.node_at (delete data_path s) data_path = None).
       { destruct data_path; [done|]. cbn. apply lookup_delete_eq. }
       assert (He1 : FS.node_at (delete data_path s) edit_path = Some (File edited)).
       { rewrite node_at_delete_ne by done. by destruct edit_path. }
       assert (Hp1 : FS.is_dir (delete data_path s) (Path.parent data_path) = true).
       { unfold FS.is_dir. rewrite node_at_delete_ne; [done|].
         intros Heq. pose proof (parent_shorter _ Hdne) as Hlen.
         rewrite Heq in Hlen. lia. }
       assert (Hdd : FS.is_dir (delete data_path s) data_path = false).
       { unfold FS.is_dir. by rewrite Hd1. }
       assert (Hed : FS.is_dir (delete data_path s) edit_path = false).
       { unfold FS.is_dir. by rewrite He1. }
       rewrite Hed. unfold FS.copy2. rewrite Hdd, He1.
       rewrite bool_decide_eq_false_2 by congruence.
       unfold FS.write_text. by rewrite Hp1, Hd1. }
  set (s2 := <[data_path := File edited]> s1) in *.
  destruct (rm_with_empty_parents_gone edit_path (Path.join zone_root "editzone") s2 Hene)
    as (s3 & H3 & Hgone3).
  rewrite (bind_ok _ _ _ _ _ H3) in Hout.
  destruct (rm_with_empty_parents_gone lock_path (Path.join zone_root "locks") s3 Hlne)
    as (s4 & H4 & Hgone4).
  rewrite (bind_ok _ _ _ _ _ H4) in Hout. cbn in Hout. subst out. cbn.
  pose proof (rm_with_empty_parents_unchanged data_root edit_path
                (Path.join zone_root "editzone") Hapedit s2) as Hu3.
  rewrite H3 in Hu3. cbn in Hu3.
  pose proof (rm_with_empty_parents_unchanged data_root lock_path
                (Path.join zone_root "locks") Haplock s3) as Hu4.
  rewrite H4 in Hu4. cbn in Hu4.
  pose proof (rm_with_empty_parents_shrinks lock_path (Path.join zone_root "locks") s3)
    as Hs4.
  rewrite H4 in Hs4. cbn in Hs4.
  split; [done|]. split; [|split; [|split]].
  - rewrite (Hu4 _ Hunder), (Hu3 _ Hunder). subst s2. apply lookup_insert_eq.
  - by apply Hs4.
  - done.
  - intros q Hq Hne. rewrite (Hu4 _ Hq), (Hu3 _ Hq). subst s2 s1.
    by rewrite lookup_insert_ne, lookup_delete_ne.
Qed.

End Saving.

Lemma edit_save_replaces_witness :
  let saved := store_storage_edit_save demo_valves "notes/a.txt" (Some "u1") (Some "c1")
                 demo_edited in
  saved.1 = Success NoData
  /\ saved.2 !! ["srv"; "users"; "u1"; "Storage"; "data"; "notes"; "a.txt"]
     = Some (File "changed")
  /\ saved.2 !! ["srv"; "users"; "u1"; "Storage"; "editzone"; "c1"; "notes"; "a.txt"] = None
  /\ saved.2 !! ["srv"; "users"; "u1"; "Storage"; "locks"; "notes"; "a.txt.lock"] = None.
Proof.
  intros saved.
  destruct (edit_save_replaces demo_valves "notes/a.txt" "notes/a.txt" (Some "u1")
              (Some "c1") demo_edited "hello" "changed")
    as (Hok & Hdata & Hedit & Hlock & _).
  - apply wf_decide. vm_compute. reflexivity.
  - exact plain_c1.
  - reflexivity.
  - vm_compute. reflexivity.
  - vm_compute. reflexivity.
  - by repeat split.
Defined.

(** ** Cancelling, and the edit zones of other conversations *)

Section Cancelling.

Context {host : Host} (valves : Valves).

Lemma absent (p : path) (m : M unit) (s : fs) :
  p <> [] -> s !! p = None -> when_exists p m s = (Ok tt, s).
Proof.
  intros Hne Hp. unfold when_exists, branch, FS.exists_.
  destruct p; [done|]. cbn. by rewrite Hp.
Qed.

(** [edit_cancel] is idempotent: a second cancel of the same path in the
    same conversation succeeds and changes nothing. *)
Theorem edit_cancel_twice (zone_name path p : string) (user meta : option string) (s : fs) :
  let once := edit_cancel valves zone_name path user meta s in
  is_zone zone_name -> plain (_get_conv_id meta) -> _validate_relative_path path = Ok p ->
  once.1 = Success NoData
  /\ edit_cancel valves zone_name path user meta once.2 = (Success NoData, once.2).
Proof.
  intros once Hzone Hconv Hp.
  destruct (edit_cancel_spec valves zone_name path p user meta s Hzone Hconv Hp)
    as (Hok & _ & Hlock & Hedit).
  destruct (zone_paths valves zone_name path p _ user Hzone Hconv Hp)
    as (_ & _ & _ & Hlne & Hene & _).
  fold once in Hok, Hlock, Hedit. split; [done|].
  unfold edit_cancel at 1, respond. rewrite Hp, bind_check_ok. cbv zeta.
  rewrite (bind_ok _ _ once.2 once.2 tt) by (by apply absent).
  by rewrite (bind_ok _ _ once.2 once.2 tt) by (by apply absent).
Qed.

(** The paths of a conversation lie apart from the edit zone of a
    conversation with another id. *)
Lemma other_zone_apart (zone_name path p conv_id other : string) (user : option string) :
  let zone_root := Path.join (_get_user_root valves user) zone_name in
  let other_zone := Path.join (Path.join zone_root "editzone") other in
  is_zone zone_name -> plain conv_id -> plain other -> other <> conv_id ->
  _validate_relative_path path = Ok p ->
  apart (Path.join (Path.join zone_root "data") p) other_zone
  /\ apart (_get_lock_path zone_root p) other_zone
  /\ apart (_get_editzone_path zone_root conv_id p) other_zone
  /\ exists rest, _get_editzone_path zone_root other p = other_zone ++ rest.
Proof.
  intros zone_root other_zone Hzone Hconv Hplain Hother Hp.
  destruct (zone_layout valves zone_name path p _ user Hzone Hconv Hp)
    as (_ & _ & _ & Hez & Hd & Hl & He).
  destruct (zone_layout valves zone_name path p _ user Hzone Hplain Hp)
    as (_ & _ & _ & _ & _ & _ & Ho).
  fold zone_root in Hez, Hd, Hl, He, Ho. subst other_zone.
  rewrite Hd, Hl, He, Ho, Hez, (join_plain _ other) by done.
  set (zone := _get_user_root valves user ++ [zone_name]).
  rewrite <- (app_assoc zone ["editzone"] [other]). cbn [app].
  split; [by apply apart_siblings|]. split; [by apply apart_siblings|]. split.
  - rewrite !(cons_middle "editzone"), !app_assoc. apply apart_siblings. congruence.
  - exists (Path.segments p).
    by rewrite <- app_assoc.
Qed.

Lemma edit_cancel_other_zone (zone_name path other : string) (user meta : option string)
    (s : fs) :
  let zone_root := Path.join (_get_user_root valves user) zone_name in
  let other_zone := Path.join (Path.join zone_root "editzone") other in
  is_zone zone_name -> plain (_get_conv_id meta) -> plain other ->
  other <> _get_conv_id meta ->
  unchanged_below other_zone s (edit_cancel valves zone_name path user meta s).2.
Proof.
  intros zone_root other_zone Hzone Hconv Hplain Hother.
  unfold edit_cancel. keeping keeps_respond. keeping keeps_bind_check. intros p Hp.
  cbv zeta.
  destruct (other_zone_apart zone_name path p _ other user Hzone Hconv Hplain Hother Hp)
    as (_ & Hlock & Hedit & _).
  keeping keeps_bind; [|intros _].
  { keeping keeps_when_exists. by apply rm_with_empty_parents_unchanged. }
  keeping keeps_bind; [|intros _; keeping keeps_ret].
  keeping keeps_when_exists. by apply rm_with_empty_parents_unchanged.
Qed.

(** The edit zone of one conversation is out of reach of the safe
    editing of another: whatever [edit_open], [edit_cancel] and
    [store_storage_edit_save] do for a conversation, and whether they
    succeed or fail, nothing changes at or below the edit zone of a
    conversation with another id. *)
Theorem edit_zones_are_isolated (zone_name : string) (now : Z) (path : string)
    (user meta : option string) (other : string) (s : fs) :
  let zone_root := Path.join (_get_user_root valves user) zone_name in
  let other_zone := Path.join (Path.join zone_root "editzone") other in
  is_zone zone_name -> plain (_get_conv_id meta) -> plain other ->
  other <> _get_conv_id meta ->
  unchanged_below other_zone s (edit_open valves zone_name now path user meta s).2
  /\ unchanged_below other_zone s (edit_cancel valves zone_name path user meta s).2
  /\ (zone_name = "Storage" ->
      unchanged_below other_zone s (store_storage_edit_save valves path user meta s).2).
Proof.
  intros zone_root other_zone Hzone Hconv Hplain Hother.
  pose proof (fun p => other_zone_apart zone_name path p _ other user
                         Hzone Hconv Hplain Hother) as Hpaths.
  fold zone_root other_zone in Hpaths.
  split; [|split].
  - unfold edit_open. keeping keeps_respond. keeping keeps_bind_check. intros p Hp.
    cbv zeta. destruct (Hpaths p Hp) as (_ & [_ Hlock] & Hedit & _).
    keeping keeps_bind; [|intros _].
    { keeping keeps_branch; [keeping keeps_throw|keeping keeps_ret]. }
    keeping keeps_bind; [|intros _]. { keeping check_lock_keeps. }
    keeping keeps_bind; [|intros _]. { by apply create_lock_unchanged. }
    keeping keeps_bind; [|intros _].
    { apply ensure_dir_unchanged, parent_not_under, Hedit. }
    keeping keeps_bind; [|intros _; keeping keeps_ret].
    keeping keeps_branch; keeping keeps_updating; intros s1 s2.
    + by apply copytree_unchanged.
    + by apply copy2_unchanged.
  - by apply edit_cancel_other_zone.
  - intros ->. unfold store_storage_edit_save. keeping keeps_respond.
    keeping keeps_bind_check. intros p Hp.
    cbv zeta. destruct (Hpaths p Hp) as (Hdata & Hlock & Hedit & _).
    fold zone_root.
    keeping keeps_bind; [|intros _].
    { keeping keeps_branch; [keeping keeps_throw|keeping keeps_ret]. }
    keeping keeps_bind; [|intros _].
    { apply ensure_dir_unchanged, parent_not_under, Hdata. }
    keeping keeps_bind; [|intros _].
    { keeping keeps_when_exists. keeping keeps_branch.
      - keeping keeps_modifying. intros s1. by apply rmtree_unchanged.
      - keeping keeps_updating. intros s1 s2. apply unlink_unchanged, Hdata. }
    keeping keeps_bind; [|intros _].
    { keeping keeps_branch; keeping keeps_updating; intros s1 s2.
      - by apply copytree_unchanged.
      - by apply copy2_unchanged. }
    keeping keeps_bind; [|intros _]. { by apply rm_with_empty_parents_unchanged. }
    keeping keeps_bind; [|intros _; keeping keeps_ret].
    by apply rm_with_empty_parents_unchanged.
Qed.

(** [edit_cancel] does not ask who holds the lock: a conversation that
    cancels a path which another conversation has open succeeds and
    removes the lock file of the path, and the copy in the edit zone of
    the other conversation stays. *)
Theorem edit_cancel_ignores_owner (zone_name path p owner : string)
    (user meta : option string) (s : fs) (copy : node) :
  let zone_root := Path.join (_get_user_root valves user) zone_name in
  let out := edit_cancel valves zone_name path user meta s in
  is_zone zone_name -> plain (_get_conv_id meta) -> plain owner ->
  owner <> _get_conv_id meta ->
  _validate_relative_path path = Ok p ->
  s !! _get_editzone_path zone_root owner p = Some copy ->
  out.1 = Success NoData
  /\ out.2 !! _get_lock_path zone_root p = None
  /\ out.2 !! _get_editzone_path zone_root owner p = Some copy.
Proof.
  intros zone_root out Hzone Hconv Hplain Hother Hp Hcopy.
  destruct (edit_cancel_spec valves zone_name path p user meta s Hzone Hconv Hp)
    as (Hok & _ & Hlock & _).
  split; [done|]. split; [done|].
  destruct (other_zone_apart zone_name path p _ owner user Hzone Hconv Hplain Hother Hp)
    as (_ & _ & _ & rest & Hrest).
  rewrite <- Hcopy.
  apply (edit_cancel_other_zone zone_name path owner user meta s Hzone Hconv Hplain Hother).
  fold zone_root in Hrest |- *. rewrite Hrest. apply is_under_app.
Qed.

End Cancelling.

Lemma edit_cancel_twice_witness :
  let once := store_storage_edit_cancel demo_valves "notes/a.txt" (Some "u1") (Some "c1")
                demo_locked in
  once.1 = Success NoData
  /\ store_storage_edit_cancel demo_valves "notes/a.txt" (Some "u1") (Some "c1") once.2
     = (Success NoData, once.2).
Proof.
  by apply (edit_cancel_twice demo_valves "Storage" "notes/a.txt" "notes/a.txt"
              (Some "u1") (Some "c1") demo_locked (or_introl eq_refl) plain_c1).
Defined.

Lemma plain_c2 : plain "c2".
Proof. by vm_compute. Qed.

Lemma edit_zones_are_isolated_witness :
  let copy := ["srv"; "users"; "u1"; "Storage"; "editzone"; "c1"; "notes"; "a.txt"] in
  (store_storage_edit_save demo_valves "notes/a.txt" (Some "u1") (Some "c2") demo_locked).2
    !! copy = Some (File "hello").
Proof.
  intros copy.
  destruct (edit_zones_are_isolated (host:=RefHost.host) demo_valves "Storage" demo_now
              "notes/a.txt" (Some "u1") (Some "c2") "c1" demo_locked
              (or_introl eq_refl) plain_c2 plain_c1) as (_ & _ & Hsave).
  { discriminate. }
  rewrite (Hsave eq_refl copy); [|reflexivity]. vm_compute. reflexivity.
Defined.

Lemma edit_cancel_ignores_owner_witness :
  let out := store_storage_edit_cancel demo_valves "notes/a.txt" (Some "u1") (Some "c2")
               demo_locked in
  demo_locked !! ["srv"; "users"; "u1"; "Storage"; "locks"; "notes"; "a.txt.lock"]
    <> None
  /\ out.1 = Success NoData
  /\ out.2 !! ["srv"; "users"; "u1"; "Storage"; "locks"; "notes"; "a.txt.lock"] = None
  /\ out.2 !! ["srv"; "users"; "u1"; "Storage"; "editzone"; "c1"; "notes"; "a.txt"]
     = Some (File "hello").
Proof.
  intros out. split; [by vm_compute|].
  apply (edit_cancel_ignores_owner demo_valves "Storage" "notes/a.txt"
           "notes/a.txt" "c1" (Some "u1") (Some "c2") demo_locked (File "hello")
           (or_introl eq_refl) plain_c2 plain_c1).
  - discriminate.
  - reflexivity.
  - vm_compute. reflexivity.
Defined.

(** ** Storage stays in its data tree *)

Section Confinement.

Context {host : Host} (valves : Valves).

Lemma append_text_unchanged (root p : path) (c : string) (s s' : fs) :
  Path.is_under root p = false -> FS.append_text s p c = Ok s' -> unchanged_below root s s'.
Proof.
  unfold FS.append_text. intros Hp H.
  destruct (FS.is_dir s (Path.parent p)); [|done].
  destruct (FS.node_at s p) as [[|?]|]; try done; injection H as <-;
    by apply insert_unchanged.
Qed.

(** What [_resolve_chroot_path] returns lies apart from what lies apart
    from the chroot. *)
Lemma resolved_apart (base root : path) (p : string) (target : path) :
  Path.resolve base = base -> apart root base ->
  _resolve_chroot_path base p = Ok target -> apart target root.
Proof.
  intros Hbase Hap. unfold _resolve_chroot_path, Path.resolve_joined. rewrite Hbase.
  destruct (Str.contains Path.NUL _); [done|]. cbn.
  destruct (Path.is_under base _) eqn:Hu; [|done]. intros [= <-].
  apply is_under_prefix in Hu as [rest ->]. by apply apart_below, apart_sym.
Qed.

(** The operations that write to [Storage/data], with the path of that
    directory resolved: whatever the arguments, and whether they succeed
    or fail, [store_storage_write], [store_storage_delete] and
    [store_uploads_to_storage] change nothing at or below a path that is
    neither in [Storage/data] nor above it: not the uploads, not the
    documents, not the locks, not the edit zones. *)
Theorem storage_operations_are_confined (root : path) (path dest content : string)
    (append : bool) (user meta : option string) (s : fs) :
  let data_root := Path.join (Path.join (_get_user_root valves user) "Storage") "data" in
  Path.resolve data_root = data_root -> apart root data_root ->
  unchanged_below root s (store_storage_write valves path content append user meta s).2
  /\ unchanged_below root s (store_storage_delete valves path user meta s).2
  /\ unchanged_below root s (store_uploads_to_storage valves path dest user meta s).2.
Proof.
  intros data_root Hres Hap. destruct (Hap) as [Hroot _]. split; [|split].
  - unfold store_storage_write. fold data_root. keeping keeps_respond.
    keeping keeps_bind; [|intros _]. { by apply ensure_dir_unchanged. }
    keeping keeps_bind_check. intros _ _. keeping keeps_bind_check. intros target Ht.
    destruct (resolved_apart _ _ _ _ Hres Hap Ht) as [_ Htarget].
    keeping keeps_bind; [|intros _].
    { by apply ensure_dir_unchanged, parent_not_under. }
    keeping keeps_bind; [|intros _; keeping keeps_ret].
    keeping keeps_branch; keeping keeps_updating; intros s1 s2.
    + by apply append_text_unchanged.
    + by apply write_text_unchanged.
  - unfold store_storage_delete. fold data_root. keeping keeps_respond.
    keeping keeps_bind_check. intros target Ht.
    pose proof (resolved_apart _ _ _ _ Hres Hap Ht) as Htarget.
    keeping keeps_bind; [|intros _].
    { keeping keeps_branch; [keeping keeps_throw|keeping keeps_ret]. }
    keeping keeps_bind; [|intros _; keeping keeps_ret].
    keeping keeps_branch.
    + keeping keeps_modifying. intros s1. by apply rmtree_unchanged.
    + keeping keeps_updating. intros s1 s2. apply unlink_unchanged, Htarget.
  - unfold store_uploads_to_storage. fold data_root. keeping keeps_respond.
    keeping keeps_bind_check. intros source _. keeping keeps_bind_check. intros target Ht.
    pose proof (resolved_apart _ _ _ _ Hres Hap Ht) as Htarget.
    keeping keeps_bind; [|intros _].
    { keeping keeps_branch; [keeping keeps_throw|keeping keeps_ret]. }
    keeping keeps_bind; [|intros _]. { by apply ensure_dir_unchanged. }
    keeping keeps_bind; [|intros _].
    { apply ensure_dir_unchanged, parent_not_under, Htarget. }
    keeping keeps_bind; [|intros _; keeping keeps_ret].
    keeping keeps_branch; keeping keeps_updating; intros s1 s2.
    + by apply copytree_unchanged.
    + by apply copy2_unchanged.
Qed.

Lemma respond_check_ok {A : Type} (a : A) (k : A -> M payload) (s : fs) :
  respond (check (Ok a) ≫= k) s = respond (k a) s.
Proof. reflexivity. Qed.

Lemma extends_read (s s' : fs) (p : path) (c : string) :
  extends s s' -> FS.read_text s p = Ok c -> FS.read_text s' p = Ok c.
Proof.
  intros [Hold _]. unfold FS.read_text. destruct p as [|x p]; [done|]. cbn.
  destruct (s !! (x :: p)) as [[|c']|] eqn:Hp; try done. intros [= ->].
  by rewrite (Hold _ _ Hp).
Qed.

Lemma ensure_dir_success (p : path) (s s' : fs) :
  _ensure_dir p s = (Ok tt, s') -> extends s s'.
Proof.
  intros H. pose proof (ensure_dir_extends p s) as He. by rewrite H in He.
Qed.

Lemma copy2_spec (src dst : path) (s s' : fs) (c : string) :
  FS.copy2 s src dst = Ok s' -> FS.read_text s src = Ok c ->
  FS.read_text s' src = Ok c
  /\ (FS.read_text s' dst = Ok c \/ FS.read_text s' (dst ++ [List.last src ""]) = Ok c).
Proof.
  unfold FS.copy2, FS.read_text. intros H Hc.
  destruct (FS.node_at s src) as [[|c']|] eqn:Hsrc; try done. injection Hc as ->.
  set (dst' := if FS.is_dir s dst then dst ++ [List.last src ""] else dst) in *.
  case_bool_decide as Hne; [done|].
  assert (Hw : s' = <[dst' := File c]> s /\ dst' <> []).
  { unfold FS.write_text in H. destruct (FS.is_dir s (Path.parent dst')); [|done].
    destruct dst' as [|x l]; [done|]. cbn in H.
    by destruct (s !! (x :: l)) as [[|?]|]; try done; injection H as <-. }
  destruct Hw as [-> Hd]. split.
  - destruct src as [|x l]; [done|]. cbn in *.
    rewrite lookup_insert_ne by congruence. by rewrite Hsrc.
  - assert (Hread : FS.node_at (<[dst' := File c]> s) dst' = Some (File c)).
    { destruct dst' as [|x l]; [done|]. cbn. apply lookup_insert_eq. }
    subst dst'. destruct (FS.is_dir s dst); [right|left]; by rewrite Hread.
Qed.

(** [store_uploads_to_storage] copies: when it succeeds on a regular
    file of the uploads, the content is at the destination, or in it
    under the name of the file when the destination is a directory, and
    the upload is still there. *)
Theorem uploads_to_storage_copies (source target : path) (src dest : string)
    (user meta : option string) (s : fs) (content : string) (d : payload) :
  let user_root := _get_user_root valves user in
  let out := store_uploads_to_storage valves src dest user meta s in
  _resolve_chroot_path (Path.join (Path.join user_root "Uploads") (_get_conv_id meta)) src
    = Ok source ->
  _resolve_chroot_path (Path.join (Path.join user_root "Storage") "data") dest
    = Ok target ->
  FS.read_text s source = Ok content ->
  out.1 = Success d ->
  FS.read_text out.2 source = Ok content
  /\ (FS.read_text out.2 target = Ok content
      \/ FS.read_text out.2 (target ++ [List.last source ""]) = Ok content).
Proof.
  intros user_root out Hsrc Hdst Hfile Hok. subst out.
  unfold store_uploads_to_storage in Hok |- *. fold user_root in Hok |- *.
  rewrite Hsrc, Hdst, !respond_check_ok in Hok |- *.
  apply respond_success in Hok. set (final := (respond _ s).2) in *.
  apply bind_success in Hok as ([] & s0 & Hfound & Hok).
  apply bind_success in Hok as ([] & s1 & H1 & Hok).
  apply bind_success in Hok as ([] & s2 & H2 & Hok).
  apply bind_success in Hok as ([] & s3 & H3 & Hok).
  injection Hok as _ <-.
  assert (s0 = s) as ->.
  { pose proof (found_same source FILE_NOT_FOUND
                  [("path", JStr src);
                   ("uploads_dir",
                    JStr (Path.to_string_abs
                            (Path.join (Path.join user_root "Uploads") (_get_conv_id meta))))]
                  s) as Hs.
    by rewrite Hfound in Hs. }
  apply ensure_dir_success in H1, H2.
  assert (Hread : FS.read_text s2 source = Ok content).
  { apply (extends_read s s2); [by etrans|done]. }
  unfold branch, updating in H3.
  assert (Hfile2 : FS.is_dir s2 source = false).
  { unfold FS.is_dir, FS.read_text in *. by destruct (FS.node_at s2 source) as [[|?]|]. }
  rewrite Hfile2 in H3.
  destruct (FS.copy2 s2 source target) as [s'|e] eqn:Hcopy; [|done].
  injection H3 as <-. by eapply copy2_spec.
Qed.

End Confinement.

Lemma storage_operations_are_confined_witness :
  let upload := ["srv"; "users"; "u1"; "Uploads"; "c1"; "report.txt"] in
  (store_uploads_to_storage demo_valves "report.txt" "inbox/report.txt" (Some "u1")
     (Some "c1") demo_documents).2 !! upload = Some (File "figures")
  /\ (store_storage_delete demo_valves "../../Uploads/c1/report.txt" (Some "u1")
        (Some "c1") demo_documents).2 !! upload = Some (File "figures").
Proof.
  intros upload.
  destruct (storage_operations_are_confined demo_valves
              ["srv"; "users"; "u1"; "Uploads"] "../../Uploads/c1/report.txt"
              "inbox/report.txt" "" false (Some "u1") (Some "c1") demo_documents)
    as (_ & Hdelete & _); [reflexivity|by split|].
  destruct (storage_operations_are_confined demo_valves
              ["srv"; "users"; "u1"; "Uploads"] "report.txt"
              "inbox/report.txt" "" false (Some "u1") (Some "c1") demo_documents)
    as (_ & _ & Hcopy); [reflexivity|by split|].
  split.
  - by rewrite (Hcopy upload).
  - by rewrite (Hdelete upload).
Defined.

Lemma uploads_to_storage_copies_witness :
  let out := store_uploads_to_storage demo_valves "report.txt" "inbox/report.txt"
               (Some "u1") (Some "c1") demo_documents in
  FS.read_text out.2 ["srv"; "users"; "u1"; "Uploads"; "c1"; "report.txt"] = Ok "figures"
  /\ (FS.read_text out.2 ["srv"; "users"; "u1"; "Storage"; "data"; "inbox"; "report.txt"]
        = Ok "figures"
      \/ FS.read_text out.2
           (["srv"; "users"; "u1"; "Storage"; "data"; "inbox"; "report.txt"]
              ++ [List.last ["srv"; "users"; "u1"; "Uploads"; "c1"; "report.txt"] ""])
         = Ok "figures").
Proof.
  apply (uploads_to_storage_copies demo_valves
           ["srv"; "users"; "u1"; "Uploads"; "c1"; "report.txt"]
           ["srv"; "users"; "u1"; "Storage"; "data"; "inbox"; "report.txt"]
           "report.txt" "inbox/report.txt" (Some "u1") (Some "c1") demo_documents
           "figures" NoData).
  - reflexivity.
  - reflexivity.
  - vm_compute. reflexivity.
  - vm_compute. reflexivity.
Defined.

(** ** Removing a file and the directories it leaves empty *)

Section EmptyParents.

Context {host : Host}.

Lemma inits_snoc (p : path) (x : string) : inits (p ++ [x]) = inits p ++ [p ++ [x]].
Proof.
  induction p as [|y p IH]; [done|]. cbn. rewrite IH, map_app. done.
Qed.

Lemma rev_inits (p : path) : rev (inits p) = p :: ancestors p.
Proof.
  unfold ancestors. induction p as [|x p _] using rev_ind; [done|].
  by rewrite inits_snoc, rev_unit.
Qed.

Lemma ancestors_snoc (p : path) (x : string) : ancestors (p ++ [x]) = p :: ancestors p.
Proof. unfold ancestors at 1. by rewrite inits_snoc, rev_unit, rev_inits. Qed.

Lemma strictly_under_app (p rest : path) : rest <> [] -> FS.strictly_under p (p ++ rest) = true.
Proof.
  intros Hrest. unfold FS.strictly_under. rewrite is_under_app.
  rewrite bool_decide_eq_false_2; [done|]. intros H.
  rewrite <- (app_nil_r p) in H at 2. by apply app_inv_head in H.
Qed.

Lemma strictly_under_below (p q rest : path) :
  FS.strictly_under p q = true -> FS.strictly_under p (q ++ rest) = true.
Proof.
  unfold FS.strictly_under. intros [Hu Hne]%andb_true_iff.
  apply is_under_prefix in Hu as [r ->]. rewrite <- app_assoc.
  apply negb_true_iff, bool_decide_eq_false_1 in Hne.
  apply strictly_under_app. destruct r; [by rewrite app_nil_r in Hne|done].
Qed.

(** The loop stops at [stop_at]: it removes directories below it only. *)
Lemma rm_empty_parents_confined (stop_at rest : path) (s : fs) (q : path) :
  ".." ∉ stop_at ++ rest ->
  FS.strictly_under stop_at q = false ->
  rm_empty_parents ((stop_at ++ rest) :: ancestors (stop_at ++ rest)) stop_at s !! q
  = s !! q.
Proof.
  intros Hdots Hq. revert s Hdots.
  induction rest as [|x rest IH] using rev_ind; intros s Hdots.
  - rewrite app_nil_r. cbn. by rewrite bool_decide_eq_true_2.
  - cbn [rm_empty_parents]. unfold Path.resolve.
    rewrite !normalize_down.
    2: { intros H. apply Hdots. apply elem_of_app. by left. }
    2: { done. }
    cbn [app]. rewrite bool_decide_eq_false_2.
    2: { intros H. rewrite <- (app_nil_r stop_at) in H at 2.
         apply app_inv_head in H. by destruct rest. }
    destruct (FS.rmdir s (stop_at ++ rest ++ [x])) as [s'|] eqn:Hrm; [|done].
    rewrite app_assoc, ancestors_snoc, IH.
    + unfold FS.rmdir in Hrm. destruct (s !! _) as [[|?]|]; try done.
      case_bool_decide; [|done]. injection Hrm as <-.
      apply lookup_delete_ne. intros <-.
      rewrite strictly_under_app in Hq; [done|by destruct rest].
    + intros H. apply Hdots. rewrite app_assoc. apply elem_of_app. by left.
Qed.

(** [_rm_with_empty_parents] of a path below [stop_at], the path free of
    [..]: the entry goes, no exception is raised, nothing is new, and
    all that is not below [stop_at] is as it was; [stop_at] itself is
    never removed. *)
Theorem rm_with_empty_parents_confined (stop_at rest : path) (s : fs) :
  let out := _rm_with_empty_parents (stop_at ++ rest) stop_at s in
  rest <> [] -> ".." ∉ stop_at ++ rest ->
  out.1 = Ok tt
  /\ out.2 !! (stop_at ++ rest) = None
  /\ shrinks s out.2
  /\ (forall q, FS.strictly_under stop_at q = false -> out.2 !! q = s !! q).
Proof.
  intros out Hrest Hdots.
  assert (Hne : stop_at ++ rest <> []) by (by destruct stop_at, rest).
  destruct (rm_with_empty_parents_gone (stop_at ++ rest) stop_at s Hne)
    as (s' & Hrun & Hgone).
  subst out. rewrite Hrun. cbn. split; [done|]. split; [done|]. split.
  - pose proof (rm_with_empty_parents_shrinks (stop_at ++ rest) stop_at s) as H.
    by rewrite Hrun in H.
  - intros q Hq. revert Hrun. unfold _rm_with_empty_parents.
    intros ([] & s1 & Hfirst & Hloop)%bind_success.
    unfold modifying in Hloop. injection Hloop as <-.
    destruct rest as [|x rest _] using rev_ind; [done|].
    rewrite app_assoc, ancestors_snoc.
    assert (Hdots' : ".." ∉ stop_at ++ rest).
    { intros H. apply Hdots. rewrite app_assoc. apply elem_of_app. by left. }
    rewrite (rm_empty_parents_confined stop_at rest s1 q Hdots' Hq).
    assert (Hout : Path.is_under (stop_at ++ rest ++ [x]) q = false).
    { destruct (Path.is_under _ q) eqn:Hu; [|done].
      apply is_under_prefix in Hu as [r ->].
      rewrite <- !app_assoc, strictly_under_app in Hq; [done|by destruct rest]. }
    revert Hfirst. unfold when_exists, branch, modifying, updating, mret, M_ret, FS.unlink.
    destruct (FS.exists_ s _); [|by intros [= <-]].
    destruct (FS.is_dir s _).
    + intros [= <-]. by rewrite rmtree_lookup, Hout.
    + destruct (FS.node_at s _) as [[|c]|]; try done. intros [= <-].
      apply lookup_delete_ne. intros <-. by rewrite is_under_refl in Hout.
Qed.

End EmptyParents.

Lemma rm_with_empty_parents_confined_witness :
  let editzone := ["srv"; "users"; "u1"; "Storage"; "editzone"] in
  let out := _rm_with_empty_parents (editzone ++ ["c1"; "notes"; "a.txt"]) editzone
               demo_locked in
  out.1 = Ok tt
  /\ out.2 !! (editzone ++ ["c1"]) = None
  /\ out.2 !! editzone = Some Dir.
Proof.
  intros editzone out.
  destruct (rm_with_empty_parents_confined editzone ["c1"; "notes"; "a.txt"] demo_locked)
    as (Hok & _ & _ & Hrest).
  - discriminate.
  - apply (bool_decide_eq_true_1 _). vm_compute. reflexivity.
  - split; [exact Hok|]. split; [vm_compute; reflexivity|].
    etrans; [apply Hrest|]; vm_compute; reflexivity.
Defined.

(** ** Forcing a lock open *)

Section Unlocking.

Context (valves : Valves).

Lemma lower_char_idempotent (c : ascii) : lower_char (lower_char c) = lower_char c.
Proof. by destruct c as [[] [] [] [] [] [] [] []]. Qed.

Lemma lower_idempotent (s : string) : lower (lower s) = lower s.
Proof.
  induction s as [|c s IH]; [done|]. cbn. by rewrite lower_char_idempotent, IH.
Qed.

(** The zone of [store_force_unlock] is read without regard to case, and
    a zone that is neither [storage] nor [documents] is refused with
    [ZONE_FORBIDDEN], nothing being changed, once the path is accepted. *)
Theorem force_unlock_zone_names (path p zone : string) (user meta : option string) (s : fs) :
  store_force_unlock valves path zone user meta s
  = store_force_unlock valves path (lower zone) user meta s
  /\ (_validate_relative_path path = Ok p ->
      lower zone <> "storage" -> lower zone <> "documents" ->
      store_force_unlock valves path zone user meta s
      = (Error (mkError ZONE_FORBIDDEN []), s)).
Proof.
  split.
  - unfold store_force_unlock. by rewrite lower_idempotent.
  - intros Hp Hs Hd. unfold store_force_unlock, respond. rewrite Hp, bind_check_ok.
    unfold Str.eqb. by rewrite !bool_decide_eq_false_2.
Qed.

Lemma iterdir_children (s : fs) (base q : path) :
  q ∈ FS.iterdir s base
  <-> Path.parent q = base /\ FS.strictly_under base q = true /\ is_Some (s !! q).
Proof.
  unfold FS.iterdir.
  rewrite list_elem_of_In, filter_In, <- list_elem_of_In, list_elem_of_fmap.
  split.
  - intros [([q' n] & -> & Hin) Hparent]. apply elem_of_map_to_list in Hin.
    apply map_lookup_filter_Some in Hin as [Hq Hu]. cbn in *.
    split; [by apply (bool_decide_eq_true_1 _)|]. by split.
  - intros (Hparent & Hu & [n Hq]). split; [|by apply bool_decide_eq_true_2].
    exists (q, n). split; [done|]. apply elem_of_map_to_list.
    by apply map_lookup_filter_Some.
Qed.

Lemma child (base x : path) :
  Path.parent x = base -> x <> [] -> x = base ++ [List.last x ""].
Proof. intros <- Hx. by apply app_removelast_last. Qed.

(** One turn of the loop of [store_force_unlock]. *)
Lemma unlock_conv_step (base x : path) (p : string) (s : fs) :
  Str.startswith "/" p = false -> x <> [] ->
  exists s',
    unlock_conv base x p tt s = (Ok tt, s')
    /\ shrinks s s'
    /\ (forall root, apart (x ++ Path.segments p) root -> unchanged_below root s s')
    /\ (FS.is_dir s x = true \/ s !! (x ++ Path.segments p) = None ->
        s' !! (x ++ Path.segments p) = None).
Proof.
  intros Hrel Hx. unfold unlock_conv, branch. rewrite join_relative by done.
  set (edit_path := x ++ Path.segments p).
  assert (Hne : edit_path <> []) by (by destruct x).
  destruct (FS.is_dir s x) eqn:Hdir.
  - destruct (rm_with_empty_parents_removes edit_path base s Hne) as [Hok Hgone].
    pose proof (keeps_when_exists shrinks edit_path _
                  (rm_with_empty_parents_shrinks edit_path base) s) as Hshrinks.
    destruct (when_exists edit_path (_rm_with_empty_parents edit_path base) s)
      as [r s'] eqn:Hrun.
    cbn in *. subst r. exists s'. split; [done|]. split; [done|]. split; [|done].
    intros root Hap.
    pose proof (keeps_when_exists (unchanged_below root) edit_path _
                  (rm_with_empty_parents_unchanged root edit_path base Hap) s) as Hu.
    by rewrite Hrun in Hu.
  - exists s. split; [done|]. split; [done|]. split; [done|]. by intros [|].
Qed.

(** The loop of [store_force_unlock] over the entries of the edit zone. *)
Lemma unlock_loop (base : path) (p : string) (xs : list path) (s : fs) :
  Str.startswith "/" p = false ->
  (forall x, x ∈ xs -> Path.parent x = base /\ x <> []) ->
  exists s',
    for_each xs (fun conv_dir => unlock_conv base conv_dir p) tt s = (Ok tt, s')
    /\ shrinks s s'
    /\ (forall root, apart base root -> unchanged_below root s s')
    /\ (forall x, x ∈ xs ->
          FS.is_dir s x = true \/ s !! (x ++ Path.segments p) = None ->
          s' !! (x ++ Path.segments p) = None).
Proof.
  intros Hrel. revert s. induction xs as [|x xs IH]; intros s Hxs.
  { exists s. split; [done|]. split; [done|]. split; [done|]. by intros x Hx%elem_of_nil. }
  destruct (Hxs x) as [Hparent Hx]; [by left|].
  destruct (unlock_conv_step base x p s Hrel Hx) as (s1 & Hstep & Hsh1 & Hun1 & Hgone1).
  destruct (IH s1) as (s' & Hrest & Hsh & Hun & Hgone).
  { intros y Hy. apply Hxs. by right. }
  exists s'. split; [|split; [|split]].
  - cbn [for_each]. rewrite (bind_ok _ _ _ _ _ Hstep). exact Hrest.
  - by etrans.
  - intros root Hap. etrans; [|by apply Hun]. apply Hun1.
    rewrite (child base x Hparent Hx), <- app_assoc. by apply apart_below.
  - intros y Hy Hcond. destruct (decide (y = x)) as [->|Hne].
    { apply Hsh. apply Hgone1. exact Hcond. }
    apply elem_of_cons in Hy as [?|Hy]; [done|]. apply Hgone; [done|].
    destruct Hcond as [Hdir|Hnone]; [left|right; by apply Hsh1].
    destruct (Hxs y) as [Hparent' Hy']; [by right|].
    assert (Hap : apart (x ++ Path.segments p) y).
    { rewrite (child base x Hparent Hx), (child base y Hparent' Hy'), <- app_assoc.
      apply apart_siblings. intros Heq. apply Hne.
      by rewrite (child base x Hparent Hx), (child base y Hparent' Hy'), Heq. }
    unfold FS.is_dir in *. destruct y as [|a y]; [done|]. cbn [FS.node_at] in *.
    by rewrite (Hun1 _ Hap (a :: y) (is_under_refl _)).
Qed.

(** [store_force_unlock] of an accepted path on a well-formed file
    system, the edit zone being no regular file: it succeeds whoever
    calls it, the lock file of the path is gone, and so is the copy of
    the path in the edit zone of every conversation that has a directory
    there; the data tree of the zone is as it was. *)
Theorem force_unlock_spec (path p zone zone_name : string) (user meta : option string)
    (s : fs) :
  let zone_root := Path.join (_get_user_root valves user) zone_name in
  let editzone := Path.join zone_root "editzone" in
  let out := store_force_unlock valves path zone user meta s in
  FS.wf s -> _validate_relative_path path = Ok p ->
  (lower zone = "storage" /\ zone_name = "Storage")
  \/ (lower zone = "documents" /\ zone_name = "Documents") ->
  FS.is_file s editzone = false ->
  out.1 = Success NoData
  /\ out.2 !! _get_lock_path zone_root p = None
  /\ (forall conv_id, plain conv_id -> FS.is_dir s (Path.join editzone conv_id) = true ->
        out.2 !! _get_editzone_path zone_root conv_id p = None)
  /\ unchanged_below (Path.join zone_root "data") s out.2.
Proof.
  intros zone_root editzone out Hwf Hp Hzone Hfile.
  assert (Hz : is_zone zone_name) by (destruct Hzone as [[_ ->]|[_ ->]]; [by left|by right]).
  destruct (validated_relative _ _ Hp) as [Hrel _].
  destruct (zone_layout valves zone_name path p "c" user Hz)
    as (_ & Hd & Hl & Hez & _ & Hlock & _); [by vm_compute|done|].
  fold zone_root in Hd, Hl, Hez, Hlock. fold editzone in Hez.
  set (zr := _get_user_root valves user ++ [zone_name]) in *.
  set (lock_path := _get_lock_path zone_root p) in *.
  assert (Hlne : lock_path <> []) by (rewrite Hlock; by destruct zr).
  assert (Hout : out = store_force_unlock valves path zone user meta s) by reflexivity.
  clearbody out. unfold store_force_unlock, respond in Hout.
  rewrite Hp, bind_check_ok in Hout.
  assert (Hname : (if Str.eqb (lower zone) "storage" then "Storage" else "Documents")
                  = zone_name).
  { by destruct Hzone as [[-> ->]|[-> ->]]. }
  assert (Hcheck : (if negb (Str.eqb (lower zone) "storage")
                       && negb (Str.eqb (lower zone) "documents")
                    then raise ZONE_FORBIDDEN [] else Ok tt) = Ok tt).
  { by destruct Hzone as [[-> ->]|[-> ->]]. }
  rewrite Hcheck, bind_check_ok, Hname in Hout. cbv zeta in Hout.
  fold zone_root editzone lock_path in Hout.
  destruct (unlock_loop editzone p (FS.iterdir s editzone) s Hrel)
    as (s1 & Hloop & Hsh1 & Hun1 & Hgone1).
  { intros x (Hparent & Hu & _)%iterdir_children. split; [done|].
    intros ->. rewrite Hez in Hu. unfold FS.strictly_under in Hu.
    by destruct zr. }
  assert (Hzone1 : exists s1',
            when_exists editzone
              (branch (fun s => FS.is_dir s editzone)
                 (conv_dirs ← reading (fun s => Ok (FS.iterdir s editzone));
                  for_each conv_dirs (fun conv_dir => unlock_conv editzone conv_dir p) tt)
                 fail_other) s = (Ok tt, s1')
            /\ shrinks s s1'
            /\ (forall root, apart editzone root -> unchanged_below root s s1')
            /\ (forall x, x ∈ FS.iterdir s editzone ->
                  FS.is_dir s x = true -> s1' !! (x ++ Path.segments p) = None)).
  { unfold when_exists, branch, FS.exists_, FS.is_dir, FS.is_file in *.
    destruct (FS.node_at s editzone) as [[|c]|] eqn:Hnode; [|done|].
    - exists s1. split; [|split; [done|split; [done|]]].
      + unfold reading, mbind at 1, M_bind at 1. exact Hloop.
      + intros x Hx Hdir. apply Hgone1; [done|by left].
    - exists s. split; [done|]. split; [done|]. split; [done|].
      intros x (Hparent & Hu & [n Hsome])%iterdir_children Hdir. exfalso.
      destruct (Hwf _ _ Hsome) as [_ Hup]. rewrite Hparent in Hup.
      unfold FS.is_dir in Hup. by rewrite Hnode in Hup. }
  destruct Hzone1 as (s1' & Hrun1 & Hsh & Hun & Hgone).
  rewrite (bind_ok _ _ _ _ _ Hrun1) in Hout.
  destruct (rm_with_empty_parents_removes lock_path (Path.join zone_root "locks") s1' Hlne)
    as [Hok2 Hgone2].
  pose proof (keeps_when_exists shrinks lock_path _
                (rm_with_empty_parents_shrinks lock_path (Path.join zone_root "locks")) s1')
    as Hsh2.
  assert (Haplock : apart lock_path (Path.join zone_root "data")).
  { rewrite Hlock, Hd. by apply apart_siblings. }
  pose proof (keeps_when_exists (unchanged_below (Path.join zone_root "data")) lock_path _
                (rm_with_empty_parents_unchanged _ lock_path (Path.join zone_root "locks")
                   Haplock) s1') as Hun2.
  destruct (when_exists lock_path _ s1') as [r2 s2] eqn:Hrun2. cbn in *. subst r2.
  rewrite (bind_ok _ _ _ _ _ Hrun2) in Hout. cbn in Hout. subst out. cbn.
  split; [done|]. split; [done|]. split.
  - intros conv_id Hconv Hdir. apply Hsh2.
    destruct (zone_layout valves zone_name path p conv_id user
                Hz Hconv Hp) as (_ & _ & _ & _ & _ & _ & Hedit).
    fold zone_root zr in Hedit. rewrite Hedit.
    rewrite (join_plain _ conv_id Hconv), Hez in Hdir.
    replace (zr ++ "editzone" :: conv_id :: Path.segments p)
      with (((zr ++ ["editzone"]) ++ [conv_id]) ++ Path.segments p)
      by (by rewrite <- !app_assoc).
    apply Hgone; [|done]. apply iterdir_children. rewrite Hez. split; [|split].
    + unfold Path.parent. by rewrite removelast_last.
    + by apply strictly_under_app.
    + unfold FS.is_dir in Hdir.
      destruct ((zr ++ ["editzone"]) ++ [conv_id]) eqn:Heq;
        [by apply app_eq_nil in Heq as [_ ?]|].
      cbn in Hdir. by destruct (s !! _).
  - etrans; [|exact Hun2]. apply Hun. rewrite Hez, Hd. by apply apart_siblings.
Qed.

End Unlocking.

Lemma force_unlock_zone_names_witness :
  store_force_unlock demo_valves "notes/a.txt" "Uploads" (Some "u1") (Some "c1") demo_locked
  = (Error (mkError ZONE_FORBIDDEN []), demo_locked).
Proof.
  by apply (proj2 (force_unlock_zone_names demo_valves "notes/a.txt" "notes/a.txt" "Uploads"
                     (Some "u1") (Some "c1") demo_locked)).
Defined.

Lemma force_unlock_spec_witness :
  let out := store_force_unlock demo_valves "notes/a.txt" "STORAGE" (Some "u1") (Some "c2")
               demo_locked in
  out.1 = Success NoData
  /\ out.2 !! ["srv"; "users"; "u1"; "Storage"; "locks"; "notes"; "a.txt.lock"] = None
  /\ out.2 !! ["srv"; "users"; "u1"; "Storage"; "editzone"; "c1"; "notes"; "a.txt"] = None
  /\ out.2 !! ["srv"; "users"; "u1"; "Storage"; "data"; "notes"; "a.txt"]
     = Some (File "hello").
Proof.
  intros out.
  destruct (force_unlock_spec demo_valves "notes/a.txt" "notes/a.txt" "STORAGE" "Storage"
              (Some "u1") (Some "c2") demo_locked) as (Hok & Hlock & Hcopies & Hdata).
  - apply wf_decide. vm_compute. reflexivity.
  - reflexivity.
  - left. by split.
  - vm_compute. reflexivity.
  - split; [exact Hok|]. split; [exact Hlock|]. split.
    + apply (Hcopies "c1" plain_c1). vm_compute. reflexivity.
    + etrans; [apply Hdata|]; vm_compute; reflexivity.
Defined.

(** ** Commands that are not run *)

Section NotRun.

Context {host : Host} (valves : Valves).

Lemma validate_args_accepts (args : list string) (readonly : bool) :
  _validate_args args readonly = Ok tt -> Forall (fun a => ~ refused readonly a) args.
Proof.
  unfold refused. induction args as [|a args IH]; cbn [_validate_args]; [by constructor|].
  destruct (Re.search DANGEROUS_ARGS_PATTERN a) eqn:Hs; [done|].
  destruct (readonly && Str.eqb a "-i") eqn:Hi; [done|]. intros H.
  constructor; [|by apply IH]. intros [Hd|[-> ->]].
  - apply search_spec in Hd. congruence.
  - vm_compute in Hi. discriminate.
Qed.

Lemma absolute_is_refused (args : list string) (chroot : path) :
  Exists (fun arg => Str.startswith "/" arg = true) args ->
  exists e, _validate_path_args args chroot = Raise e.
Proof.
  unfold _validate_path_args. induction 1 as [a args Ha|a args _ [e IH]];
    cbn [check_path_args].
  - rewrite Ha. by eexists.
  - destruct (Str.startswith "/" a); [by eexists|].
    destruct (_ && _); [by eexists|].
    destruct (check_path_args args chroot) as [[]|e']; [done|]. by eexists.
Qed.

(** The three checks of an [exec] raise on a rejected call. *)
Lemma checks_refuse (cmd : string) (whitelist : gset string)
    (git_args : option (list string)) (args : list string) (readonly : bool)
    (chroot : path) (run : list string -> M payload) (s : fs) :
  rejected cmd whitelist args readonly ->
  exists e,
    (check (_validate_command cmd whitelist git_args);;
     check (_validate_args args readonly);;
     safe_args ← check (_validate_path_args args chroot);
     run safe_args) s = (Raise e, s).
Proof.
  intros Hrej. unfold mbind, M_bind, check.
  destruct (_validate_command cmd whitelist git_args) as [[]|e1] eqn:Hcmd; [|by eexists].
  destruct (_validate_args args readonly) as [[]|e2] eqn:Hargs; [|by eexists].
  apply validate_args_accepts in Hargs.
  assert (Habs : Exists (fun arg => Str.startswith "/" arg = true) args).
  { destruct Hrej as [Hw|[Hb|[Hr|Ha]]]; [| | |done]; exfalso.
    - revert Hcmd. unfold _validate_command. case_bool_decide; [done|].
      by rewrite (bool_decide_eq_false_2 _ Hw).
    - revert Hcmd. unfold _validate_command. by rewrite (bool_decide_eq_true_2 _ Hb).
    - apply Exists_exists in Hr as (a & Ha & Hr).
      rewrite Forall_forall in Hargs. by apply (Hargs a). }
  destruct (absolute_is_refused args chroot Habs) as [e ->]. by eexists.
Qed.

Lemma respond_raise (m : M payload) (s s' : fs) (e : exn) :
  m s = (Raise e, s') -> (respond m s).2 = s' /\ forall d, (respond m s).1 <> Success d.
Proof. unfold respond. intros ->. by destruct e. Qed.

(** A rejected call runs nothing.  Whatever the host's [subprocess.run]
    would do, the [exec] of Uploads and of an edit zone leaves the file
    system as it is, that of Storage as [_ensure_dir] of its data
    directory leaves it and that of Documents as [_init_git_repo] leaves
    it, and none of them succeeds. *)
Theorem rejected_call_is_not_run (cmd : string) (args : list string) (timeout : Z)
    (user meta : option string) (zone_name : string) (s : fs) :
  let user_root := _get_user_root valves user in
  let failed (out : response * fs) (s' : fs) :=
    out.2 = s' /\ forall d, out.1 <> Success d in
  (rejected cmd WHITELIST_READONLY args true ->
   failed (store_uploads_exec valves cmd args timeout user meta s) s)
  /\ (rejected cmd WHITELIST_READWRITE args false ->
      failed (edit_exec valves zone_name cmd args timeout user meta s) s
      /\ failed (store_storage_exec valves cmd args timeout user meta s)
           (_ensure_dir (Path.join (Path.join user_root "Storage") "data") s).2
      /\ failed (store_documents_exec valves cmd args timeout user meta s)
           (_init_git_repo (Path.join (Path.join user_root "Documents") "data") s).2).
Proof.
  intros user_root failed. subst failed. cbv beta.
  split; [|intros Hrej; split; [|split]].
  - intros Hrej. unfold store_uploads_exec. destruct (negb _); [done|].
    destruct (checks_refuse cmd _ None args true
                (Path.join (Path.join user_root "Uploads") (_get_conv_id meta))
                (fun safe_args => _exec_command cmd safe_args
                   (Path.join (Path.join user_root "Uploads") (_get_conv_id meta))
                   (_clamp_timeout valves timeout)) s Hrej) as [e He].
    by apply (respond_raise _ _ _ e).
  - unfold edit_exec. fold user_root.
    set (chroot := Path.join (Path.join (Path.join user_root zone_name) "editzone")
                     (_get_conv_id meta)).
    destruct (FS.exists_ s chroot) eqn:Hex.
    + destruct (checks_refuse cmd _ (Some args) args false chroot
                  (fun safe_args => _exec_command cmd safe_args chroot
                     (_clamp_timeout valves timeout)) s Hrej) as [e He].
      apply (respond_raise _ _ _ e). rewrite (bind_ok _ _ s s tt); [done|].
      unfold branch. by rewrite Hex.
    + apply (respond_raise _ _ _ (Storage (mkError ZONE_FORBIDDEN []))).
      apply bind_raise. unfold branch. by rewrite Hex.
  - unfold store_storage_exec. fold user_root.
    set (chroot := Path.join (Path.join user_root "Storage") "data").
    destruct (_ensure_dir chroot s) as [[[]|e1] s1] eqn:H1.
    + destruct (checks_refuse cmd _ (Some args) args false chroot
                  (fun safe_args => _exec_command cmd safe_args chroot
                     (_clamp_timeout valves timeout)) s1 Hrej) as [e He].
      apply (respond_raise _ _ _ e). by rewrite (bind_ok _ _ _ _ _ H1).
    + apply (respond_raise _ _ _ e1). by apply bind_raise.
  - unfold store_documents_exec. fold user_root.
    set (chroot := Path.join (Path.join user_root "Documents") "data").
    destruct (_init_git_repo chroot s) as [[[]|e1] s1] eqn:H1.
    + destruct (checks_refuse cmd _ (Some args) args false chroot
                  (fun safe_args => _exec_command cmd safe_args chroot
                     (_clamp_timeout valves timeout)) s1 Hrej) as [e He].
      apply (respond_raise _ _ _ e). by rewrite (bind_ok _ _ _ _ _ H1).
    + apply (respond_raise _ _ _ e1). by apply bind_raise.
Qed.

End NotRun.

Lemma rejected_call_is_not_run_witness :
  let out := store_uploads_exec (host:=RefHost.host) demo_valves "git" ["status"] 30
               (Some "u1") (Some "c1") demo_documents in
  out.2 = demo_documents /\ forall d, out.1 <> Success d.
Proof.
  exact (proj1 (rejected_call_is_not_run (host:=RefHost.host) demo_valves "git" ["status"]
                  30 (Some "u1") (Some "c1") "Storage" demo_documents)
           (or_introl git_is_not_readonly)).
Defined.

(** ** Writing to the edit zone *)

Section EditWriting.

Context {host : Host} (valves : Valves).


End EditWriting.


(** ** Maintenance *)

Section Maintenance.

Context {host : Host} (valves : Valves).

Lemma quiet_sweep_lock (now : Z) (zone_name : string) (locks_dir editzone_dir : path)
    (lock_file : path) (c : cleaned) :
  quiet (sweep_lock valves now zone_name locks_dir editzone_dir lock_file c).
Proof.
  unfold sweep_lock. apply quiet_bind.
  { intros s e. unfold reading, FS.read_text. cbn.
    by destruct (FS.node_at s lock_file) as [[|?]|]. }
  intros text. destruct (json_loads text) as [[| | | | |lock_data]|]; try apply quiet_fail_other.
  2: { quietly. }
  destruct (truthy _); [|apply quiet_ret].
  destruct (default (JStr "") (dict_get lock_data "locked_at"));
    try apply quiet_fail_other.
  destruct (fromisoformat _); try apply quiet_ret.
  destruct (expired _ _ _); [|apply quiet_ret].
  destruct (truthy _); [|quietly].
  destruct (default (JStr "") (dict_get lock_data "conv_id")); try apply quiet_ret.
  quietly.
Qed.

Lemma quiet_scandir (p : path) : quiet (reading (fun s => FS.scandir s p)).
Proof. intros s e. unfold reading, FS.scandir. cbn. by destruct (FS.is_dir s p). Qed.

Lemma quiet_scan {B : Type} (fuel : nat) (matches : string -> bool)
    (body : list string -> B -> M B) :
  (forall p b, quiet (body p b)) ->
  forall parent_path acc, quiet (scan fuel matches body parent_path acc).
Proof.
  intros Hbody. induction fuel as [|fuel IH]; intros parent_path acc; cbn [scan];
    [apply quiet_ret|].
  apply quiet_bind; [apply quiet_scandir|intros entries].
  apply quiet_bind; [apply quiet_for_each; intros; apply Hbody|intros acc'].
  apply quiet_bind; [apply quiet_scandir|intros entries'].
  apply quiet_for_each. intros entry [b|]; [apply IH|apply quiet_ret].
Qed.

Lemma quiet_rglob_each {B : Type} (root : list string) (matches : string -> bool)
    (body : list string -> B -> M B) (acc : B) :
  (forall p b, quiet (body p b)) -> quiet (rglob_each root matches body acc).
Proof.
  intros Hbody. unfold rglob_each. apply quiet_branch; [|apply quiet_ret].
  apply quiet_bind.
  - intros s e. by apply quiet_scan.
  - intros [b|]; [apply quiet_ret|apply quiet_fail_other].
Qed.

(** [store_maintenance] never answers with a [StorageError]: it ends
    with its report of three lists, or with a plain failure when a step
    raises. *)
Theorem maintenance_answers_with_a_report (now : Z) (user meta : option string) (s : fs) :
  let out := store_maintenance valves now user meta s in
  out.1 = Failure
  \/ exists expired corrupted orphans, out.1 = Success (Cleaned expired corrupted orphans).
Proof.
  set (sweep :=
    c ← for_each ["Storage"; "Documents"] (sweep_zone valves now (_get_user_root valves user))
          {| expired_locks := []; corrupted_locks := []; orphan_editzones := [] |};
    mret (Cleaned (expired_locks c) (corrupted_locks c) (orphan_editzones c))).
  assert (Hquiet : quiet sweep).
  { apply quiet_bind; [|intros; apply quiet_ret].
    apply quiet_for_each. intros zone_name c. unfold sweep_zone.
    apply quiet_bind; [|intros c'].
    - apply quiet_branch; [|apply quiet_ret].
      apply quiet_rglob_each. intros. apply quiet_sweep_lock.
    - apply quiet_branch; [|apply quiet_ret].
      apply quiet_branch; [|apply quiet_fail_other].
      apply quiet_bind; [apply quiet_reading|intros conv_dirs].
      apply quiet_for_each. intros conv_dir c''. unfold sweep_conv.
      apply quiet_branch; [|apply quiet_ret].
      apply quiet_rglob_each. intros item c3. unfold sweep_item. quietly. }
  change (store_maintenance valves now user meta s) with (respond sweep s).
  unfold respond. pose proof (Hquiet s) as Hs.
  destruct (sweep s) as [[d|[e|]] s'] eqn:Hrun; cbn in *; [|by destruct (Hs e)|by left].
  right. apply bind_success in Hrun as (c & s1 & _ & Hret). injection Hret as <- _.
  by eexists _, _, _.
Qed.

(** *** The depth of the scan *)

Lemma sweep_lock_shrinks (now : Z) (zone_name : string) (locks_dir editzone_dir : path)
    (lock_file : path) (c : cleaned) :
  keeps shrinks (sweep_lock valves now zone_name locks_dir editzone_dir lock_file c).
Proof.
  unfold sweep_lock. keeping keeps_bind; [keeping keeps_reading|].
  intros text. destruct (json_loads text) as [[| | | | |lock_data]|];
    try keeping keeps_fail_other.
  2: { keeping keeps_bind; [apply rm_with_empty_parents_shrinks|intros _; keeping keeps_ret]. }
  destruct (truthy _); [|keeping keeps_ret].
  destruct (default (JStr "") (dict_get lock_data "locked_at"));
    try keeping keeps_fail_other.
  destruct (fromisoformat _); try keeping keeps_ret.
  destruct (expired _ _ _); [|keeping keeps_ret].
  destruct (truthy _).
  2: { keeping keeps_bind; [apply rm_with_empty_parents_shrinks|intros _; keeping keeps_ret]. }
  destruct (default (JStr "") (dict_get lock_data "conv_id")); try keeping keeps_ret.
  keeping keeps_bind; [|intros _].
  { keeping keeps_when_exists. apply rm_with_empty_parents_shrinks. }
  keeping keeps_bind; [apply rm_with_empty_parents_shrinks|intros _; keeping keeps_ret].
Qed.

Lemma sweep_item_shrinks (zone_name : string) (locks_dir editzone_dir conv_dir : path)
    (item : path) (c : cleaned) :
  keeps shrinks (sweep_item zone_name locks_dir editzone_dir conv_dir item c).
Proof.
  unfold sweep_item. keeping keeps_branch; [|keeping keeps_ret].
  keeping keeps_branch; [|keeping keeps_ret].
  keeping keeps_bind; [apply rm_with_empty_parents_shrinks|intros _; keeping keeps_ret].
Qed.

Lemma keeps_scan (R : relation fs) `{!PreOrder R} {B : Type} (fuel : nat)
    (matches : string -> bool) (body : list string -> B -> M B) :
  (forall p b, keeps R (body p b)) ->
  forall parent_path acc, keeps R (scan fuel matches body parent_path acc).
Proof.
  intros Hbody. induction fuel as [|fuel IH]; intros parent_path acc; cbn [scan];
    [keeping keeps_ret|].
  keeping keeps_bind; [keeping keeps_reading|intros entries].
  keeping keeps_bind; [keeping keeps_for_each; intros; apply Hbody|intros acc'].
  keeping keeps_bind; [keeping keeps_reading|intros entries'].
  keeping keeps_for_each. intros entry [b|]; [apply IH|keeping keeps_ret].
Qed.

(** What holds of every exception and of what follows a step holds of
    the two in a row. *)
Lemma bind_result {A B : Type} (P : result B -> Prop) (m : M A) (k : A -> M B) (s : fs) :
  (forall e, P (Raise e)) ->
  (forall a s', m s = (Ok a, s') -> P (k a s').1) ->
  P ((m ≫= k) s).1.
Proof.
  intros He Hk. unfold mbind, M_bind. destruct (m s) as [[a|e] s']; [by apply Hk|apply He].
Qed.

(** A loop whose turns are not cut short, on the states it can reach, is
    not cut short. *)
Lemma for_each_not_cut {A B : Type} (I : fs -> Prop) (xs : list A)
    (f : A -> option B -> M (option B)) :
  (forall x b s, x ∈ xs -> I s -> (f x (Some b) s).1 <> Ok None /\ I (f x (Some b) s).2) ->
  forall b s, I s -> (for_each xs f (Some b) s).1 <> Ok None.
Proof.
  induction xs as [|x xs IH]; intros Hf b s Hs; [done|]. cbn [for_each].
  unfold mbind, M_bind. destruct (Hf x b s (list_elem_of_here _ _) Hs) as [Hcut Hs1].
  destruct (f x (Some b) s) as [[[b'|]|e] s1]; [|done|done].
  apply IH; [|done]. intros y b0 s0 Hy. apply Hf. by right.
Qed.

(** Below an entry of a directory there is less than below the
    directory, also once entries have gone. *)
Lemma below_child_smaller (s s' : fs) (parent_path q : path) :
  shrinks s s' -> is_Some (s !! q) -> FS.strictly_under parent_path q = true ->
  (size (FS.below s' q) < size (FS.below s parent_path))%nat.
Proof.
  intros Hshrink [n Hq] Hunder.
  assert (H : (dom (FS.below s' q) : gset (list string)) ⊂ dom (FS.below s parent_path)).
  { split.
    - intros x [m Hx]%elem_of_dom. apply map_lookup_filter_Some in Hx as [Hx Hu]. cbn in Hu.
      apply elem_of_dom. destruct (s !! x) as [m0|] eqn:Hsx.
      2: { apply Hshrink in Hsx. congruence. }
      exists m0. apply map_lookup_filter_Some. split; [done|]. cbn.
      unfold FS.strictly_under in Hu. apply andb_true_iff in Hu as [Hu _].
      apply is_under_prefix in Hu as [rest ->]. by apply strictly_under_below.
    - intros Hsub. assert (Hin : q ∈ (dom (FS.below s parent_path) : gset (list string))).
      { apply elem_of_dom. exists n. by apply map_lookup_filter_Some. }
      apply Hsub, elem_of_dom in Hin as [m Hin].
      apply map_lookup_filter_Some in Hin as [_ Hu]. cbn in Hu.
      unfold FS.strictly_under in Hu. apply andb_true_iff in Hu as [_ Hu].
      by rewrite bool_decide_eq_true_2 in Hu. }
  apply subset_size in H. by rewrite !size_dom in H.
Qed.

(** With a body that adds no entry, a scan with more fuel than there are
    entries below the directory it starts from is not cut short. *)
Lemma scan_has_fuel {B : Type} (matches : string -> bool) (body : list string -> B -> M B) :
  (forall p b, keeps shrinks (body p b)) ->
  forall (n : nat) (parent_path : list string) (acc : B) (s : fs),
    (size (FS.below s parent_path) < n)%nat ->
    (scan n matches body parent_path acc s).1 <> Ok None.
Proof.
  intros Hbody. induction n as [|n IH]; intros parent_path acc s Hn; [lia|].
  cbn [scan].
  apply (bind_result (fun r => r <> Ok None)); [done|]. intros entries s0 Hs0.
  assert (s0 = s) as -> by (unfold reading in Hs0; congruence).
  apply (bind_result (fun r => r <> Ok None)); [done|]. intros acc1 s1 Hs1.
  assert (Hshrink : shrinks s s1).
  { pose proof (keeps_for_each shrinks
                  (List.filter (fun entry => matches (List.last entry.1 "")) entries)
                  (fun entry => body entry.1) acc
                  (fun x b => Hbody x.1 b) s) as Hk.
    by rewrite Hs1 in Hk. }
  apply (bind_result (fun r => r <> Ok None)); [done|]. intros entries2 s2 Hs2.
  unfold reading, FS.scandir in Hs2. destruct (FS.is_dir s1 parent_path); [|done].
  injection Hs2 as <- <-.
  apply (for_each_not_cut (shrinks s1)); [|done].
  intros [q d] b s' [Hin _]%list_elem_of_In%filter_In Hs'. cbn [fst]. split.
  - apply list_elem_of_In, list_elem_of_fmap in Hin as (q' & [= -> _] & Hq').
    apply iterdir_children in Hq' as (_ & Hunder & Hsome).
    assert (Hsome0 : is_Some (s !! q')).
    { destruct (s !! q') eqn:H0; [done|]. apply Hshrink in H0. rewrite H0 in Hsome.
      by destruct Hsome. }
    pose proof (below_child_smaller s s' parent_path q'
                  (transitivity Hshrink Hs') Hsome0 Hunder) as Hlt.
    apply IH. lia.
  - etrans; [exact Hs'|]. exact (keeps_scan shrinks n matches body Hbody q b s').
Qed.

(** The scans of [store_maintenance] are not cut short.  The bodies of
    its two loops remove entries and add none, so a scan goes no deeper
    than there are entries: the scan of the lock files and the scan of a
    conversation's edit zone, with the fuel that [rglob_each] gives them,
    end as the loop ends, with the value built or with an exception. *)
Theorem maintenance_scans_complete (now : Z) (zone_name : string)
    (locks_dir editzone_dir conv_dir : list string) (c : cleaned) (s : fs) :
  (scan (S (size s)) (Str.endswith ".lock")
     (sweep_lock valves now zone_name locks_dir editzone_dir) locks_dir c s).1 <> Ok None
  /\ (scan (S (size s)) (fun _ => true)
        (sweep_item zone_name locks_dir editzone_dir conv_dir) conv_dir c s).1 <> Ok None.
Proof.
  assert (Hle : forall p, (size (FS.below s p) < S (size s))%nat).
  { intros p. apply Nat.lt_succ_r, map_subseteq_size, map_filter_subseteq. }
  split; apply scan_has_fuel; try apply Hle.
  - intros. apply sweep_lock_shrinks.
  - intros. apply sweep_item_shrinks.
Qed.

End Maintenance.
